(** * ws-ssh-proxy: the session engine of [src/server.ts]

    A shallow embedding of the connection registry, the session records,
    the WebSocket attachment handler, the idle sweeper and the
    notification bus of [src/server.ts] (types from [src/types.ts]),
    followed by the properties the specification states about them.

    Modelling conventions.
    - The server is one event loop.  Every callback of the source (an HTTP
      request handler, an [ssh2] event, a [ws] event, a timer tick) is one
      [Event]; [step] runs the callback to completion and returns the new
      engine state with the calls it made on the outside world, in order
      (the [Effect]s).
    - [ManagedConnection] objects are shared between the registry and the
      closures of the event handlers.  They live in a heap ([heap], indexed
      by allocation order); the registry [connections] maps ids to heap
      references, so that a record removed from the registry is still
      reachable from its handlers, as in the source.
    - JavaScript numbers are integers ([Z]); the non-finite values that
      [Number(...)] may produce appear as [NonFinite] where the source
      tests [Number.isFinite].
    - [Date.now()] is read once per callback: every event carries the
      clock value [t] its handler observes.
    - [JSON.parse] belongs to the runtime and is a parameter of the
      development.
    - Strings are byte strings holding UTF-8 text.
    - The [ws] library hands the [message] listener a [Buffer] for every
      frame, text frames included: the parameter of the listener has the
      type [WebSocket.RawData], which has no string.  [Binary] is what a
      frame arrives as; [Text] is the value the tests
      [typeof data === "string"] of the source look for. *)

From Stdlib Require Import ZArith String Ascii List DecimalString.
From stdpp Require Import base list strings.

Set Warnings "-register-all".
Local Open Scope Z_scope.

(** ** Values *)

Inductive number : Type :=
| Finite (z : Z)
| NonFinite.

(** [Number.isFinite] *)
Definition isFinite (n : number) : bool :=
  match n with Finite _ => true | NonFinite => false end.

Inductive json : Type :=
| JNull
| JBool (b : bool)
| JNum (n : number)
| JStr (s : string)
| JArr (l : list json)
| JObj (kvs : list (string * json)).

(** Property access on a parsed object: [obj.key]. *)
Fixpoint field (key : string) (kvs : list (string * json)) : option json :=
  match kvs with
  | [] => None
  | (k, v) :: rest => if String.eqb k key then Some v else field key rest
  end.

Definition keys (j : json) : list string :=
  match j with JObj kvs => map fst kvs | _ => [] end.

Definition get (key : string) (j : json) : option json :=
  match j with JObj kvs => field key kvs | _ => None end.

(** What [JSON.stringify] prints for a number: non-finite values become
    [null]. *)
Definition jnum (n : number) : json :=
  match n with Finite z => JNum (Finite z) | NonFinite => JNull end.

Definition jint (z : Z) : json := JNum (Finite z).

(** Truthiness of an optional object reference. *)
Definition present {A : Type} (o : option A) : bool :=
  match o with Some _ => true | None => false end.

(** Decimal rendering of an integer inside a template literal. *)
Definition show_Z (z : Z) : string := NilZero.string_of_int (Z.to_int z).

(** ** [src/types.ts] *)

Inductive ConnectionState : Type := Connecting | Ready | Closed | Error.

Definition state_name (st : ConnectionState) : string :=
  match st with
  | Connecting => "connecting"
  | Ready => "ready"
  | Closed => "closed"
  | Error => "error"
  end.

Definition state_eqb (a b : ConnectionState) : bool :=
  match a, b with
  | Connecting, Connecting | Ready, Ready | Closed, Closed | Error, Error => true
  | _, _ => false
  end.

Record Meta : Type := { host : string; port : number; username : string }.

Module Conn.
Record t : Type := {
  id : string;
  state : ConnectionState;
  createdAt : Z;
  lastActivityAt : Z;
  ssh : nat;                 (* the Client made for this record *)
  shell : option nat;        (* the ClientChannel, once opened *)
  clients : list nat;        (* Set<WebSocket>, in insertion order *)
  cols : number;
  rows : number;
  idleTimeoutMs : Z;
  meta : Meta;
}.

Definition set_state (st : ConnectionState) (c : t) : t :=
  {| id := id c; state := st; createdAt := createdAt c;
     lastActivityAt := lastActivityAt c; ssh := ssh c; shell := shell c;
     clients := clients c; cols := cols c; rows := rows c;
     idleTimeoutMs := idleTimeoutMs c; meta := meta c |}.

Definition set_lastActivityAt (v : Z) (c : t) : t :=
  {| id := id c; state := state c; createdAt := createdAt c;
     lastActivityAt := v; ssh := ssh c; shell := shell c;
     clients := clients c; cols := cols c; rows := rows c;
     idleTimeoutMs := idleTimeoutMs c; meta := meta c |}.

Definition set_shell (v : option nat) (c : t) : t :=
  {| id := id c; state := state c; createdAt := createdAt c;
     lastActivityAt := lastActivityAt c; ssh := ssh c; shell := v;
     clients := clients c; cols := cols c; rows := rows c;
     idleTimeoutMs := idleTimeoutMs c; meta := meta c |}.

Definition set_clients (v : list nat) (c : t) : t :=
  {| id := id c; state := state c; createdAt := createdAt c;
     lastActivityAt := lastActivityAt c; ssh := ssh c; shell := shell c;
     clients := v; cols := cols c; rows := rows c;
     idleTimeoutMs := idleTimeoutMs c; meta := meta c |}.

Definition set_size (c' r' : number) (c : t) : t :=
  {| id := id c; state := state c; createdAt := createdAt c;
     lastActivityAt := lastActivityAt c; ssh := ssh c; shell := shell c;
     clients := clients c; cols := c'; rows := r';
     idleTimeoutMs := idleTimeoutMs c; meta := meta c |}.
End Conn.

(** [ControlMessage] is a tagged object; the handler reads its fields
    dynamically, so it is kept as the parsed key/value list. *)
Definition ControlMessage : Type := list (string * json).

Inductive Reason : Type :=
| created | deleted | state_changed | ws_attached | ws_detached | resize
| idle_timeout.

Definition reason_name (r : Reason) : string :=
  match r with
  | created => "created"
  | deleted => "deleted"
  | state_changed => "state"
  | ws_attached => "ws-attached"
  | ws_detached => "ws-detached"
  | resize => "resize"
  | idle_timeout => "idle-timeout"
  end.

Module Counts.
Record t : Type := {
  total : Z; ready : Z; connecting : Z; error : Z; closed : Z
}.
End Counts.

Module Summary.
Record t : Type := {
  version : Z;
  ts : Z;
  reason : Reason;
  changedIds : option (list string);
  counts : Counts.t;
}.
End Summary.

(** ** The process state of [src/server.ts] *)

(** [WebSocket.readyState] *)
Inductive ReadyState : Type := WS_CONNECTING | WS_OPEN | WS_CLOSING | WS_CLOSED.

Definition is_open (r : ReadyState) : bool :=
  match r with WS_OPEN => true | _ => false end.

(** A WebSocket object: its ready state and, once [attachWebSocket] has
    registered its listeners, the connection and the [readOnly] flag that
    the listeners close over. *)
Record Socket : Type := {
  readyState : ReadyState;
  listeners : option (nat * bool);
}.

(** Where the [createConnection] call that made a record is suspended:
    at its first [await] (SSH ready), at its second (shell opened), or
    not at all.  [req] is the HTTP request waiting for the outcome. *)
Inductive Pending : Type :=
| AwaitSsh (req : nat)
| AwaitShell (req : nat)
| Settled.

Record Cell : Type := { conn : Conn.t; pending : Pending }.

Record Engine : Type := {
  heap : list Cell;                  (* ManagedConnection objects *)
  sockets : list Socket;             (* WebSocket objects *)
  connections : list (string * nat); (* Map<string, ManagedConnection> *)
  connectionsVersion : Z;
  sseClients : list nat;             (* Set<http.ServerResponse> *)
  sseSeq : Z;
}.

Record Config : Type := {
  BASE_PATH : string;
  DEFAULT_IDLE_TIMEOUT_MS : Z;
  MAX_CONNECTIONS : Z;
}.

Definition initial : Engine :=
  {| heap := []; sockets := []; connections := []; connectionsVersion := 0;
     sseClients := []; sseSeq := 0 |}.

(** ** Calls on the outside world *)

(** The value of [data] in the [message] listener and in
    [tryParseControlMessage(data: unknown)], as the source tells the cases
    apart: a string ([typeof data === "string"]) or a [Buffer]. *)
Inductive RawData : Type :=
| Text (s : string)
| Binary (b : list Byte.byte).

Inductive Frame : Type :=
| FrameBuffer (b : list Byte.byte)
| FrameText (s : string)
| FrameJson (j : json).       (* [JSON.stringify(j)] *)

Inductive ShellInput : Type :=
| Raw (d : RawData)
| StringOf (j : json).        (* [String(j)] *)

Inductive Effect : Type :=
| WsClose (w : nat) (code : Z) (why : string)
| WsSend (w : nat) (f : Frame)
| SocketDestroy
| SshConnect (c : nat) (host : string) (port : number) (username password : string)
    (keepaliveInterval keepaliveCountMax readyTimeout : Z)
| SshShell (c : nat) (term : string) (cols rows : number)
| SshEnd (c : nat)
| ShellWrite (c : nat) (d : ShellInput)
| ShellSetWindow (c : nat) (rows cols : number)
| ShellClose (c : nat)
| Notify (s : Summary.t)      (* a summary built by [bumpAndNotify] *)
| SseComment (res : nat) (text : string)
| SseFrame (res : nat) (seq : Z) (event : string) (data : Summary.t)
| HttpResponse (req : nat) (status : Z) (body : json).

(** ** Plumbing: state and effects threaded through the handlers *)

Definition set_heap (v : list Cell) (s : Engine) : Engine :=
  {| heap := v; sockets := sockets s; connections := connections s;
     connectionsVersion := connectionsVersion s; sseClients := sseClients s;
     sseSeq := sseSeq s |}.

Definition set_sockets (v : list Socket) (s : Engine) : Engine :=
  {| heap := heap s; sockets := v; connections := connections s;
     connectionsVersion := connectionsVersion s; sseClients := sseClients s;
     sseSeq := sseSeq s |}.

Definition set_connections (v : list (string * nat)) (s : Engine) : Engine :=
  {| heap := heap s; sockets := sockets s; connections := v;
     connectionsVersion := connectionsVersion s; sseClients := sseClients s;
     sseSeq := sseSeq s |}.

Definition set_connectionsVersion (v : Z) (s : Engine) : Engine :=
  {| heap := heap s; sockets := sockets s; connections := connections s;
     connectionsVersion := v; sseClients := sseClients s; sseSeq := sseSeq s |}.

Definition set_sseClients (v : list nat) (s : Engine) : Engine :=
  {| heap := heap s; sockets := sockets s; connections := connections s;
     connectionsVersion := connectionsVersion s; sseClients := v;
     sseSeq := sseSeq s |}.

Definition set_sseSeq (v : Z) (s : Engine) : Engine :=
  {| heap := heap s; sockets := sockets s; connections := connections s;
     connectionsVersion := connectionsVersion s; sseClients := sseClients s;
     sseSeq := v |}.

(** A handler: from the engine state to a result, the new state and the
    calls made, oldest first. *)
Definition M (A : Type) : Type := Engine → A * Engine * list Effect.

Definition ret {A : Type} (a : A) : M A := λ s, (a, s, []).

Definition bind {A B : Type} (k : A → M B) (m : M A) : M B :=
  λ s, let r := m s in
       let r' := k r.1.1 r.1.2 in
       (r'.1.1, r'.1.2, r.2 ++ r'.2).

#[global] Instance M_ret : MRet M := @ret.
#[global] Instance M_bind : MBind M := @bind.

Definition read : M Engine := λ s, (s, s, []).
Definition update (f : Engine → Engine) : M unit := λ s, (tt, f s, []).
Definition emit (e : Effect) : M unit := λ s, (tt, s, [e]).
Definition skip : M unit := ret tt.

(** [for (const x of l) body(x)] *)
Fixpoint forEach {A : Type} (l : list A) (body : A → M unit) : M unit :=
  match l with
  | [] => skip
  | x :: rest => body x;; forEach rest body
  end.

Definition run_state {A : Type} (m : M A) (s : Engine) : Engine := (m s).1.2.
Definition run_effects {A : Type} (m : M A) (s : Engine) : list Effect := (m s).2.

(** Field assignment on the object at reference [r]. *)
Definition on_conn (f : Conn.t → Conn.t) (x : Cell) : Cell :=
  {| conn := f (conn x); pending := pending x |}.

Definition mutate (r : nat) (f : Conn.t → Conn.t) : M unit :=
  update (λ s, set_heap (alter (on_conn f) r (heap s)) s).

Definition set_pending (r : nat) (p : Pending) : M unit :=
  update (λ s, set_heap
    (alter (λ x, {| conn := conn x; pending := p |}) r (heap s)) s).

Definition deref (s : Engine) (r : nat) : option Conn.t := conn <$> heap s !! r.

(** Run [body] on the current value of the object at [r]. *)
Definition withConn (r : nat) (body : Conn.t → M unit) : M unit :=
  s ← read;
  match deref s r with
  | Some c => body c
  | None => skip
  end.

(** ** [Map] and [Set] as the source uses them *)

(** [Map.prototype.get] *)
Fixpoint map_get (k : string) (m : list (string * nat)) : option nat :=
  match m with
  | [] => None
  | (k', v) :: rest => if String.eqb k' k then Some v else map_get k rest
  end.

(** [Map.prototype.set]: an existing key keeps its position. *)
Fixpoint map_set (k : string) (v : nat) (m : list (string * nat)) : list (string * nat) :=
  match m with
  | [] => [(k, v)]
  | (k', v') :: rest =>
      if String.eqb k' k then (k, v) :: rest else (k', v') :: map_set k v rest
  end.

(** [Map.prototype.delete] *)
Fixpoint map_delete (k : string) (m : list (string * nat)) : list (string * nat) :=
  match m with
  | [] => []
  | (k', v') :: rest =>
      if String.eqb k' k then map_delete k rest else (k', v') :: map_delete k rest
  end.

Fixpoint set_has (x : nat) (l : list nat) : bool :=
  match l with
  | [] => false
  | y :: rest => Nat.eqb y x || set_has x rest
  end.

(** [Set.prototype.add] *)
Definition set_add (x : nat) (l : list nat) : list nat :=
  if set_has x l then l else l ++ [x].

(** [Set.prototype.delete] *)
Fixpoint set_delete (x : nat) (l : list nat) : list nat :=
  match l with
  | [] => []
  | y :: rest => if Nat.eqb y x then set_delete x rest else y :: set_delete x rest
  end.

(** [connections.values()] *)
Definition values (s : Engine) : list Conn.t :=
  omap (λ kv, deref s kv.2) (connections s).

(** [w.readyState === WebSocket.OPEN] *)
Definition socket_open (s : Engine) (w : nat) : bool :=
  match sockets s !! w with
  | Some so => is_open (readyState so)
  | None => false
  end.

(** ** [src/server.ts], leaves first *)

(** What [ws.close()] does to the ready state of the socket. *)
Definition closing (so : Socket) : Socket :=
  {| readyState :=
       match readyState so with
       | WS_CLOSED => WS_CLOSED
       | _ => WS_CLOSING
       end;
     listeners := listeners so |}.

(** [safeCloseWs(ws, code, reason)]: [try { ws.close(code, reason) } catch {}] *)
Definition safeCloseWs (w : nat) (code : Z) (why : string) : M unit :=
  emit (WsClose w code why);;
  update (λ s, set_sockets (alter closing w (sockets s)) s).

(** [touch(conn)] *)
Definition touch (t : Z) (r : nat) : M unit :=
  mutate r (Conn.set_lastActivityAt t).

Definition count_one (acc : Counts.t) (c : Conn.t) : Counts.t :=
  let total := Counts.total acc + 1 in
  match Conn.state c with
  | Ready =>
      {| Counts.total := total; Counts.ready := Counts.ready acc + 1;
         Counts.connecting := Counts.connecting acc;
         Counts.error := Counts.error acc; Counts.closed := Counts.closed acc |}
  | Connecting =>
      {| Counts.total := total; Counts.ready := Counts.ready acc;
         Counts.connecting := Counts.connecting acc + 1;
         Counts.error := Counts.error acc; Counts.closed := Counts.closed acc |}
  | Error =>
      {| Counts.total := total; Counts.ready := Counts.ready acc;
         Counts.connecting := Counts.connecting acc;
         Counts.error := Counts.error acc + 1; Counts.closed := Counts.closed acc |}
  | Closed =>
      {| Counts.total := total; Counts.ready := Counts.ready acc;
         Counts.connecting := Counts.connecting acc;
         Counts.error := Counts.error acc; Counts.closed := Counts.closed acc + 1 |}
  end.

Definition no_counts : Counts.t :=
  {| Counts.total := 0; Counts.ready := 0; Counts.connecting := 0;
     Counts.error := 0; Counts.closed := 0 |}.

(** [computeCounts()] *)
Definition computeCounts (s : Engine) : Counts.t :=
  fold_left count_one (values s) no_counts.

(** [sseSend(res, event, data)]; the payload is a summary in both uses,
    and its JSON text is a single [data:] line. *)
Definition sseSend (res : nat) (event : string) (data : Summary.t) : M unit :=
  update (λ s, set_sseSeq (sseSeq s + 1) s);;
  s ← read;
  emit (SseFrame res (sseSeq s) event data).

(** [bumpAndNotify(reason, changedIds)] *)
Definition bumpAndNotify (t : Z) (reason : Reason) (changedIds : option (list string)) : M unit :=
  update (λ s, set_connectionsVersion (connectionsVersion s + 1) s);;
  s ← read;
  let summary :=
    {| Summary.version := connectionsVersion s; Summary.ts := t;
       Summary.reason := reason; Summary.changedIds := changedIds;
       Summary.counts := computeCounts s |} in
  emit (Notify summary);;
  forEach (sseClients s) (λ res, sseSend res "connections" summary).

Definition meta_json (m : Meta) : json :=
  JObj [("host", JStr (host m)); ("port", jnum (port m));
        ("username", JStr (username m))].

Definition attachedClients (s : Engine) (c : Conn.t) : Z :=
  Z.of_nat (length (List.filter (socket_open s) (Conn.clients c))).

Definition view (s : Engine) (c : Conn.t) : json :=
  JObj [("id", JStr (Conn.id c));
        ("state", JStr (state_name (Conn.state c)));
        ("createdAt", jint (Conn.createdAt c));
        ("lastActivityAt", jint (Conn.lastActivityAt c));
        ("idleTimeoutMs", jint (Conn.idleTimeoutMs c));
        ("attachedClients", jint (attachedClients s c));
        ("meta", meta_json (Conn.meta c))].

(** [connectionsSnapshot()] *)
Definition connectionsSnapshot (t : Z) (s : Engine) : json :=
  JObj [("version", jint (connectionsVersion s));
        ("ts", jint t);
        ("connections", JArr (map (view s) (values s)))].

Definition sendJson (req : nat) (status : Z) (obj : json) : M unit :=
  emit (HttpResponse req status obj).

(** The body of [POST /connections] as the handler reads it: the three
    required fields are strings (an absent one is the empty string, which
    is falsy as well); an optional field [x] holds
    [body.x ? Number(body.x) : undefined]. *)
Module Params.
Record t : Type := {
  host : string;
  port : option number;
  username : string;
  password : string;
  cols : option number;
  rows : option number;
  idleTimeoutMs : option number;
}.
End Params.

Definition CR : ascii := "013"%char.
Definition LF : ascii := "010"%char.

(** The text ["\r\n[attached]\r\n"]. *)
Definition banner : string :=
  String CR (String LF ("[attached]" +:+ String CR (String LF EmptyString))).

(** The code points [String.prototype.trim] removes, the WhiteSpace and
    LineTerminator of ECMAScript, each in UTF-8: tab, line feed, vertical
    tab, form feed, carriage return, space, U+00A0, U+1680, U+2000 to
    U+200A, U+2028, U+2029, U+202F, U+205F, U+3000 and U+FEFF. *)
Definition utf8 (bytes : list nat) : string :=
  string_of_list_ascii (map ascii_of_nat bytes).

Definition white_space : list string :=
  map utf8
    ([[9]; [10]; [11]; [12]; [13]; [32]; [194; 160]; [225; 154; 128]]
     ++ map (λ b, [226; 128; b]) (seq 128 11)
     ++ [[226; 128; 168]; [226; 128; 169]; [226; 128; 175]; [226; 129; 159];
         [227; 128; 128]; [239; 187; 191]])%nat.

(** [s] without its prefix [p], if it has it. *)
Fixpoint strip_prefix (p s : string) : option string :=
  match p, s with
  | EmptyString, _ => Some s
  | String a p', String b s' => if Ascii.eqb a b then strip_prefix p' s' else None
  | String _ _, EmptyString => None
  end.

Fixpoint strip_any (ps : list string) (s : string) : option string :=
  match ps with
  | [] => None
  | p :: rest =>
      match strip_prefix p s with
      | Some s' => Some s'
      | None => strip_any rest s
      end
  end.

(** Leading members of [ws] removed, one per unit of [fuel]. *)
Fixpoint trim_left (fuel : nat) (ws : list string) (s : string) : string :=
  match fuel with
  | O => s
  | S n =>
      match strip_any ws s with
      | Some s' => trim_left n ws s'
      | None => s
      end
  end.

Definition trimStart (s : string) : string :=
  trim_left (String.length s) white_space s.

Definition trimEnd (s : string) : string :=
  String.rev
    (trim_left (String.length s) (map String.rev white_space) (String.rev s)).

(** [s.trim()] *)
Definition trim (s : string) : string := trimEnd (trimStart s).

Definition startsWith (a : ascii) (s : string) : bool :=
  match s with
  | String b _ => Ascii.eqb a b
  | EmptyString => false
  end.

Fixpoint endsWith (a : ascii) (s : string) : bool :=
  match s with
  | EmptyString => false
  | String b EmptyString => Ascii.eqb a b
  | String _ rest => endsWith a rest
  end.

Inductive Event : Type :=
(* HTTP requests, already routed *)
| PostConnections (req : nat) (uuid : string) (body : Params.t)
| GetConnections (req : nat)
| DeleteConnection (req : nat) (id : string)
| PostResize (req : nat) (id : string) (cols rows : number)
| GetStream (res : nat)
| StreamClosed (res : nat)
(* ssh2 client events and the callback of [ssh.shell] *)
| SshReady (c : nat)
| SshError (c : nat) (message : string)
| SshClose (c : nat)
| ShellOpened (c : nat)
| ShellRefused (c : nat) (message : string)
(* events of the shell stream *)
| StreamData (c : nat) (chunk : list Byte.byte)
| StreamClose (c : nat)
| StreamError (c : nat)
(* WebSocket upgrade on /ws/{id} and events of an attached socket *)
| Upgrade (id : string) (readOnly : bool)
| WsMessage (w : nat) (data : RawData)
| WsClosed (w : nat)
| WsError (w : nat)
(* the sweeper's timer *)
| SweepTick.

Section Server.

Variable cfg : Config.

(** [JSON.parse]: [None] when it throws. *)
Variable JSON_parse : string → option json.

Definition withBase (pathname : string) : string := BASE_PATH cfg +:+ pathname.

(** [tryParseControlMessage(data)] *)
Definition tryParseControlMessage (data : RawData) : option ControlMessage :=
  match data with
  | Text d =>
      let s := trim d in
      if startsWith "{" s && endsWith "}" s then
        match JSON_parse s with
        | Some (JObj obj) =>
            match field "type" obj with
            | Some (JStr _) => Some obj
            | _ => None
            end
        | _ => None
        end
      else None
  | Binary _ => None
  end.

(** [applyResize(conn, cols, rows)] *)
Definition applyResize (t : Z) (r : nat) (cols rows : Z) : M unit :=
  mutate r (Conn.set_size (Finite cols) (Finite rows));;
  withConn r (λ c,
    match Conn.shell c with
    | Some _ => emit (ShellSetWindow r (Finite rows) (Finite cols))
    | None => skip
    end;;
    bumpAndNotify t resize (Some [Conn.id c])).

Definition type_of (ctrl : ControlMessage) : string :=
  match field "type" ctrl with Some (JStr ty) => ty | _ => EmptyString end.

(** The [message] listener that [attachWebSocket] installs on [w]. *)
Definition onMessage (t : Z) (w r : nat) (readOnly : bool) (data : RawData) : M unit :=
  touch t r;;
  if readOnly then skip else
  let raw := emit (ShellWrite r (Raw data)) in
  match tryParseControlMessage data with
  | Some ctrl =>
      if String.eqb (type_of ctrl) "resize" then
        match field "cols" ctrl, field "rows" ctrl with
        | Some (JNum (Finite cols)), Some (JNum (Finite rows)) =>
            applyResize t r cols rows
        | _, _ => skip
        end
      else if String.eqb (type_of ctrl) "stdin" then
        emit (ShellWrite r (StringOf
          match field "data" ctrl with
          | None | Some JNull => JStr EmptyString
          | Some d => d
          end))
      else if String.eqb (type_of ctrl) "ping" then
        emit (WsSend w (FrameJson (JObj [("type", JStr "pong")])))
      else if String.eqb (type_of ctrl) "detach" then
        safeCloseWs w 1000 "Detached"
      else raw
  | None => raw
  end.

(** The [cleanup] listener ([close] and [error]) that [attachWebSocket]
    installs on [w]. *)
Definition cleanup (t : Z) (w r : nat) : M unit :=
  mutate r (λ c, Conn.set_clients (set_delete w (Conn.clients c)) c);;
  touch t r;;
  withConn r (λ c, bumpAndNotify t ws_detached (Some [Conn.id c])).

(** [attachWebSocket(ws, conn, readOnly)] *)
Definition attachWebSocket (t : Z) (w r : nat) (readOnly : bool) : M unit :=
  withConn r (λ c,
    if negb (state_eqb (Conn.state c) Ready) || negb (present (Conn.shell c))
    then safeCloseWs w 1011 "Connection not ready"
    else
      mutate r (λ c, Conn.set_clients (set_add w (Conn.clients c)) c);;
      touch t r;;
      bumpAndNotify t ws_attached (Some [Conn.id c]);;
      emit (WsSend w (FrameBuffer (String.list_byte_of_string banner)));;
      update (λ s, set_sockets
        (alter (λ so, {| readyState := readyState so;
                         listeners := Some (r, readOnly) |}) w (sockets s)) s)).

(** [terminateConnection(conn, why, reason)] *)
Definition terminateConnection (t : Z) (r : nat) (why : string) (reason : Reason) : M unit :=
  mutate r (Conn.set_state Closed);;
  withConn r (λ c,
    forEach (Conn.clients c) (λ w, safeCloseWs w 1001 why);;
    mutate r (Conn.set_clients []);;
    match Conn.shell c with
    | Some _ => emit (ShellClose r)
    | None => skip
    end;;
    emit (SshEnd r);;
    update (λ s, set_connections (map_delete (Conn.id c) (connections s)) s);;
    bumpAndNotify t reason (Some [Conn.id c])).

(** The listeners for the [close] event of the SSH client and for the
    [close] and [error] events of the shell stream, which differ in the
    state they assign and in the text they close the peers with. *)
Definition upstreamGone (t : Z) (r : nat) (st : ConnectionState) (why : string) : M unit :=
  mutate r (Conn.set_state st);;
  withConn r (λ c,
    forEach (Conn.clients c) (λ w, safeCloseWs w 1011 why);;
    mutate r (Conn.set_clients []);;
    bumpAndNotify t state_changed (Some [Conn.id c])).

Definition or_else {A : Type} (o : option A) (d : A) : A :=
  match o with Some a => a | None => d end.

(** [createConnection(params)] up to its first [await].  The result is
    the message of the error thrown, if any. *)
Definition createConnection (t : Z) (req : nat) (uuid : string) (params : Params.t) : M (option string) :=
  s ← read;
  if Z.of_nat (length (connections s)) >=? MAX_CONNECTIONS cfg
  then mret (Some "MAX_CONNECTIONS exceeded")
  else
    let r := length (heap s) in
    let c :=
      {| Conn.id := uuid; Conn.state := Connecting;
         Conn.createdAt := t; Conn.lastActivityAt := t;
         Conn.ssh := r; Conn.shell := None; Conn.clients := [];
         Conn.cols := or_else (Params.cols params) (Finite 120);
         Conn.rows := or_else (Params.rows params) (Finite 30);
         Conn.idleTimeoutMs :=
           match Params.idleTimeoutMs params with
           | Some (Finite z) => z
           | _ => DEFAULT_IDLE_TIMEOUT_MS cfg
           end;
         Conn.meta :=
           {| host := Params.host params;
              port := or_else (Params.port params) (Finite 22);
              username := Params.username params |} |} in
    update (λ s, set_heap (heap s ++ [{| conn := c; pending := AwaitSsh req |}]) s);;
    update (λ s, set_connections (map_set uuid r (connections s)) s);;
    bumpAndNotify t created (Some [uuid]);;
    emit (SshConnect r (Params.host params)
            (or_else (Params.port params) (Finite 22))
            (Params.username params) (Params.password params)
            15000 3 20000);;
    mret None.

Definition internal_error (detail : string) : json :=
  JObj [("error", JStr "Internal Server Error"); ("detail", JStr detail)].

Definition not_found : json := JObj [("error", JStr "Not Found")].

(** The body of the 201 answer to [POST /connections]. *)
Definition created_json (c : Conn.t) : json :=
  JObj [("id", JStr (Conn.id c));
        ("state", JStr (state_name (Conn.state c)));
        ("createdAt", jint (Conn.createdAt c));
        ("lastActivityAt", jint (Conn.lastActivityAt c));
        ("idleTimeoutMs", jint (Conn.idleTimeoutMs c));
        ("wsPath", JStr (withBase ("/ws/" +:+ Conn.id c)));
        ("meta", meta_json (Conn.meta c))].

Definition pending_of (s : Engine) (r : nat) : Pending :=
  match heap s !! r with
  | Some x => pending x
  | None => Settled
  end.

(** [createConnection] resumed by the [ready] event: the first promise
    resolves and [ssh.shell] is called. *)
Definition onSshReady (r : nat) : M unit :=
  s ← read;
  match pending_of s r with
  | AwaitSsh req =>
      set_pending r (AwaitShell req);;
      withConn r (λ c, emit (SshShell r "xterm-256color" (Conn.cols c) (Conn.rows c)))
  | _ => skip
  end.

(** The [error] event of the SSH client rejects the first promise; the
    request handler catches and answers 500. *)
Definition onSshError (r : nat) (message : string) : M unit :=
  s ← read;
  match pending_of s r with
  | AwaitSsh req =>
      set_pending r Settled;;
      sendJson req 500 (internal_error message)
  | _ => skip
  end.

(** The callback of [ssh.shell], with a stream. *)
Definition onShellOpened (t : Z) (r : nat) : M unit :=
  s ← read;
  match pending_of s r with
  | AwaitShell req =>
      mutate r (Conn.set_shell (Some r));;
      mutate r (Conn.set_state Ready);;
      touch t r;;
      withConn r (λ c, bumpAndNotify t state_changed (Some [Conn.id c]));;
      set_pending r Settled;;
      withConn r (λ c, sendJson req 201 (created_json c))
  | _ => skip
  end.

(** The callback of [ssh.shell], with an error. *)
Definition onShellRefused (r : nat) (message : string) : M unit :=
  s ← read;
  match pending_of s r with
  | AwaitShell req =>
      set_pending r Settled;;
      sendJson req 500 (internal_error message)
  | _ => skip
  end.

(** The listeners of the shell stream exist once [conn.shell] is set. *)
Definition withStream (r : nat) (body : Conn.t → M unit) : M unit :=
  withConn r (λ c, match Conn.shell c with Some _ => body c | None => skip end).

(** [stream.on("data", ...)] *)
Definition onShellData (t : Z) (r : nat) (chunk : list Byte.byte) : M unit :=
  withStream r (λ c,
    touch t r;;
    forEach (Conn.clients c) (λ w,
      s ← read;
      if socket_open s w then emit (WsSend w (FrameBuffer chunk)) else skip)).

(** The listeners of socket [w], if [attachWebSocket] installed them. *)
Definition withListeners (w : nat) (body : nat → bool → M unit) : M unit :=
  s ← read;
  match sockets s !! w with
  | Some so =>
      match listeners so with
      | Some (r, readOnly) => body r readOnly
      | None => skip
      end
  | None => skip
  end.

Definition set_readyState (w : nat) (v : ReadyState) : M unit :=
  update (λ s, set_sockets
    (alter (λ so, {| readyState := v; listeners := listeners so |}) w (sockets s)) s).

(** [server.on("upgrade", ...)] for a path under [/ws/]. *)
Definition onUpgrade (t : Z) (id : string) (readOnly : bool) : M unit :=
  s ← read;
  match map_get id (connections s) with
  | None => emit SocketDestroy
  | Some r =>
      let w := length (sockets s) in
      update (λ s, set_sockets
        (sockets s ++ [{| readyState := WS_OPEN; listeners := None |}]) s);;
      attachWebSocket t w r readOnly
  end.

(** The sweeper's condition on one record: no open peer, and idle for
    longer than its budget. *)
Definition eligible (s : Engine) (t : Z) (c : Conn.t) : bool :=
  let activeClients := existsb (socket_open s) (Conn.clients c) in
  let idleFor := t - Conn.lastActivityAt c in
  negb activeClients && (idleFor >? Conn.idleTimeoutMs c).

Definition idle_text (c : Conn.t) : string :=
  "Idle timeout (" +:+ show_Z (Conn.idleTimeoutMs c) +:+ "ms)".

(** The body of the sweeper's loop over [connections.values()].  The
    iteration is live: an entry deleted before its turn is not visited. *)
Definition sweepOne (t : Z) (kv : string * nat) : M unit :=
  s ← read;
  match map_get kv.1 (connections s) with
  | Some r =>
      withConn r (λ c,
        if eligible s t c
        then terminateConnection t r (idle_text c) idle_timeout
        else skip)
  | None => skip
  end.

(** The callback of the sweeper's [setInterval]. *)
Definition sweep (t : Z) : M unit :=
  s ← read;
  forEach (connections s) (sweepOne t).

(** [handleSse(req, res)] *)
Definition handleSse (t : Z) (res : nat) : M unit :=
  emit (SseComment res "connected");;
  update (λ s, set_sseClients (set_add res (sseClients s)) s);;
  s ← read;
  sseSend res "connections"
    {| Summary.version := connectionsVersion s; Summary.ts := t;
       Summary.reason := state_changed; Summary.changedIds := None;
       Summary.counts := computeCounts s |}.

(** The request handler of [http.createServer], per route. *)
Definition postConnections (t : Z) (req : nat) (uuid : string) (body : Params.t) : M unit :=
  if String.eqb (Params.host body) EmptyString || String.eqb (Params.username body) EmptyString
     || String.eqb (Params.password body) EmptyString
  then sendJson req 400 (JObj [("error", JStr "host, username, password are required")])
  else
    thrown ← createConnection t req uuid body;
    match thrown with
    | Some message => sendJson req 500 (internal_error message)
    | None => skip    (* suspended until the SSH client answers *)
    end.

Definition deleteConnection (t : Z) (req : nat) (id : string) : M unit :=
  s ← read;
  match map_get id (connections s) with
  | None => sendJson req 404 not_found
  | Some r =>
      terminateConnection t r "Deleted" deleted;;
      sendJson req 200 (JObj [("ok", JBool true)])
  end.

Definition has_shell (s : Engine) (r : nat) : bool :=
  match deref s r with
  | Some c => present (Conn.shell c)
  | None => false
  end.

Definition postResize (t : Z) (req : nat) (id : string) (cols rows : number) : M unit :=
  s ← read;
  match map_get id (connections s) with
  | None => sendJson req 404 not_found
  | Some r =>
      if negb (has_shell s r) then sendJson req 404 not_found
      else
        match cols, rows with
        | Finite c, Finite r' =>
            applyResize t r c r';;
            sendJson req 200
              (JObj [("ok", JBool true); ("cols", jint c); ("rows", jint r')])
        | _, _ =>
            sendJson req 400 (JObj [("error", JStr "cols and rows must be numbers")])
        end
  end.

(** One turn of the event loop. *)
Definition step (t : Z) (ev : Event) : M unit :=
  match ev with
  | PostConnections req uuid body => postConnections t req uuid body
  | GetConnections req => s ← read; sendJson req 200 (connectionsSnapshot t s)
  | DeleteConnection req id => deleteConnection t req id
  | PostResize req id cols rows => postResize t req id cols rows
  | GetStream res => handleSse t res
  | StreamClosed res =>
      update (λ s, set_sseClients (set_delete res (sseClients s)) s)
  | SshReady r => onSshReady r
  | SshError r message => onSshError r message
  | SshClose r => upstreamGone t r Closed "SSH closed"
  | ShellOpened r => onShellOpened t r
  | ShellRefused r message => onShellRefused r message
  | StreamData r chunk => onShellData t r chunk
  | StreamClose r => withStream r (λ _, upstreamGone t r Closed "Shell closed")
  | StreamError r => withStream r (λ _, upstreamGone t r Error "Shell error")
  | Upgrade id readOnly => onUpgrade t id readOnly
  | WsMessage w data => withListeners w (λ r readOnly, onMessage t w r readOnly data)
  | WsClosed w =>
      set_readyState w WS_CLOSED;;
      withListeners w (λ r _, cleanup t w r)
  | WsError w => withListeners w (λ r _, cleanup t w r)
  | SweepTick => sweep t
  end.

(** A run: the events of the loop with the clock value of each. *)
Fixpoint run (evs : list (Z * Event)) : M unit :=
  match evs with
  | [] => skip
  | (t, ev) :: rest => step t ev;; run rest
  end.

End Server.

(** ** Vocabulary of the properties *)

(** The sockets after [ws.close()] on each of [ws]. *)
Definition close_all (ws : list nat) (socks : list Socket) : list Socket :=
  fold_left (λ acc w, alter closing w acc) ws socks.

(** The frames one summary makes, one per subscriber, numbered from
    [seq + 1]. *)
Fixpoint sse_frames (seq : Z) (clients : list nat) (event : string) (sm : Summary.t) : list Effect :=
  match clients with
  | [] => []
  | res :: rest =>
      SseFrame res (seq + 1) event sm :: sse_frames (seq + 1) rest event sm
  end.

(** The summary [bumpAndNotify] builds in state [s]. *)
Definition summary_of (t : Z) (reason : Reason) (ids : option (list string)) (s : Engine) : Summary.t :=
  {| Summary.version := connectionsVersion s + 1; Summary.ts := t;
     Summary.reason := reason; Summary.changedIds := ids;
     Summary.counts := computeCounts s |}.

(** The counters after one [bumpAndNotify]. *)
Definition bumped (s : Engine) : Engine :=
  set_sseSeq (sseSeq s + Z.of_nat (length (sseClients s)))
    (set_connectionsVersion (connectionsVersion s + 1) s).

Definition prepend {A : Type} (e : list Effect) (r : A * Engine * list Effect) : A * Engine * list Effect :=
  (r.1.1, r.1.2, e ++ r.2).

(** The summaries published by [bumpAndNotify] among some effects. *)
Definition notifications (effs : list Effect) : list Summary.t :=
  omap (λ e, match e with Notify sm => Some sm | _ => None end) effs.

(** The summary an effect carries, whether built by [bumpAndNotify] or
    written to a subscriber. *)
Definition published (e : Effect) : option Summary.t :=
  match e with
  | Notify sm | SseFrame _ _ _ sm => Some sm
  | _ => None
  end.

(** Number of records of [l] in state [st]. *)
Definition tally (st : ConnectionState) (l : list Conn.t) : Z :=
  Z.of_nat (length (List.filter (λ c, state_eqb (Conn.state c) st) l)).

Definition balanced (k : Counts.t) : Prop :=
  Counts.total k =
  Counts.ready k + Counts.connecting k + Counts.error k + Counts.closed k.

(** Every effect of handler [m] satisfies [Q]. *)
Definition emits {A : Type} (Q : Effect → Prop) (m : M A) : Prop :=
  ∀ s, Forall Q (run_effects m s).

(** Handler [m] keeps the property [I] of the engine state. *)
Definition preserves {A : Type} (I : Engine → Prop) (m : M A) : Prop :=
  ∀ s, I s → I (run_state m s).

Definition balanced_effect (e : Effect) : Prop :=
  ∀ sm, published e = Some sm → balanced (Summary.counts sm).

(** An effect with the password argument of [ssh.connect] blanked. *)
Definition redact (e : Effect) : Effect :=
  match e with
  | SshConnect c h p u _ ki kc rt => SshConnect c h p u EmptyString ki kc rt
  | _ => e
  end.

Definition with_password (pw : string) (b : Params.t) : Params.t :=
  {| Params.host := Params.host b; Params.port := Params.port b;
     Params.username := Params.username b; Params.password := pw;
     Params.cols := Params.cols b; Params.rows := Params.rows b;
     Params.idleTimeoutMs := Params.idleTimeoutMs b |}.

(** Two events that differ at most in the password supplied to
    [POST /connections]. *)
Inductive password_variant : Event → Event → Prop :=
| pv_same ev : password_variant ev ev
| pv_create req uuid b pw pw' :
    pw ≠ EmptyString → pw' ≠ EmptyString →
    password_variant (PostConnections req uuid (with_password pw b))
                     (PostConnections req uuid (with_password pw' b)).

(** The state and the effects of a successful [createConnection]. *)
Definition admitted (cfg : Config) (t : Z) (req : nat) (uuid : string) (p : Params.t) (s : Engine) : Engine :=
  bumped
    (set_connections (map_set uuid (length (heap s)) (connections s))
      (set_heap
        (heap s ++
         [{| conn :=
               {| Conn.id := uuid; Conn.state := Connecting;
                  Conn.createdAt := t; Conn.lastActivityAt := t;
                  Conn.ssh := length (heap s); Conn.shell := None;
                  Conn.clients := [];
                  Conn.cols := or_else (Params.cols p) (Finite 120);
                  Conn.rows := or_else (Params.rows p) (Finite 30);
                  Conn.idleTimeoutMs :=
                    match Params.idleTimeoutMs p with
                    | Some (Finite z) => z
                    | _ => DEFAULT_IDLE_TIMEOUT_MS cfg
                    end;
                  Conn.meta :=
                    {| host := Params.host p;
                       port := or_else (Params.port p) (Finite 22);
                       username := Params.username p |} |};
             pending := AwaitSsh req |}]) s)).

Definition admitted_summary (cfg : Config) (t : Z) (req : nat) (uuid : string) (p : Params.t) (s : Engine) : Summary.t :=
  {| Summary.version := connectionsVersion s + 1; Summary.ts := t;
     Summary.reason := created; Summary.changedIds := Some [uuid];
     Summary.counts := computeCounts (admitted cfg t req uuid p s) |}.

(** The engine after [terminateConnection] on the record [c] at [r]. *)
Definition terminated (r : nat) (c : Conn.t) (s : Engine) : Engine :=
  bumped
    (set_connections (map_delete (Conn.id c) (connections s))
      (set_heap
        (alter (on_conn (Conn.set_clients [])) r
          (alter (on_conn (Conn.set_state Closed)) r (heap s)))
        (set_sockets (close_all (Conn.clients c) (sockets s)) s))).

(** The engine after one of the upstream listeners ([close] of the SSH
    client, [close] and [error] of the shell stream) on [c] at [r]. *)
Definition gone (r : nat) (st : ConnectionState) (c : Conn.t) (s : Engine) : Engine :=
  bumped
    (set_heap
      (alter (on_conn (Conn.set_clients [])) r
        (alter (on_conn (Conn.set_state st)) r (heap s)))
      (set_sockets (close_all (Conn.clients c) (sockets s)) s)).

Definition shell_release (r : nat) (c : Conn.t) : list Effect :=
  match Conn.shell c with
  | Some _ => [ShellClose r]
  | None => []
  end.

(** The states the server can be in: those a run reaches from [initial]. *)
Inductive reachable (cfg : Config) (parse : string → option json) : Engine → Prop :=
| reach_initial : reachable cfg parse initial
| reach_step s t ev :
    reachable cfg parse s → reachable cfg parse (run_state (step cfg parse t ev) s).

(** A record in state [connecting] has no shell stream yet. *)
Definition connecting_without_shell (s : Engine) : Prop :=
  ∀ r c, deref s r = Some c → Conn.state c = Connecting → Conn.shell c = None.

(** The engine after [applyResize] on the record at [r]. *)
Definition resized (r : nat) (cols rows : Z) (s : Engine) : Engine :=
  bumped (set_heap (alter (on_conn (Conn.set_size (Finite cols) (Finite rows))) r (heap s)) s).

Definition window_change (r : nat) (cols rows : Z) (c : Conn.t) : list Effect :=
  match Conn.shell c with
  | Some _ => [ShellSetWindow r (Finite rows) (Finite cols)]
  | None => []
  end.

(** The engine after a successful [attachWebSocket] of socket [w] to the
    record at [r]. *)
Definition attached (t : Z) (w r : nat) (readOnly : bool) (s : Engine) : Engine :=
  let s1 :=
    bumped
      (set_heap
        (alter (on_conn (Conn.set_lastActivityAt t)) r
          (alter (on_conn (λ c, Conn.set_clients (set_add w (Conn.clients c)) c)) r
            (heap s))) s) in
  set_sockets
    (alter (λ so, {| readyState := readyState so; listeners := Some (r, readOnly) |})
       w (sockets s1)) s1.

(** The socket object [handleUpgrade] hands to its callback. *)
Definition fresh_socket : Socket := {| readyState := WS_OPEN; listeners := None |}.

Definition accepted (s : Engine) : Engine :=
  set_sockets (sockets s ++ [fresh_socket]) s.

(** The record at [r] was last active at [t]. *)
Definition active_at (t : Z) (r : nat) (s : Engine) : Prop :=
  Conn.lastActivityAt <$> deref s r = Some t.

(** The registry is consistent: its keys are distinct and each names a
    record that carries this key as its [id]. *)
Definition consistent (s : Engine) : Prop :=
  List.NoDup (map fst (connections s))
  ∧ ∀ id r, In (id, r) (connections s) → ∃ c, deref s r = Some c ∧ Conn.id c = id.

Fixpoint distinct (l : list string) : bool :=
  match l with
  | [] => true
  | x :: rest => negb (existsb (String.eqb x) rest) && distinct rest
  end.

(** [consistent], decided. *)
Definition consistentb (s : Engine) : bool :=
  distinct (map fst (connections s))
  && forallb (λ kv, match deref s kv.2 with
                    | Some c => String.eqb (Conn.id c) kv.1
                    | None => false
                    end) (connections s).

(** The ids the sweeper reported as reaped. *)
Definition reaped (effs : list Effect) : list string :=
  flat_map (λ sm, match Summary.reason sm with
                  | idle_timeout => or_else (Summary.changedIds sm) []
                  | _ => []
                  end) (notifications effs).

(** ** A sample deployment and a sample session *)

Definition demo_cfg : Config :=
  {| BASE_PATH := "/v1/ssh"; DEFAULT_IDLE_TIMEOUT_MS := 600000;
     MAX_CONNECTIONS := 100 |}.

(** The same with room for a single session. *)
Definition single_cfg : Config :=
  {| BASE_PATH := "/v1/ssh"; DEFAULT_IDLE_TIMEOUT_MS := 600000;
     MAX_CONNECTIONS := 1 |}.

Definition quoted (s : string) : string :=
  String "034"%char (s +:+ String "034"%char EmptyString).

(** The frame texts [{"type":"ping"}] and [{"type":"detach"}]. *)
Definition tagged_text (tag : string) : string :=
  "{" +:+ quoted "type" +:+ ":" +:+ quoted tag +:+ "}".

Definition ping_text : string := tagged_text "ping".
Definition detach_text : string := tagged_text "detach".

(** [JSON.parse] on the two texts above (it throws on anything else,
    which is all the samples need). *)
Definition demo_parse (s : string) : option json :=
  if String.eqb s ping_text then Some (JObj [("type", JStr "ping")])
  else if String.eqb s detach_text then Some (JObj [("type", JStr "detach")])
  else None.

Definition demo_body : Params.t :=
  {| Params.host := "h"; Params.port := None; Params.username := "u";
     Params.password := "p"; Params.cols := None; Params.rows := None;
     Params.idleTimeoutMs := None |}.

Definition after (cfg : Config) (evs : list (Z * Event)) : Engine :=
  run_state (run cfg demo_parse evs) initial.

(** Session [X] right after [POST /connections], then with its shell
    open, then with one peer attached (read-write, or read-only), then
    after the shell stream closed under the read-write peer. *)
Definition to_connecting : list (Z * Event) :=
  [(1000, PostConnections 0 "X" demo_body)].

Definition to_ready : list (Z * Event) :=
  to_connecting ++ [(1001, SshReady 0); (1002, ShellOpened 0)].

Definition ex_connecting : Engine := after demo_cfg to_connecting.
Definition ex_opening : Engine := after demo_cfg (to_connecting ++ [(1001, SshReady 0%nat)]).
Definition ex_ready : Engine := after demo_cfg to_ready.
Definition ex_attached : Engine :=
  after demo_cfg (to_ready ++ [(1003, Upgrade "X" false)]).
Definition ex_read_only : Engine :=
  after demo_cfg (to_ready ++ [(1003, Upgrade "X" true)]).
Definition ex_shell_closed : Engine :=
  after demo_cfg (to_ready ++ [(1003, Upgrade "X" false); (1004, StreamClose 0)]).
Definition ex_full : Engine := after single_cfg to_connecting.

Definition ok_resized (cols rows : Z) : json :=
  JObj [("ok", JBool true); ("cols", jint cols); ("rows", jint rows)].

(** ** Vocabulary of the further properties *)

(** Every record of the heap satisfies [P]. *)
Definition every (P : Conn.t → Prop) (s : Engine) : Prop :=
  ∀ r c, deref s r = Some c → P c.

(** What the state of a record says about its handles: while
    [connecting] it has neither shell stream nor peers; while [ready] it
    has a shell stream. *)
Definition shaped (c : Conn.t) : Prop :=
  (Conn.state c = Connecting → Conn.shell c = None ∧ Conn.clients c = [])
  ∧ (Conn.state c = Ready → present (Conn.shell c) = true).

(** The registry holds at most [MAX_CONNECTIONS] entries. *)
Definition within_capacity (cfg : Config) (s : Engine) : Prop :=
  Z.of_nat (length (connections s)) ≤ Z.max 0 (MAX_CONNECTIONS cfg).

(** The numbers of [l] count up from [v + 1]. *)
Fixpoint consecutive (v : Z) (l : list Z) : Prop :=
  match l with
  | [] => True
  | x :: rest => x = v + 1 ∧ consecutive (v + 1) rest
  end.

(** The version a summary is published under by [bumpAndNotify]. *)
Definition version_tick (e : Effect) : option Z :=
  match e with Notify sm => Some (Summary.version sm) | _ => None end.

(** The [id:] a frame is written under by [sseSend]. *)
Definition frame_tick (e : Effect) : option Z :=
  match e with SseFrame _ seq _ _ => Some seq | _ => None end.

(** Handler [m] numbers what it emits (as [tick] reads it) with the
    successive values of [counter], and leaves [counter] at the last. *)
Definition counting (counter : Engine → Z) (tick : Effect → option Z) {A : Type} (m : M A) : Prop :=
  ∀ s,
    consecutive (counter s) (omap tick (run_effects m s))
    ∧ counter (run_state m s)
      = counter s + Z.of_nat (length (omap tick (run_effects m s))).

(** The subscriber a frame is written to. *)
Definition frame_target (e : Effect) : option nat :=
  match e with SseFrame res _ _ _ => Some res | _ => None end.

Definition ok_true : json := JObj [("ok", JBool true)].

(** The engine after [cleanup] of socket [w] on the record at [r]. *)
Definition detached (t : Z) (w r : nat) (s : Engine) : Engine :=
  bumped
    (set_heap
      (alter (on_conn (Conn.set_lastActivityAt t)) r
        (alter (on_conn (λ c, Conn.set_clients (set_delete w (Conn.clients c)) c)) r
          (heap s))) s).

(** The record at [r] once its shell stream is open. *)
Definition opened (t : Z) (r : nat) (c : Conn.t) : Conn.t :=
  Conn.set_lastActivityAt t (Conn.set_state Ready (Conn.set_shell (Some r) c)).

Definition banner_frame : Frame := FrameBuffer (String.list_byte_of_string banner).

Definition control_types : list string := ["resize"; "stdin"; "ping"; "detach"].

(** The frame text [{"type":"stdin","data":"ls"}], and [JSON.parse]
    extended to it. *)
Definition stdin_text : string :=
  "{" +:+ quoted "type" +:+ ":" +:+ quoted "stdin" +:+ ","
      +:+ quoted "data" +:+ ":" +:+ quoted "ls" +:+ "}".

Definition demo_parse_stdin (s : string) : option json :=
  if String.eqb s stdin_text
  then Some (JObj [("type", JStr "stdin"); ("data", JStr "ls")])
  else demo_parse s.

(** ** Paths, origins and the wire format of the event stream *)

(** [s.slice(0, -1)] *)
Fixpoint dropLast (s : string) : string :=
  match s with
  | EmptyString => EmptyString
  | String _ EmptyString => EmptyString
  | String a rest => String a (dropLast rest)
  end.

(** [normalizeBasePath(p)] *)
Definition normalizeBasePath (p : string) : string :=
  if String.eqb p EmptyString then EmptyString
  else
    let p1 := if startsWith "/" p then p else "/" +:+ p in
    if endsWith "/" p1 then dropLast p1 else p1.

(** [s.slice(n)] *)
Fixpoint slice (n : nat) (s : string) : string :=
  match n, s with
  | O, _ => s
  | S n', String _ rest => slice n' rest
  | S _, EmptyString => EmptyString
  end.

(** [s.split(sep)] for a one-character separator. *)
Fixpoint split (sep : ascii) (s : string) : list string :=
  match s with
  | EmptyString => [EmptyString]
  | String a rest =>
      if Ascii.eqb a sep then EmptyString :: split sep rest
      else match split sep rest with
           | x :: xs => String a x :: xs
           | [] => [String a EmptyString]
           end
  end.

(** [parts[i]], [undefined] out of range. *)
Definition at_index (parts : list string) (i : Z) : option string :=
  if i <? 0 then None else nth_error parts (Z.to_nat i).

(** [s.endsWith(suffix)] *)
Definition endsWithString (suffix s : string) : bool :=
  String.eqb (slice (String.length s - String.length suffix) s) suffix
  && Nat.leb (String.length suffix) (String.length s).

(** The id the upgrade handler reads from [url.pathname]; [None] when the
    path is not under [BASE_PATH/ws/] (the socket is destroyed). *)
Definition upgradeTarget (cfg : Config) (pathname : string) : option string :=
  if String.prefix (withBase cfg "/ws/") pathname
  then at_index (split "/" (slice (String.length (withBase cfg "/ws/")) pathname)) 0
  else None.

(** [server.on("upgrade", ...)] from the path and the value of the
    [readOnly] query parameter. *)
Definition onUpgradeRequest (cfg : Config) (t : Z) (pathname : string) (readOnlyParam : option string) : M unit :=
  match upgradeTarget cfg pathname with
  | None => emit SocketDestroy
  | Some id =>
      onUpgrade t id
        match readOnlyParam with
        | Some v => String.eqb v "1"
        | None => false
        end
  end.

(** The id the DELETE route reads from [url.pathname]; [None] when the
    route does not match. *)
Definition deleteTarget (cfg : Config) (pathname : string) : option string :=
  if String.prefix (withBase cfg "/connections/") pathname
  then at_index
         (split "/" (slice (String.length (withBase cfg "/connections/")) pathname)) 0
  else None.

(** The id the resize route reads from [url.pathname]: the last segment
    but one. *)
Definition resizeTarget (cfg : Config) (pathname : string) : option string :=
  if String.prefix (withBase cfg "/connections/") pathname
     && endsWithString "/resize" pathname
  then at_index (split "/" pathname) (Z.of_nat (length (split "/" pathname)) - 2)
  else None.

Fixpoint contains (a : ascii) (s : string) : bool :=
  match s with
  | EmptyString => false
  | String b rest => Ascii.eqb b a || contains a rest
  end.

(** [lines.join(sep)] *)
Fixpoint join (sep : ascii) (lines : list string) : string :=
  match lines with
  | [] => EmptyString
  | [x] => x
  | x :: rest => x +:+ String sep (join sep rest)
  end.

(** [l.endsWith("\r") ? l.slice(0, -1) : l] *)
Definition stripCR (l : string) : string :=
  if endsWith CR l then dropLast l else l.

Definition line (s : string) : string := s +:+ String LF EmptyString.

(** What [sseSend] writes for one frame, a list of chunks: the [id:]
    line, the [event:] line, one [data:] line per line of the payload,
    and the empty line that ends the frame. *)
Definition sseChunks (seq : Z) (event payload : string) : list string :=
  [line ("id: " +:+ show_Z seq); line ("event: " +:+ event)]
  ++ map (λ l, line ("data: " +:+ stripCR l)) (split LF payload)
  ++ [String LF EmptyString].

(** [ALLOWED_ORIGINS], from the environment variable if set. *)
Definition allowedOrigins (env : option string) : list string :=
  List.filter (λ s, negb (String.eqb s EmptyString))
    (map trim (split "," (or_else env "*"))).

Definition includes (x : string) (l : list string) : bool :=
  existsb (String.eqb x) l.

(** [corsHeaders(req)], from the [Origin] header of the request. *)
Definition corsHeaders (allowed : list string) (origin : option string) : list (string * string) :=
  match origin with
  | None => []
  | Some o =>
      if String.eqb o EmptyString then []
      else if includes "*" allowed || includes o allowed then
        [("access-control-allow-origin", o);
         ("access-control-allow-credentials", "true");
         ("access-control-allow-headers", "content-type, authorization");
         ("access-control-allow-methods", "GET,POST,DELETE,OPTIONS")]
      else []
  end.

(** Handler [m] writes nothing to the subscriber [res] and does not
    subscribe it, when it is not subscribed. *)
Definition quiet (res : nat) {A : Type} (m : M A) : Prop :=
  ∀ s, ¬ In res (sseClients s) →
    ¬ In res (sseClients (run_state m s))
    ∧ ∀ e, In e (run_effects m s) → frame_target e ≠ Some res.

(** The events of a run other than the subscription of [res]. *)
Definition not_subscribing (res : nat) (ev : Event) : Prop :=
  match ev with GetStream res' => res' ≠ res | _ => True end.

(** Session [X] deleted while its create request waits for the shell. *)
Definition ex_deleted_opening : Engine :=
  after demo_cfg
    (to_connecting ++ [(1001, SshReady 0%nat); (1002, DeleteConnection 1 "X")]).

(** The record at [r] is in state [st]. *)
Definition in_state (s : Engine) (st : ConnectionState) (r : nat) : bool :=
  match deref s r with
  | Some c => state_eqb (Conn.state c) st
  | None => false
  end.

(** The bucket of the counts [k] for the state [st]. *)
Definition bucket (st : ConnectionState) (k : Counts.t) : Z :=
  match st with
  | Ready => Counts.ready k
  | Connecting => Counts.connecting k
  | Error => Counts.error k
  | Closed => Counts.closed k
  end.

(** Number of entries of the registry whose record is in state [st]. *)
Definition registered_in (s : Engine) (st : ConnectionState) : Z :=
  Z.of_nat (length (List.filter (λ kv, in_state s st kv.2) (connections s))).

(** The frames [{"type":"ping"}] and [{"type":"detach"}] as the listener
    receives them. *)
Definition ping_frame : RawData := Binary (String.list_byte_of_string ping_text).
Definition detach_frame : RawData := Binary (String.list_byte_of_string detach_text).

(** Session [X] closed by its shell stream and still registered, and a
    second session [Y] that is connecting. *)
Definition ex_two : Engine :=
  after demo_cfg
    (to_ready ++ [(1003, StreamClose 0%nat); (1004, PostConnections 1 "Y" demo_body)]).

(** The frame [{"type":"stdin","data":"ls"}] as the listener receives
    it. *)
Definition stdin_frame : RawData := Binary (String.list_byte_of_string stdin_text).

(** An event as the running server sees it: a frame reaches the
    [message] listener as a [Buffer], never as a string. *)
Definition delivered (ev : Event) : bool :=
  match ev with
  | WsMessage _ (Text _) => false
  | _ => true
  end.

Definition http_resize (ev : Event) : bool :=
  match ev with
  | PostResize _ _ _ _ => true
  | _ => false
  end.

Definition is_resize (r : Reason) : bool :=
  match r with resize => true | _ => false end.

(** The calls a control message is answered with: the [pong] frame, the
    close with code 1000, [String(data)] written to the shell, and the
    window change and the summary of [applyResize]. *)
Definition control_effect (e : Effect) : bool :=
  match e with
  | WsSend _ (FrameJson _) => true
  | WsClose _ code _ => code =? 1000
  | ShellWrite _ (StringOf _) => true
  | ShellSetWindow _ _ _ => true
  | Notify sm | SseFrame _ _ _ sm => is_resize (Summary.reason sm)
  | _ => false
  end.

(** Number of occurrences of [a] in [s]. *)
Fixpoint occurrences (a : ascii) (s : string) : nat :=
  match s with
  | EmptyString => O
  | String b rest => ((if Ascii.eqb b a then 1 else 0) + occurrences a rest)%nat
  end.

(** [s] without each carriage return that stands before a line feed or at
    the end. *)
Fixpoint unCR (s : string) : string :=
  match s with
  | EmptyString => EmptyString
  | String a rest =>
      if Ascii.eqb a CR then
        match rest with
        | EmptyString => EmptyString
        | String b _ => if Ascii.eqb b LF then unCR rest else String a (unCR rest)
        end
      else String a (unCR rest)
  end.

(** The text of a [data:] line, read back from the chunk written for
    it. *)
Definition dataLine (chunk : string) : option string :=
  if String.prefix "data: " chunk && endsWith LF chunk
  then Some (dropLast (slice 6 chunk))
  else None.

(** The [data:] lines among the chunks of a frame. *)
Definition dataLines (chunks : list string) : list string := omap dataLine chunks.

(* ==== PROPERTIES ==== *)

(** * Properties *)

(** ** Running handlers *)

Lemma bind_unfold {A B : Type} (m : M A) (k : A → M B) (s : Engine) :
  (m ≫= k) s = prepend (m s).2 (k (m s).1.1 (m s).1.2).
Proof. reflexivity. Qed.

Lemma run_state_bind {A B : Type} (m : M A) (k : A → M B) (s : Engine) :
  run_state (m ≫= k) s = run_state (k (m s).1.1) (run_state m s).
Proof. reflexivity. Qed.

Lemma run_effects_bind {A B : Type} (m : M A) (k : A → M B) (s : Engine) :
  run_effects (m ≫= k) s = run_effects m s ++ run_effects (k (m s).1.1) (run_state m s).
Proof. reflexivity. Qed.

Lemma engine_eta (s : Engine) :
  {| heap := heap s; sockets := sockets s; connections := connections s;
     connectionsVersion := connectionsVersion s; sseClients := sseClients s;
     sseSeq := sseSeq s |} = s.
Proof. by destruct s. Qed.

Lemma forEach_close ws code why s :
  forEach ws (λ w, safeCloseWs w code why) s =
  (tt, set_sockets (close_all ws (sockets s)) s, map (λ w, WsClose w code why) ws).
Proof.
  revert s. induction ws as [|w ws IH]; intros s.
  - cbn. unfold skip, ret, set_sockets. by rewrite engine_eta.
  - cbn [forEach]. rewrite bind_unfold, IH. reflexivity.
Qed.

Lemma sseSend_eq res ev sm s :
  sseSend res ev sm s =
  (tt, set_sseSeq (sseSeq s + 1) s, [SseFrame res (sseSeq s + 1) ev sm]).
Proof. reflexivity. Qed.

Lemma forEach_sseSend l ev sm s :
  forEach l (λ res, sseSend res ev sm) s =
  (tt, set_sseSeq (sseSeq s + Z.of_nat (length l)) s, sse_frames (sseSeq s) l ev sm).
Proof.
  revert s. induction l as [|x l IH]; intros s.
  - cbn. unfold skip, ret, set_sseSeq. rewrite Z.add_0_r. by rewrite engine_eta.
  - cbn [forEach]. rewrite bind_unfold, IH, sseSend_eq.
    unfold prepend, set_sseSeq; cbn. do 3 f_equal. lia.
Qed.

Lemma bump_eq t reason ids s :
  bumpAndNotify t reason ids s =
  (tt, bumped s,
   Notify (summary_of t reason ids s)
   :: sse_frames (sseSeq s) (sseClients s) "connections" (summary_of t reason ids s)).
Proof.
  unfold bumpAndNotify. rewrite !bind_unfold. cbn [update read emit fst snd].
  rewrite forEach_sseSend. reflexivity.
Qed.

Lemma withConn_some r body s c :
  deref s r = Some c → withConn r body s = body c s.
Proof.
  intros H. unfold withConn. rewrite bind_unfold. cbn [read fst snd]. rewrite H.
  by destruct (body c s) as [[[] ?] ?].
Qed.

Lemma withConn_none r body s :
  deref s r = None → withConn r body s = (tt, s, []).
Proof.
  intros H. unfold withConn. rewrite bind_unfold. cbn [read fst snd]. by rewrite H.
Qed.

Lemma lookup_on_conn f r (h : list Cell) r' :
  conn <$> alter (on_conn f) r h !! r' =
  if decide (r = r') then f <$> (conn <$> h !! r') else conn <$> h !! r'.
Proof.
  case_decide as E.
  - subst. rewrite list_lookup_alter_eq. by destruct (h !! r').
  - by rewrite list_lookup_alter_ne.
Qed.

Lemma deref_alter s r f r' :
  deref (set_heap (alter (on_conn f) r (heap s)) s) r' =
  if decide (r = r') then f <$> deref s r' else deref s r'.
Proof.
  unfold deref. cbn. case_decide as E.
  - subst. rewrite list_lookup_alter_eq. by destruct (heap s !! r').
  - by rewrite list_lookup_alter_ne.
Qed.

(** ** Effects of composed handlers *)

Section Emits.
Context (Q : Effect → Prop).

Lemma emits_ret {A : Type} (a : A) : emits Q (mret a).
Proof. intros s. constructor. Qed.

Lemma emits_skip : emits Q skip.
Proof. intros s. constructor. Qed.

Lemma emits_read : emits Q read.
Proof. intros s. constructor. Qed.

Lemma emits_update f : emits Q (update f).
Proof. intros s. constructor. Qed.

Lemma emits_emit e : Q e → emits Q (emit e).
Proof. intros H s. by repeat constructor. Qed.

Lemma emits_bind {A B : Type} (m : M A) (k : A → M B) :
  emits Q m → (∀ a, emits Q (k a)) → emits Q (m ≫= k).
Proof.
  intros Hm Hk s. rewrite run_effects_bind. apply Forall_app. split; [apply Hm | apply Hk].
Qed.

Lemma emits_forEach {A : Type} (l : list A) (body : A → M unit) :
  (∀ x, emits Q (body x)) → emits Q (forEach l body).
Proof.
  intros H. induction l as [|x l IH]; cbn [forEach].
  - apply emits_skip.
  - apply emits_bind; [apply H | intros _; apply IH].
Qed.

Lemma emits_withConn r body : (∀ c, emits Q (body c)) → emits Q (withConn r body).
Proof.
  intros H. unfold withConn. apply emits_bind; [apply emits_read |].
  intros s. destruct (deref s r); [apply H | apply emits_skip].
Qed.

End Emits.

(** ** Counts *)

Lemma fold_count_one l acc :
  fold_left count_one l acc =
  {| Counts.total := Counts.total acc + Z.of_nat (length l);
     Counts.ready := Counts.ready acc + tally Ready l;
     Counts.connecting := Counts.connecting acc + tally Connecting l;
     Counts.error := Counts.error acc + tally Error l;
     Counts.closed := Counts.closed acc + tally Closed l |}.
Proof.
  revert acc. induction l as [|c l IH]; intros acc.
  - destruct acc. unfold tally. cbn. f_equal; lia.
  - cbn [fold_left]. rewrite IH. unfold count_one, tally. cbn [List.filter].
    destruct (Conn.state c); cbn; f_equal; lia.
Qed.

Lemma tally_partition l :
  Z.of_nat (length l) = tally Ready l + tally Connecting l + tally Error l + tally Closed l.
Proof.
  unfold tally. induction l as [|c l IH]; [reflexivity |].
  cbn [List.filter length]. destruct (Conn.state c); cbn [state_eqb length]; lia.
Qed.

Lemma computeCounts_eq s :
  computeCounts s =
  {| Counts.total := Z.of_nat (length (values s));
     Counts.ready := tally Ready (values s);
     Counts.connecting := tally Connecting (values s);
     Counts.error := tally Error (values s);
     Counts.closed := tally Closed (values s) |}.
Proof. unfold computeCounts. by rewrite fold_count_one. Qed.

Lemma computeCounts_balanced s : balanced (computeCounts s).
Proof. rewrite computeCounts_eq. unfold balanced. cbn. apply tally_partition. Qed.

Lemma sse_frames_balanced seq l ev sm :
  balanced (Summary.counts sm) → Forall balanced_effect (sse_frames seq l ev sm).
Proof.
  intros H. revert seq. induction l as [|x l IH]; intros seq; cbn; constructor; [|apply IH].
  intros sm' [= <-]. exact H.
Qed.

Lemma emits_bump t reason ids : emits balanced_effect (bumpAndNotify t reason ids).
Proof.
  intros s. unfold run_effects. rewrite bump_eq. cbn [snd].
  pose proof (computeCounts_balanced s) as Hb. constructor.
  - intros sm [= <-]. exact Hb.
  - by apply sse_frames_balanced.
Qed.

Lemma silent_balanced e : published e = None → balanced_effect e.
Proof. intros H sm. by rewrite H. Qed.

Ltac head_of t :=
  lazymatch t with
  | ?f _ => head_of f
  | _ => t
  end.

Ltac emits_go :=
  repeat lazymatch goal with
  | |- emits _ (bumpAndNotify _ _ _) => apply emits_bump
  | |- emits _ (_ ≫= _) => apply emits_bind; [| intros ?]
  | |- emits _ (mret _) => apply emits_ret
  | |- emits _ skip => apply emits_skip
  | |- emits _ read => apply emits_read
  | |- emits _ (update _) => apply emits_update
  | |- emits _ (forEach _ _) => apply emits_forEach; intros ?
  | |- emits _ (withConn _ _) => apply emits_withConn; intros ?
  | |- emits _ (emit _) =>
      apply emits_emit; first [apply silent_balanced; reflexivity | idtac]
  | |- emits _ (match ?x with _ => _ end) => destruct x
  | |- emits _ ?m => let h := head_of m in unfold h
  end.

Lemma emits_step cfg parse t ev : emits balanced_effect (step cfg parse t ev).
Proof.
  destruct ev; cbn [step].
  all: emits_go.
  (* GET /connections/stream: the first frame carries the current counts *)
  intros sm [= <-]. apply computeCounts_balanced.
Qed.

Lemma emits_run cfg parse evs : emits balanced_effect (run cfg parse evs).
Proof.
  induction evs as [|[t ev] evs IH]; cbn [run].
  - apply emits_skip.
  - apply emits_bind; [apply emits_step | intros _; apply IH].
Qed.

Lemma tally_registered s st l :
  tally st (omap (λ kv : string * nat, deref s kv.2) l)
  = Z.of_nat (length (List.filter (λ kv, in_state s st kv.2) l)).
Proof.
  unfold tally, in_state. induction l as [|kv l IH]; [reflexivity |].
  cbn in IH |- *. destruct (deref s kv.2) as [c|]; [| exact IH].
  cbn. destruct (state_eqb (Conn.state c) st); cbn [length]; lia.
Qed.

Lemma values_length s :
  consistent s → length (values s) = length (connections s).
Proof.
  intros [_ Hc]. unfold values.
  assert (∀ kv, In kv (connections s) → is_Some (deref s kv.2)) as H.
  { intros [id r] Hin. destruct (Hc id r Hin) as (c & Hd & _). by exists c. }
  clear Hc. induction (connections s) as [|kv l IH]; [reflexivity |].
  cbn in IH |- *. destruct (H kv) as [c ->]; [by left |].
  cbn. f_equal. apply IH. intros kv' Hin. apply H. by right.
Qed.

Lemma state_eqb_eq a b : state_eqb a b = true ↔ a = b.
Proof. destruct a, b; cbn; split; congruence. Qed.

Lemma published_sse_frames seq l ev sm e sm' :
  In e (sse_frames seq l ev sm) → published e = Some sm' → sm' = sm.
Proof.
  revert seq. induction l as [|x l IH]; intros seq; cbn [sse_frames]; [by intros [] |].
  intros [<- | Hin]; [by intros [= <-] | by apply (IH (seq + 1))].
Qed.

(** C10.  [computeCounts] goes once through the registry and puts each
    record in exactly one bucket, [closed] being the bucket of every
    state other than the first three: each bucket is the number of
    registered sessions in that state, the total is the number of
    registered sessions, and [total = ready + connecting + error +
    closed].  Every summary [bumpAndNotify] publishes, and the first
    frame of an event stream, carries the counts of the registry at that
    moment; every summary published in a run is balanced. *)
Theorem counts_partition :
  (∀ s : Engine,
     computeCounts s =
     {| Counts.total := Z.of_nat (length (values s));
        Counts.ready := tally Ready (values s);
        Counts.connecting := tally Connecting (values s);
        Counts.error := tally Error (values s);
        Counts.closed := tally Closed (values s) |}
     ∧ Z.of_nat (length (values s)) =
       tally Ready (values s) + tally Connecting (values s)
       + tally Error (values s) + tally Closed (values s))
  ∧ (∀ (s : Engine) (st : ConnectionState),
       bucket st (computeCounts s) = registered_in s st)
  ∧ (∀ s : Engine,
       consistent s →
       Counts.total (computeCounts s) = Z.of_nat (length (connections s))
       ∧ Z.of_nat (length (connections s))
         = registered_in s Ready + registered_in s Connecting
           + registered_in s Error + registered_in s Closed
       ∧ ∀ id r, In (id, r) (connections s) →
           ∃ st, in_state s st r = true ∧ ∀ st', in_state s st' r = true → st' = st)
  ∧ (∀ (s : Engine) (t : Z) (reason : Reason) (ids : option (list string))
       (e : Effect) (sm : Summary.t),
       In e (run_effects (bumpAndNotify t reason ids) s) →
       published e = Some sm → Summary.counts sm = computeCounts s)
  ∧ (∀ (s : Engine) (t : Z) (res : nat) (e : Effect) (sm : Summary.t),
       In e (run_effects (handleSse t res) s) →
       published e = Some sm → Summary.counts sm = computeCounts s)
  ∧ (∀ (cfg : Config) (parse : string → option json) (evs : list (Z * Event))
       (s : Engine),
       Forall (λ e, ∀ sm, published e = Some sm →
                 let k := Summary.counts sm in
                 Counts.total k =
                 Counts.ready k + Counts.connecting k + Counts.error k
                 + Counts.closed k)
         (run_effects (run cfg parse evs) s)).
Proof.
  assert (∀ s st, bucket st (computeCounts s) = registered_in s st) as Hbucket.
  { intros s st. rewrite computeCounts_eq. unfold registered_in, values.
    destruct st; cbn [bucket Counts.ready Counts.connecting Counts.error Counts.closed];
      apply tally_registered. }
  split; [| split; [| split; [| split; [| split]]]].
  - intros s. split; [apply computeCounts_eq | apply tally_partition].
  - exact Hbucket.
  - intros s Hs. pose proof (values_length s Hs) as Hlen.
    assert (Counts.total (computeCounts s) = Z.of_nat (length (connections s))) as Htot.
    { rewrite computeCounts_eq. cbn [Counts.total]. by rewrite Hlen. }
    split; [exact Htot |]. split.
    + rewrite <- !Hbucket, <- Htot. apply computeCounts_balanced.
    + intros id r Hin. destruct Hs as [_ Hc].
      destruct (Hc id r Hin) as (c & Hd & _). exists (Conn.state c).
      unfold in_state. rewrite Hd. split.
      * by apply state_eqb_eq.
      * intros st' H. symmetry. by apply state_eqb_eq.
  - intros s t reason ids e sm. unfold run_effects. rewrite bump_eq. cbn [snd].
    intros [<- | Hin] Hp.
    + by injection Hp as <-.
    + by rewrite (published_sse_frames _ _ _ _ _ _ Hin Hp).
  - intros s t res e sm. unfold run_effects. cbn.
    intros [<- | [<- | []]]; [discriminate |]. by intros [= <-].
  - intros cfg parse evs s. apply (emits_run cfg parse evs s).
Qed.

(** ** Admission *)

Lemma computeCounts_ext s s' :
  heap s = heap s' → connections s = connections s' →
  computeCounts s = computeCounts s'.
Proof. intros H1 H2. unfold computeCounts, values, deref. by rewrite H1, H2. Qed.

Lemma createConnection_full cfg t req uuid p s :
  MAX_CONNECTIONS cfg ≤ Z.of_nat (length (connections s)) →
  createConnection cfg t req uuid p s = (Some "MAX_CONNECTIONS exceeded", s, []).
Proof.
  intros H. unfold createConnection. rewrite bind_unfold. cbn [read fst snd].
  destruct (Z.geb_spec (Z.of_nat (length (connections s))) (MAX_CONNECTIONS cfg)); [| lia].
  reflexivity.
Qed.

Lemma createConnection_admitted cfg t req uuid p s :
  Z.of_nat (length (connections s)) < MAX_CONNECTIONS cfg →
  createConnection cfg t req uuid p s =
  (None, admitted cfg t req uuid p s,
   Notify (admitted_summary cfg t req uuid p s)
   :: sse_frames (sseSeq s) (sseClients s) "connections"
        (admitted_summary cfg t req uuid p s)
   ++ [SshConnect (length (heap s)) (Params.host p)
         (or_else (Params.port p) (Finite 22))
         (Params.username p) (Params.password p) 15000 3 20000]).
Proof.
  intros H. unfold createConnection. rewrite bind_unfold. cbn [read fst snd].
  destruct (Z.geb_spec (Z.of_nat (length (connections s))) (MAX_CONNECTIONS cfg)); [lia |].
  rewrite !bind_unfold. cbn [update fst snd]. rewrite bump_eq.
  reflexivity.
Qed.

Lemma eqb_empty_false s : s ≠ EmptyString → String.eqb s EmptyString = false.
Proof. intros H. by apply String.eqb_neq. Qed.

Lemma postConnections_full cfg t req uuid body s :
  Params.host body ≠ EmptyString → Params.username body ≠ EmptyString →
  Params.password body ≠ EmptyString →
  MAX_CONNECTIONS cfg ≤ Z.of_nat (length (connections s)) →
  postConnections cfg t req uuid body s =
  (tt, s, [HttpResponse req 500 (internal_error "MAX_CONNECTIONS exceeded")]).
Proof.
  intros Hh Hu Hp Hfull. unfold postConnections.
  rewrite !eqb_empty_false by done. cbn [orb].
  rewrite bind_unfold, createConnection_full by done. reflexivity.
Qed.

Lemma postConnections_admitted cfg t req uuid body s :
  Params.host body ≠ EmptyString → Params.username body ≠ EmptyString →
  Params.password body ≠ EmptyString →
  Z.of_nat (length (connections s)) < MAX_CONNECTIONS cfg →
  postConnections cfg t req uuid body s =
  (tt, admitted cfg t req uuid body s,
   Notify (admitted_summary cfg t req uuid body s)
   :: sse_frames (sseSeq s) (sseClients s) "connections"
        (admitted_summary cfg t req uuid body s)
   ++ [SshConnect (length (heap s)) (Params.host body)
         (or_else (Params.port body) (Finite 22))
         (Params.username body) (Params.password body) 15000 3 20000]).
Proof.
  intros Hh Hu Hp Hroom. unfold postConnections.
  rewrite !eqb_empty_false by done. cbn [orb].
  rewrite bind_unfold, createConnection_admitted by done.
  unfold prepend. cbn [fst snd skip ret]. by rewrite app_nil_r.
Qed.

Lemma postConnections_missing cfg t req uuid body s :
  Params.host body = EmptyString ∨ Params.username body = EmptyString →
  postConnections cfg t req uuid body s =
  (tt, s, [HttpResponse req 400
             (JObj [("error", JStr "host, username, password are required")])]).
Proof.
  intros H. unfold postConnections.
  destruct H as [-> | ->]; cbn [String.eqb orb]; [reflexivity |].
  by rewrite orb_true_r.
Qed.

(** ** The password *)

Lemma redact_sse_frames seq l ev sm :
  map redact (sse_frames seq l ev sm) = sse_frames seq l ev sm.
Proof.
  revert seq. induction l as [|x l IH]; intros seq; cbn; [done |]. by rewrite IH.
Qed.

Lemma step_password_variant cfg parse t ev ev' s :
  password_variant ev ev' →
  run_state (step cfg parse t ev) s = run_state (step cfg parse t ev') s
  ∧ map redact (run_effects (step cfg parse t ev) s)
    = map redact (run_effects (step cfg parse t ev') s).
Proof.
  intros [ev0 | req uuid b pw pw' Hpw Hpw']; [done |].
  unfold run_state, run_effects. cbn [step].
  destruct (String.eqb_spec (Params.host b) EmptyString) as [Hh | Hh];
    [by rewrite !postConnections_missing by (by left) |].
  destruct (String.eqb_spec (Params.username b) EmptyString) as [Hu | Hu];
    [by rewrite !postConnections_missing by (by right) |].
  destruct (Z.lt_ge_cases (Z.of_nat (length (connections s))) (MAX_CONNECTIONS cfg)).
  - rewrite !postConnections_admitted by done. cbn [fst snd]. split; [reflexivity |].
    cbn [map]. rewrite !map_app, !redact_sse_frames. reflexivity.
  - by rewrite !postConnections_full by done.
Qed.

Lemma run_password_variant cfg parse evs evs' :
  Forall2 (λ x y, x.1 = y.1 ∧ password_variant x.2 y.2) evs evs' →
  ∀ s,
    run_state (run cfg parse evs) s = run_state (run cfg parse evs') s
    ∧ map redact (run_effects (run cfg parse evs) s)
      = map redact (run_effects (run cfg parse evs') s).
Proof.
  induction 1 as [| [t ev] [t' ev'] evs evs' [Ht Hev] _ IH]; intros s; [done |].
  cbn in Ht; subst t'. cbn [run snd] in *.
  rewrite !run_state_bind, !run_effects_bind, !map_app.
  destruct (step_password_variant cfg parse t ev ev' s Hev) as [Hs He].
  fold (run_state (step cfg parse t ev) s) in *.
  rewrite Hs, He. destruct (IH (run_state (step cfg parse t ev') s)) as [IHs IHe].
  by rewrite IHs, IHe.
Qed.

(** C9.  Two runs of the server on the same events, which differ only in
    the passwords supplied to [POST /connections], end in the same engine
    state and make the same calls on the outside world (every HTTP answer,
    so every snapshot and every create response, and every summary), but
    for the password argument of [ssh.connect].  The views of a snapshot
    and the create response have fixed fields, and [meta] holds [host],
    [port] and [username] only. *)
Theorem password_not_observable :
  (∀ (cfg : Config) (parse : string → option json)
     (evs evs' : list (Z * Event)) (s : Engine),
     Forall2 (λ x y, x.1 = y.1 ∧ password_variant x.2 y.2) evs evs' →
     run_state (run cfg parse evs) s = run_state (run cfg parse evs') s
     ∧ map redact (run_effects (run cfg parse evs) s)
       = map redact (run_effects (run cfg parse evs') s))
  ∧ (∀ (cfg : Config) (s : Engine) (c : Conn.t),
       keys (view s c) =
         ["id"; "state"; "createdAt"; "lastActivityAt"; "idleTimeoutMs";
          "attachedClients"; "meta"]
       ∧ keys (created_json cfg c) =
         ["id"; "state"; "createdAt"; "lastActivityAt"; "idleTimeoutMs";
          "wsPath"; "meta"]
       ∧ get "meta" (view s c) = Some (meta_json (Conn.meta c))
       ∧ get "meta" (created_json cfg c) = Some (meta_json (Conn.meta c))
       ∧ keys (meta_json (Conn.meta c)) = ["host"; "port"; "username"]).
Proof.
  split.
  - intros cfg parse evs evs' s H. by apply run_password_variant.
  - intros cfg s c. repeat split.
Qed.

(** ** Teardown *)

Lemma deref_pending s r p r' :
  deref (set_heap (alter (λ x, {| conn := conn x; pending := p |}) r (heap s)) s) r'
  = deref s r'.
Proof.
  unfold deref. cbn. destruct (decide (r = r')) as [-> | E].
  - rewrite list_lookup_alter_eq. by destruct (heap s !! r').
  - by rewrite list_lookup_alter_ne.
Qed.

Lemma terminateConnection_eq t r why reason s c :
  deref s r = Some c →
  terminateConnection t r why reason s =
  (tt, terminated r c s,
   map (λ w, WsClose w 1001 why) (Conn.clients c)
   ++ shell_release r c ++ [SshEnd r]
   ++ Notify (summary_of t reason (Some [Conn.id c])
        (set_connections (map_delete (Conn.id c) (connections s))
          (set_heap
            (alter (on_conn (Conn.set_clients [])) r
              (alter (on_conn (Conn.set_state Closed)) r (heap s))) s)))
   :: sse_frames (sseSeq s) (sseClients s) "connections"
        (summary_of t reason (Some [Conn.id c])
          (set_connections (map_delete (Conn.id c) (connections s))
            (set_heap
              (alter (on_conn (Conn.set_clients [])) r
                (alter (on_conn (Conn.set_state Closed)) r (heap s))) s)))).
Proof.
  intros H. unfold terminateConnection.
  rewrite bind_unfold. cbn [mutate update fst snd].
  erewrite withConn_some
    by (rewrite deref_alter, decide_True by done; rewrite H; reflexivity).
  rewrite bind_unfold, forEach_close. cbn [fst snd].
  rewrite !bind_unfold. cbn [mutate update emit fst snd].
  unfold shell_release. cbn [Conn.shell Conn.set_state Conn.clients Conn.id].
  destruct (Conn.shell c); cbn [emit skip ret fst snd]; rewrite bump_eq; reflexivity.
Qed.

Lemma upstreamGone_eq t r st why s c :
  deref s r = Some c →
  upstreamGone t r st why s =
  (tt, gone r st c s,
   map (λ w, WsClose w 1011 why) (Conn.clients c)
   ++ Notify (summary_of t state_changed (Some [Conn.id c])
        (set_heap
          (alter (on_conn (Conn.set_clients [])) r
            (alter (on_conn (Conn.set_state st)) r (heap s))) s))
   :: sse_frames (sseSeq s) (sseClients s) "connections"
        (summary_of t state_changed (Some [Conn.id c])
          (set_heap
            (alter (on_conn (Conn.set_clients [])) r
              (alter (on_conn (Conn.set_state st)) r (heap s))) s))).
Proof.
  intros H. unfold upstreamGone.
  rewrite bind_unfold. cbn [mutate update fst snd].
  erewrite withConn_some
    by (rewrite deref_alter, decide_True by done; rewrite H; reflexivity).
  rewrite bind_unfold, forEach_close. cbn [fst snd].
  rewrite !bind_unfold. cbn [mutate update emit fst snd].
  rewrite bump_eq. reflexivity.
Qed.

Lemma withStream_some r body s c sh :
  deref s r = Some c → Conn.shell c = Some sh → withStream r body s = body c s.
Proof.
  intros H Hsh. unfold withStream. rewrite (withConn_some _ _ _ _ H). by rewrite Hsh.
Qed.

Lemma withStream_none r body s c :
  deref s r = Some c → Conn.shell c = None → withStream r body s = (tt, s, []).
Proof.
  intros H Hsh. unfold withStream. rewrite (withConn_some _ _ _ _ H). by rewrite Hsh.
Qed.

Lemma deref_terminated r c s :
  deref s r = Some c →
  deref (terminated r c s) r = Some (Conn.set_clients [] (Conn.set_state Closed c)).
Proof.
  intros H. unfold deref in *. cbn.
  rewrite !list_lookup_alter_eq. destruct (heap s !! r) as [x|]; [| done].
  cbn in *. by injection H as ->.
Qed.


Lemma map_get_delete k m : map_get k (map_delete k m) = None.
Proof.
  induction m as [|[k' v] m IH]; [done |]. cbn.
  destruct (String.eqb_spec k' k) as [-> | Hne]; [done |].
  cbn. by rewrite (proj2 (String.eqb_neq k' k) Hne).
Qed.

Lemma notifications_app e1 e2 :
  notifications (e1 ++ e2) = notifications e1 ++ notifications e2.
Proof. unfold notifications. apply omap_app. Qed.

Lemma notifications_closes (f : nat → Effect) ws :
  (∀ w, match f w with Notify _ => False | _ => True end) →
  notifications (map f ws) = [].
Proof.
  intros Hf. induction ws as [|w ws IH]; [done |]. cbn.
  specialize (Hf w). by destruct (f w).
Qed.

Lemma notifications_sse_frames seq l ev sm : notifications (sse_frames seq l ev sm) = [].
Proof. revert seq. induction l as [|x l IH]; intros seq; [done |]. cbn. apply IH. Qed.

Lemma In_sse_frames e seq l ev sm :
  In e (sse_frames seq l ev sm) → ∃ res n, e = SseFrame res n ev sm.
Proof.
  revert seq. induction l as [|x l IH]; intros seq; cbn; [done |].
  intros [<- | H]; eauto.
Qed.

Lemma closing_idem so : closing (closing so) = closing so.
Proof. by destruct so as [[] ?]. Qed.

Lemma closing_not_open so : is_open (readyState (closing so)) = false.
Proof. by destruct so as [[] ?]. Qed.

Lemma close_all_lookup ws socks w :
  close_all ws socks !! w =
  if decide (w ∈ ws) then closing <$> socks !! w else socks !! w.
Proof.
  revert socks. induction ws as [|x ws IH]; intros socks; [done |].
  unfold close_all in *. cbn [fold_left]. rewrite IH.
  destruct (decide (x = w)) as [-> | Hne].
  - rewrite list_lookup_alter_eq, (decide_True (P := w ∈ w :: ws)) by left.
    destruct (socks !! w) as [so|]; cbn -[closing]; [| by case_decide].
    case_decide; by rewrite ?closing_idem.
  - rewrite list_lookup_alter_ne by done.
    destruct (decide (w ∈ ws)) as [Hin | Hout].
    + by rewrite decide_True by (by right).
    + rewrite decide_False; [done |]. by intros [-> | ?]%elem_of_cons.
Qed.


Lemma socket_open_close_all s socks ws w :
  sockets s = close_all ws socks →
  (∀ so, socks !! w = Some so → In w ws → is_open (readyState so) = false) →
  socket_open s w = match socks !! w with
                    | Some so => is_open (readyState so)
                    | None => false
                    end.
Proof.
  intros Hs Hidle. unfold socket_open. rewrite Hs, close_all_lookup.
  case_decide as Hin; [| done].
  destruct (socks !! w) as [so|]; cbn -[closing]; [| done].
  rewrite closing_not_open. symmetry. apply Hidle; [done |]. by apply list_elem_of_In.
Qed.

Lemma step_delete cfg parse t req id s r c :
  map_get id (connections s) = Some r → deref s r = Some c →
  step cfg parse t (DeleteConnection req id) s =
  (tt, terminated r c s,
   run_effects (terminateConnection t r "Deleted" deleted) s
   ++ [HttpResponse req 200 (JObj [("ok", JBool true)])]).
Proof.
  intros Hget Hc. cbn [step]. unfold deleteConnection, run_effects.
  rewrite bind_unfold. cbn [read fst snd]. rewrite Hget.
  rewrite bind_unfold, (terminateConnection_eq _ _ _ _ _ _ Hc). reflexivity.
Qed.

Lemma step_delete_unknown cfg parse t req id s :
  map_get id (connections s) = None →
  step cfg parse t (DeleteConnection req id) s = (tt, s, [HttpResponse req 404 not_found]).
Proof.
  intros Hget. cbn [step]. unfold deleteConnection.
  rewrite bind_unfold. cbn [read fst snd]. by rewrite Hget.
Qed.



(** ** Failures while connecting *)

Lemma onSshError_eq r message s req :
  pending_of s r = AwaitSsh req →
  onSshError r message s =
  (tt, set_heap (alter (λ x, {| conn := conn x; pending := Settled |}) r (heap s)) s,
   [HttpResponse req 500 (internal_error message)]).
Proof.
  intros H. unfold onSshError. rewrite bind_unfold. cbn [read fst snd]. by rewrite H.
Qed.

Lemma onShellRefused_eq r message s req :
  pending_of s r = AwaitShell req →
  onShellRefused r message s =
  (tt, set_heap (alter (λ x, {| conn := conn x; pending := Settled |}) r (heap s)) s,
   [HttpResponse req 500 (internal_error message)]).
Proof.
  intros H. unfold onShellRefused. rewrite bind_unfold. cbn [read fst snd]. by rewrite H.
Qed.

Lemma pending_of_settled s r c :
  deref s r = Some c →
  pending_of
    (set_heap (alter (λ x, {| conn := conn x; pending := Settled |}) r (heap s)) s) r
  = Settled.
Proof.
  unfold deref, pending_of. cbn. rewrite list_lookup_alter_eq.
  by destruct (heap s !! r).
Qed.

(** C2.  What the code does when connecting fails.  The [error] event of
    the SSH client, and an error passed to the callback of [ssh.shell],
    reject the promise [createConnection] awaits: the waiting request,
    and no other, is answered 500 with the message as [detail].  The
    session is not removed from the registry: not by the failure, and
    not by the [close] event with which the SSH client ends a failed
    connect, which answers no request either. *)
Theorem connect_failure_answers_500 :
  ∀ (cfg : Config) (parse : string → option json) (s : Engine) (t : Z)
    (r : nat) (c : Conn.t) (message : string),
    deref s r = Some c → Conn.state c = Connecting →
    (∀ req, pending_of s r = AwaitSsh req →
       let out := step cfg parse t (SshError r message) s in
       (∀ req' status body,
          In (HttpResponse req' status body) out.2 ↔
          req' = req ∧ status = 500 ∧ body = internal_error message)
       ∧ pending_of out.1.2 r = Settled
       ∧ connections out.1.2 = connections s
       ∧ ∀ t',
           let closed := step cfg parse t' (SshClose r) out.1.2 in
           connections closed.1.2 = connections s
           ∧ ∀ req' status body, ¬ In (HttpResponse req' status body) closed.2)
    ∧ (∀ req, pending_of s r = AwaitShell req →
         let out := step cfg parse t (ShellRefused r message) s in
         (∀ req' status body,
            In (HttpResponse req' status body) out.2 ↔
            req' = req ∧ status = 500 ∧ body = internal_error message)
         ∧ pending_of out.1.2 r = Settled
         ∧ connections out.1.2 = connections s
         ∧ ∀ t',
             let closed := step cfg parse t' (SshClose r) out.1.2 in
             connections closed.1.2 = connections s
             ∧ ∀ req' status body, ¬ In (HttpResponse req' status body) closed.2).
Proof.
  intros cfg parse s t r c message Hc Hst.
  assert (∀ s1 t', deref s1 r = Some c →
            connections (upstreamGone t' r Closed "SSH closed" s1).1.2 = connections s1
            ∧ ∀ req' status body,
                ¬ In (HttpResponse req' status body)
                    (upstreamGone t' r Closed "SSH closed" s1).2)
    as Hclose.
  { intros s1 t' H1. rewrite (upstreamGone_eq _ _ _ _ _ _ H1). cbn [fst snd].
    split; [done |].
    intros req' status body
      [(w & [=] & _)%in_map_iff | [[=] | (? & ? & [=])%In_sse_frames]]%in_app_or. }
  split; intros req Hp; cbn zeta; cbn [step];
    rewrite ?(onSshError_eq _ _ _ _ Hp), ?(onShellRefused_eq _ _ _ _ Hp); cbn [fst snd].
  all: split;
    [ intros req' status body; split;
      [ by intros [[= -> -> ->] | []] | intros (-> & -> & ->); by left ]
    | split; [by eapply pending_of_settled | split; [done |]] ].
  all: intros t';
    match goal with
    | |- context [upstreamGone ?t1 _ _ _ ?s1] =>
        destruct (Hclose s1 t1) as [H1 H2];
        [by rewrite deref_pending | split; [exact H1 | exact H2]]
    end.
Qed.

(** ** Frames from a peer *)

Lemma withListeners_some w body s so r readOnly :
  sockets s !! w = Some so → listeners so = Some (r, readOnly) →
  withListeners w body s = body r readOnly s.
Proof.
  intros Hw Hl. unfold withListeners. rewrite bind_unfold. cbn [read fst snd].
  rewrite Hw, Hl. by destruct (body r readOnly s) as [[[] ?] ?].
Qed.

Lemma onMessage_readOnly parse t w r data s :
  onMessage parse t w r true data s = (tt, run_state (touch t r) s, []).
Proof. reflexivity. Qed.

(** C3.  What the code does with the frames of a read-only peer.  The
    [message] listener returns right after [touch(conn)] when the peer is
    read-only, before the frame is looked at: no frame of such a peer,
    [ping] and [detach] included, has any effect but on [lastActivityAt].
    No pong is sent, the peer is not closed, and nothing reaches the
    shell. *)
Theorem read_only_frames_only_touch :
  ∀ (cfg : Config) (parse : string → option json) (s : Engine) (t : Z)
    (w : nat) (so : Socket) (r : nat) (data : RawData),
    sockets s !! w = Some so → listeners so = Some (r, true) →
    let out := step cfg parse t (WsMessage w data) s in
    out = (tt, run_state (touch t r) s, [])
    ∧ sockets out.1.2 = sockets s
    ∧ connections out.1.2 = connections s
    ∧ connectionsVersion out.1.2 = connectionsVersion s
    ∧ ∀ r', deref out.1.2 r'
            = if decide (r = r') then Conn.set_lastActivityAt t <$> deref s r'
              else deref s r'.
Proof.
  intros cfg parse s t w so r data Hw Hl. cbn zeta. cbn [step].
  rewrite (withListeners_some _ _ _ _ _ _ Hw Hl), onMessage_readOnly. cbn [fst snd].
  split; [reflexivity |]. split; [reflexivity |]. split; [reflexivity |].
  split; [reflexivity |]. intros r'. unfold run_state. cbn [touch mutate update fst snd].
  apply deref_alter.
Qed.

(** ** Invariants of composed handlers *)

Section Preserves.
Context (I : Engine → Prop).

Lemma pres_ret {A : Type} (a : A) : preserves I (mret a).
Proof. by intros s. Qed.

Lemma pres_skip : preserves I skip.
Proof. by intros s. Qed.

Lemma pres_read : preserves I read.
Proof. by intros s. Qed.

Lemma pres_emit e : preserves I (emit e).
Proof. by intros s. Qed.

Lemma pres_update f : (∀ s, I s → I (f s)) → preserves I (update f).
Proof. intros H s. apply H. Qed.

Lemma pres_bind {A B : Type} (m : M A) (k : A → M B) :
  preserves I m → (∀ a, preserves I (k a)) → preserves I (m ≫= k).
Proof. intros Hm Hk s Hs. rewrite run_state_bind. by apply Hk, Hm. Qed.

Lemma pres_forEach {A : Type} (l : list A) (body : A → M unit) :
  (∀ x, preserves I (body x)) → preserves I (forEach l body).
Proof.
  intros H. induction l as [|x l IH]; cbn [forEach].
  - apply pres_skip.
  - apply pres_bind; [apply H | intros _; apply IH].
Qed.

Lemma pres_withConn r body : (∀ c, preserves I (body c)) → preserves I (withConn r body).
Proof.
  intros H. unfold withConn. apply pres_bind; [apply pres_read |].
  intros s. destruct (deref s r); [apply H | apply pres_skip].
Qed.

End Preserves.

Ltac pres_go :=
  repeat lazymatch goal with
  | |- preserves _ (_ ≫= _) => apply pres_bind; [| intros ?]
  | |- preserves _ (mret _) => apply pres_ret
  | |- preserves _ skip => apply pres_skip
  | |- preserves _ read => apply pres_read
  | |- preserves _ (emit _) => apply pres_emit
  | |- preserves _ (update _) => apply pres_update
  | |- preserves _ (forEach _ _) => apply pres_forEach; intros ?
  | |- preserves _ (withConn _ _) => apply pres_withConn; intros ?
  | |- preserves _ (match ?x with _ => _ end) => destruct x
  | |- preserves _ ?m => let h := head_of m in unfold h
  end.

Lemma lookup_alloc (h : list Cell) x r :
  conn <$> (h ++ [x]) !! r =
  if decide (r = length h) then Some (conn x) else conn <$> h !! r.
Proof.
  case_decide as E.
  - subst. by rewrite list_lookup_middle.
  - destruct (decide (r < length h)%nat).
    + by rewrite lookup_app_l.
    + rewrite !(lookup_ge_None_2 _ r); [done | lia |].
      rewrite length_app. cbn. lia.
Qed.

Lemma deref_alloc s x r :
  deref (set_heap (heap s ++ [x]) s) r =
  if decide (r = length (heap s)) then Some (conn x) else deref s r.
Proof. apply lookup_alloc. Qed.

(** Updates that keep [connecting_without_shell]. *)
Ltac shell_update :=
  let s := fresh "s" in let H := fresh "H" in
  let r := fresh "r" in let c := fresh "c" in
  let Hd := fresh "Hd" in let Hst := fresh "Hst" in
  let old := fresh "old" in let E := fresh "E" in
  intros s H r c Hd Hst;
  first
    [ by apply (H r c)
    | rewrite deref_pending in Hd; by apply (H r c)
    | rewrite deref_alter in Hd; case_decide; [| by apply (H r c)];
      destruct (deref s r) as [old|] eqn:E; [| done];
      cbn in Hd; injection Hd as <-; cbn in *;
      first [done | by apply (H r old)] ].

Lemma pres_shell_step cfg parse t ev :
  preserves connecting_without_shell (step cfg parse t ev).
Proof.
  destruct ev; cbn [step].
  all: try (pres_go; shell_update; fail).
  - (* POST /connections: the new record is connecting, without shell *)
    pres_go; try shell_update.
    intros s H r c Hd Hst. rewrite deref_alloc in Hd. case_decide.
    + by injection Hd as <-.
    + by apply (H r c).
  - (* the shell opens: the record becomes ready as it gets its stream *)
    intros s H. unfold onShellOpened. rewrite run_state_bind. cbn [read fst snd run_state].
    destruct (pending_of s c) as [? | req |]; try done.
    do 3 rewrite run_state_bind.
    match goal with
    | |- connecting_without_shell (run_state ?m ?s1) =>
        assert (preserves connecting_without_shell m) as Hrest
          by (pres_go; shell_update);
        apply Hrest
    end.
    intros r c' Hd Hst. unfold run_state, deref in Hd. cbn in Hd.
    rewrite !lookup_on_conn in Hd. case_decide; [| by apply (H r c')].
    destruct (heap s !! r) as [old|]; [| done]. cbn in Hd. by injection Hd as <-.
Qed.

Lemma reachable_connecting_without_shell cfg parse s :
  reachable cfg parse s → connecting_without_shell s.
Proof.
  induction 1 as [| s t ev _ IH].
  - intros r c Hd. unfold deref in Hd. cbn in Hd. by rewrite lookup_nil in Hd.
  - by apply pres_shell_step.
Qed.

(** ** Resize *)

Lemma applyResize_eq t r cols rows s c :
  deref s r = Some c →
  applyResize t r cols rows s =
  (tt, resized r cols rows s,
   window_change r cols rows c
   ++ Notify (summary_of t resize (Some [Conn.id c])
        (set_heap (alter (on_conn (Conn.set_size (Finite cols) (Finite rows))) r (heap s)) s))
   :: sse_frames (sseSeq s) (sseClients s) "connections"
        (summary_of t resize (Some [Conn.id c])
          (set_heap (alter (on_conn (Conn.set_size (Finite cols) (Finite rows))) r (heap s)) s))).
Proof.
  intros H. unfold applyResize.
  rewrite bind_unfold. cbn [mutate update fst snd].
  erewrite withConn_some
    by (rewrite deref_alter, decide_True by done; rewrite H; reflexivity).
  rewrite bind_unfold. unfold window_change.
  cbn [Conn.shell Conn.set_size Conn.id].
  destruct (Conn.shell c); cbn [emit skip ret fst snd]; rewrite bump_eq; reflexivity.
Qed.

Lemma postResize_unknown t req id cols rows s :
  map_get id (connections s) = None →
  postResize t req id cols rows s = (tt, s, [HttpResponse req 404 not_found]).
Proof.
  intros H. unfold postResize. rewrite bind_unfold. cbn [read fst snd]. by rewrite H.
Qed.

Lemma postResize_no_shell t req id cols rows s r :
  map_get id (connections s) = Some r → has_shell s r = false →
  postResize t req id cols rows s = (tt, s, [HttpResponse req 404 not_found]).
Proof.
  intros H Hsh. unfold postResize. rewrite bind_unfold. cbn [read fst snd].
  by rewrite H, Hsh.
Qed.

Lemma postResize_not_numbers t req id cols rows s r :
  map_get id (connections s) = Some r → has_shell s r = true →
  isFinite cols && isFinite rows = false →
  postResize t req id cols rows s =
  (tt, s, [HttpResponse req 400 (JObj [("error", JStr "cols and rows must be numbers")])]).
Proof.
  intros H Hsh Hnum. unfold postResize. rewrite bind_unfold. cbn [read fst snd].
  rewrite H, Hsh. by destruct cols, rows.
Qed.

Lemma postResize_applied t req id cols rows s r c :
  map_get id (connections s) = Some r → deref s r = Some c →
  present (Conn.shell c) = true →
  postResize t req id (Finite cols) (Finite rows) s =
  (tt, resized r cols rows s,
   run_effects (applyResize t r cols rows) s
   ++ [HttpResponse req 200
         (JObj [("ok", JBool true); ("cols", jint cols); ("rows", jint rows)])]).
Proof.
  intros H Hc Hsh. unfold postResize, run_effects. rewrite bind_unfold. cbn [read fst snd].
  rewrite H. unfold has_shell. rewrite Hc, Hsh. cbn [negb].
  rewrite bind_unfold, (applyResize_eq _ _ _ _ _ _ Hc). reflexivity.
Qed.

Lemma deref_resized r cols rows s r' :
  deref (resized r cols rows s) r' =
  if decide (r = r') then Conn.set_size (Finite cols) (Finite rows) <$> deref s r'
  else deref s r'.
Proof. unfold resized. apply (deref_alter s). Qed.

(** C5.  What the code does at capacity.  [createConnection] throws
    [Error("MAX_CONNECTIONS exceeded")] before it touches anything; the
    request handler has one [catch] for every error and answers 500, the
    message being the [detail]. *)
Theorem capacity_exceeded_answers_500 :
  ∀ (cfg : Config) (parse : string → option json) (s : Engine) (t : Z)
    (req : nat) (uuid : string) (body : Params.t),
    Params.host body ≠ EmptyString → Params.username body ≠ EmptyString →
    Params.password body ≠ EmptyString →
    MAX_CONNECTIONS cfg ≤ Z.of_nat (length (connections s)) →
    createConnection cfg t req uuid body s = (Some "MAX_CONNECTIONS exceeded", s, [])
    ∧ step cfg parse t (PostConnections req uuid body) s =
      (tt, s,
       [HttpResponse req 500
          (JObj [("error", JStr "Internal Server Error");
                 ("detail", JStr "MAX_CONNECTIONS exceeded")])]).
Proof.
  intros cfg parse s t req uuid body Hh Hu Hp Hfull. split.
  - by apply createConnection_full.
  - cbn [step]. by apply postConnections_full.
Qed.

(** C4.  What the code does with a resize outside [ready].  The HTTP
    route tests that the record is registered and has a shell stream, not
    its state.  A session that is not registered or has no stream, which
    includes every session in state [connecting], gets 404 and nothing
    happens.  A registered session with a stream is resized whatever its
    state, so also after an upstream listener made it [closed] or
    [error]. *)
Theorem resize_needs_a_shell :
  ∀ (cfg : Config) (parse : string → option json) (s : Engine),
    reachable cfg parse s →
    ∀ (t : Z) (req : nat) (id : string) (cols rows : number),
      let out := step cfg parse t (PostResize req id cols rows) s in
      (map_get id (connections s) = None →
         out = (tt, s, [HttpResponse req 404 not_found]))
      ∧ (∀ r c, map_get id (connections s) = Some r → deref s r = Some c →
           (Conn.state c = Connecting ∨ Conn.shell c = None →
              out = (tt, s, [HttpResponse req 404 not_found]))
           ∧ (present (Conn.shell c) = true →
              ∀ C R, cols = Finite C → rows = Finite R →
                deref out.1.2 r = Some (Conn.set_size (Finite C) (Finite R) c)
                ∧ In (ShellSetWindow r (Finite R) (Finite C)) out.2
                ∧ (∃ sm, notifications out.2 = [sm]
                     ∧ Summary.reason sm = resize
                     ∧ Summary.changedIds sm = Some [Conn.id c])
                ∧ In (HttpResponse req 200
                        (JObj [("ok", JBool true); ("cols", jint C); ("rows", jint R)]))
                     out.2)).
Proof.
  intros cfg parse s Hreach t req id cols rows. cbn zeta. cbn [step]. split.
  - apply postResize_unknown.
  - intros r c Hget Hc. split.
    + intros Hno. apply postResize_no_shell with r; [done |].
      unfold has_shell. rewrite Hc.
      assert (Conn.shell c = None) as ->; [| done].
      destruct Hno as [Hst | ?]; [| done].
      by apply (reachable_connecting_without_shell cfg parse s Hreach r c).
    + intros Hsh C R -> ->.
      rewrite (postResize_applied _ _ _ _ _ _ _ _ Hget Hc Hsh). cbn [fst snd].
      unfold run_effects. rewrite (applyResize_eq _ _ _ _ _ _ Hc). cbn [snd].
      split; [| split; [| split]].
      * rewrite deref_resized, decide_True by done. by rewrite Hc.
      * apply in_or_app. left. apply in_or_app. left. unfold window_change.
        destruct (Conn.shell c); [by left | done].
      * eexists. rewrite !notifications_app. unfold window_change.
        destruct (Conn.shell c); cbn; rewrite notifications_sse_frames; done.
      * apply in_or_app. right. by left.
Qed.

(** C6.  What the code does with the size of a resize.  After a
    successful [POST .../resize] the record holds the new [cols] and
    [rows] and the answer repeats them.  The views of a snapshot have no
    [cols] or [rows] field. *)
Theorem resize_stored_not_in_snapshot :
  ∀ (cfg : Config) (parse : string → option json) (s : Engine) (t : Z)
    (req : nat) (id : string) (r : nat) (c : Conn.t) (C R : Z),
    map_get id (connections s) = Some r → deref s r = Some c →
    present (Conn.shell c) = true →
    let out := step cfg parse t (PostResize req id (Finite C) (Finite R)) s in
    Conn.cols <$> deref out.1.2 r = Some (Finite C)
    ∧ Conn.rows <$> deref out.1.2 r = Some (Finite R)
    ∧ In (HttpResponse req 200
            (JObj [("ok", JBool true); ("cols", jint C); ("rows", jint R)])) out.2
    ∧ ∀ t',
        get "connections" (connectionsSnapshot t' out.1.2)
        = Some (JArr (map (view out.1.2) (values out.1.2)))
        ∧ ∀ c',
            keys (view out.1.2 c') =
              ["id"; "state"; "createdAt"; "lastActivityAt"; "idleTimeoutMs";
               "attachedClients"; "meta"]
            ∧ get "cols" (view out.1.2 c') = None
            ∧ get "rows" (view out.1.2 c') = None.
Proof.
  intros cfg parse s t req id r c C R Hget Hc Hsh. cbn zeta. cbn [step].
  rewrite (postResize_applied _ _ _ _ _ _ _ _ Hget Hc Hsh). cbn [fst snd].
  rewrite deref_resized, decide_True, Hc by done.
  repeat split. apply in_or_app. right. by left.
Qed.

(** ** Activity *)

Lemma forEach_send ws chunk s :
  forEach ws (λ w, s' ← read;
                   if socket_open s' w then emit (WsSend w (FrameBuffer chunk))
                   else skip) s =
  (tt, s, map (λ w, WsSend w (FrameBuffer chunk)) (List.filter (socket_open s) ws)).
Proof.
  induction ws as [|w ws IH]; [done |].
  cbn [forEach List.filter]. rewrite !bind_unfold. cbn [read fst snd].
  destruct (socket_open s w); cbn [emit skip ret fst snd prepend app];
    by rewrite IH.
Qed.

Lemma onShellData_eq t r chunk s c :
  deref s r = Some c → present (Conn.shell c) = true →
  onShellData t r chunk s =
  (tt, set_heap (alter (on_conn (Conn.set_lastActivityAt t)) r (heap s)) s,
   map (λ w, WsSend w (FrameBuffer chunk)) (List.filter (socket_open s) (Conn.clients c))).
Proof.
  intros Hc Hsh. unfold onShellData.
  destruct (Conn.shell c) as [sh|] eqn:E; [| done].
  rewrite (withStream_some _ _ _ _ _ Hc E).
  rewrite bind_unfold. cbn [touch mutate update fst snd].
  rewrite forEach_send. reflexivity.
Qed.

Lemma attachWebSocket_eq t w r readOnly s c :
  deref s r = Some c → Conn.state c = Ready → present (Conn.shell c) = true →
  attachWebSocket t w r readOnly s =
  (tt, attached t w r readOnly s,
   Notify (summary_of t ws_attached (Some [Conn.id c])
     (set_heap
       (alter (on_conn (Conn.set_lastActivityAt t)) r
         (alter (on_conn (λ c, Conn.set_clients (set_add w (Conn.clients c)) c)) r
           (heap s))) s))
   :: sse_frames (sseSeq s) (sseClients s) "connections"
        (summary_of t ws_attached (Some [Conn.id c])
          (set_heap
            (alter (on_conn (Conn.set_lastActivityAt t)) r
              (alter (on_conn (λ c, Conn.set_clients (set_add w (Conn.clients c)) c)) r
                (heap s))) s))
   ++ [WsSend w (FrameBuffer (String.list_byte_of_string banner))]).
Proof.
  intros Hc Hst Hsh. unfold attachWebSocket.
  rewrite (withConn_some _ _ _ _ Hc), Hst, Hsh. cbn [state_eqb negb orb].
  rewrite !bind_unfold. cbn [touch mutate update emit fst snd].
  rewrite bump_eq. reflexivity.
Qed.

Lemma attachWebSocket_refused t w r readOnly s c :
  deref s r = Some c → Conn.state c ≠ Ready ∨ Conn.shell c = None →
  attachWebSocket t w r readOnly s =
  (tt, set_sockets (alter closing w (sockets s)) s,
   [WsClose w 1011 "Connection not ready"]).
Proof.
  intros Hc Hno. unfold attachWebSocket. rewrite (withConn_some _ _ _ _ Hc).
  assert (negb (state_eqb (Conn.state c) Ready) || negb (present (Conn.shell c)) = true)
    as ->; [| reflexivity].
  destruct Hno as [Hst | ->]; [| by rewrite orb_true_r].
  by destruct (Conn.state c).
Qed.

Lemma onUpgrade_known t id readOnly s r :
  map_get id (connections s) = Some r →
  onUpgrade t id readOnly s =
  attachWebSocket t (length (sockets s)) r readOnly (accepted s).
Proof.
  intros H. unfold onUpgrade. rewrite bind_unfold. cbn [read fst snd]. rewrite H.
  rewrite bind_unfold. cbn [update fst snd]. unfold prepend. cbn [app].
  by destruct (attachWebSocket _ _ _ _ _) as [[[] ?] ?].
Qed.

Lemma onUpgrade_unknown t id readOnly s :
  map_get id (connections s) = None →
  onUpgrade t id readOnly s = (tt, s, [SocketDestroy]).
Proof.
  intros H. unfold onUpgrade. rewrite bind_unfold. cbn [read fst snd]. by rewrite H.
Qed.

(** Updates that keep [active_at t r]. *)
Ltac activity_update :=
  let s := fresh "s" in let H := fresh "H" in
  let old := fresh "old" in let E := fresh "E" in
  intros s H; unfold active_at in *;
  first
    [ exact H
    | rewrite deref_alter; case_decide; [| exact H];
      destruct (deref s _) as [old|] eqn:E; [| done];
      cbn in *; exact H ].

Lemma onMessage_active parse t w r readOnly data s c :
  deref s r = Some c →
  active_at t r (run_state (onMessage parse t w r readOnly data) s).
Proof.
  intros Hc. unfold onMessage. rewrite run_state_bind.
  match goal with
  | |- active_at _ _ (run_state ?m _) =>
      assert (preserves (active_at t r) m) as Hrest by (pres_go; activity_update);
      apply Hrest
  end.
  unfold active_at, run_state. cbn [touch mutate update fst snd].
  by rewrite deref_alter, decide_True, Hc by done.
Qed.

Lemma deref_attached t w r readOnly s c :
  deref s r = Some c →
  deref (attached t w r readOnly s) r =
  Some (Conn.set_lastActivityAt t (Conn.set_clients (set_add w (Conn.clients c)) c)).
Proof.
  intros Hc. unfold deref in *. cbn. rewrite !lookup_on_conn, !decide_True by done.
  by rewrite Hc.
Qed.

(** C7.  What updates [lastActivityAt].  Bytes from the shell, any frame
    from an attached peer (read-only or not, a [resize] frame included)
    and a successful attach set it to the current time.  A resize through
    the HTTP route goes through [applyResize], which does not call
    [touch]: it leaves [lastActivityAt] as it was. *)
Theorem activity_triggers :
  ∀ (cfg : Config) (parse : string → option json) (s : Engine) (t : Z)
    (r : nat) (c : Conn.t),
    deref s r = Some c →
    (present (Conn.shell c) = true →
       ∀ chunk, active_at t r (run_state (step cfg parse t (StreamData r chunk)) s))
    ∧ (∀ w so readOnly data,
         sockets s !! w = Some so → listeners so = Some (r, readOnly) →
         active_at t r (run_state (step cfg parse t (WsMessage w data)) s))
    ∧ (∀ readOnly,
         map_get (Conn.id c) (connections s) = Some r →
         Conn.state c = Ready → present (Conn.shell c) = true →
         active_at t r (run_state (step cfg parse t (Upgrade (Conn.id c) readOnly)) s))
    ∧ (∀ req C R,
         map_get (Conn.id c) (connections s) = Some r →
         present (Conn.shell c) = true →
         Conn.lastActivityAt
           <$> deref (run_state
                 (step cfg parse t (PostResize req (Conn.id c) (Finite C) (Finite R))) s) r
         = Some (Conn.lastActivityAt c)).
Proof.
  intros cfg parse s t r c Hc. split; [| split; [| split]].
  - intros Hsh chunk. unfold active_at, run_state. cbn [step].
    rewrite (onShellData_eq _ _ _ _ _ Hc Hsh). cbn [fst snd].
    by rewrite deref_alter, decide_True, Hc by done.
  - intros w so readOnly data Hw Hl. unfold run_state. cbn [step].
    rewrite (withListeners_some _ _ _ _ _ _ Hw Hl).
    by apply onMessage_active with c.
  - intros readOnly Hget Hst Hsh. unfold active_at, run_state. cbn [step].
    rewrite (onUpgrade_known _ _ _ _ _ Hget).
    rewrite (attachWebSocket_eq _ _ _ _ _ c) by done. cbn [fst snd].
    by rewrite (deref_attached _ _ _ _ (accepted s) c).
  - intros req C R Hget Hsh. unfold run_state. cbn [step].
    rewrite (postResize_applied _ _ _ _ _ _ _ _ Hget Hc Hsh). cbn [fst snd].
    by rewrite deref_resized, decide_True, Hc by done.
Qed.

(** ** The registry as a map *)

Lemma map_get_Some_in k v m : map_get k m = Some v → In (k, v) m.
Proof.
  induction m as [|[k' v'] m IH]; [done |]. cbn.
  destruct (String.eqb_spec k' k) as [-> | Hne].
  - intros [= ->]. by left.
  - intros H. right. by apply IH.
Qed.

Lemma map_get_in k v m : List.NoDup (map fst m) → In (k, v) m → map_get k m = Some v.
Proof.
  induction m as [|[k' v'] m IH]; [done |]. cbn.
  intros [Hk Hnd]%NoDup_cons_iff [[= -> ->] | Hin].
  - by rewrite String.eqb_refl.
  - destruct (String.eqb_spec k' k) as [-> | Hne]; [| by apply IH].
    destruct Hk. by apply (in_map fst _ (k, v)).
Qed.

Lemma map_get_None k m : map_get k m = None ↔ ¬ In k (map fst m).
Proof.
  induction m as [|[k' v'] m IH]; [cbn; tauto |]. cbn.
  destruct (String.eqb_spec k' k) as [-> | Hne].
  - split; [done |]. intros H. destruct H. by left.
  - rewrite IH. tauto.
Qed.

Lemma map_get_delete_ne k k' m : k ≠ k' → map_get k (map_delete k' m) = map_get k m.
Proof.
  intros Hne. induction m as [|[k0 v0] m IH]; [done |]. cbn.
  destruct (String.eqb_spec k0 k') as [-> | Hne'].
  - rewrite IH. by rewrite (proj2 (String.eqb_neq k' k)).
  - cbn. by rewrite IH.
Qed.

Lemma in_map_delete k v k' m : In (k, v) (map_delete k' m) ↔ In (k, v) m ∧ k ≠ k'.
Proof.
  induction m as [|[k0 v0] m IH]; [cbn; tauto |]. cbn.
  destruct (String.eqb_spec k0 k') as [-> | Hne'].
  - rewrite IH. split; [tauto |]. intros [[[= -> ->] | ?] ?]; [done | tauto].
  - cbn. rewrite IH. split.
    + intros [[= -> ->] | [? ?]]; [split; [by left | done] | tauto].
    + tauto.
Qed.

Lemma in_keys_map_delete k k' m : In k (map fst (map_delete k' m)) → In k (map fst m).
Proof.
  intros [[k0 v] [<- Hin]]%in_map_iff. apply in_map_delete in Hin as [Hin _].
  by apply (in_map fst _ (k0, v)).
Qed.

Lemma NoDup_map_delete k m : List.NoDup (map fst m) → List.NoDup (map fst (map_delete k m)).
Proof.
  induction m as [|[k0 v0] m IH]; [done |]. cbn.
  intros [Hk Hnd]%NoDup_cons_iff.
  destruct (String.eqb k0 k); [by apply IH |]. cbn. apply NoDup_cons_iff.
  split; [| by apply IH]. intros H. apply Hk. by eapply in_keys_map_delete.
Qed.

Lemma map_delete_length k m : (length (map_delete k m) ≤ length m)%nat.
Proof.
  induction m as [|[k0 v0] m IH]; [done |]. cbn.
  destruct (String.eqb k0 k); cbn; lia.
Qed.

(** ** The sweeper *)

Lemma consistent_ref s id id' r :
  consistent s → In (id, r) (connections s) → In (id', r) (connections s) → id = id'.
Proof.
  intros [_ Hc] H1 H2.
  destruct (Hc _ _ H1) as (c & Hd & <-). destruct (Hc _ _ H2) as (c' & Hd' & <-).
  congruence.
Qed.

Lemma eligible_ext s s' t c :
  (∀ w, socket_open s' w = socket_open s w) → eligible s' t c = eligible s t c.
Proof.
  intros H. unfold eligible. f_equal. f_equal.
  induction (Conn.clients c) as [|w ws IH]; [done |]. cbn. by rewrite H, IH.
Qed.

Lemma eligible_no_open s t c w :
  eligible s t c = true → In w (Conn.clients c) → socket_open s w = false.
Proof.
  unfold eligible. intros [Hno _]%andb_true_iff Hw.
  apply negb_true_iff in Hno.
  destruct (socket_open s w) eqn:E; [| done].
  assert (existsb (socket_open s) (Conn.clients c) = true); [| congruence].
  apply existsb_exists. eauto.
Qed.

Lemma sweepOne_eq t id r s c :
  consistent s → In (id, r) (connections s) → deref s r = Some c →
  sweepOne t (id, r) s =
  if eligible s t c
  then terminateConnection t r (idle_text c) idle_timeout s
  else (tt, s, []).
Proof.
  intros [Hnd _] Hin Hc. unfold sweepOne. rewrite bind_unfold. cbn [read fst snd].
  rewrite (map_get_in _ _ _ Hnd Hin), (withConn_some _ _ _ _ Hc).
  destruct (eligible s t c); [| done].
  by destruct (terminateConnection _ _ _ _ _) as [[[] ?] ?].
Qed.

Lemma deref_terminated_ne r c s r' :
  r ≠ r' → deref (terminated r c s) r' = deref s r'.
Proof.
  intros Hne. unfold deref. cbn. by rewrite !list_lookup_alter_ne.
Qed.

Lemma socket_open_terminated t r c s w :
  eligible s t c = true → socket_open (terminated r c s) w = socket_open s w.
Proof.
  intros He. rewrite (socket_open_close_all _ (sockets s) (Conn.clients c)); [done.. |].
  intros so Hso Hw. pose proof (eligible_no_open _ _ _ _ He Hw) as Hno.
  unfold socket_open in Hno. by rewrite Hso in Hno.
Qed.

Lemma consistent_terminated r c s :
  consistent s → deref s r = Some c → consistent (terminated r c s).
Proof.
  intros [Hnd Hc] Hd. split.
  - cbn. by apply NoDup_map_delete.
  - intros id r' [Hin Hne]%in_map_delete. destruct (Hc _ _ Hin) as (c' & Hd' & Hid).
    destruct (decide (r = r')) as [<- | Hr].
    + rewrite (deref_terminated _ _ _ Hd). eexists. split; [done |].
      cbn. congruence.
    + rewrite deref_terminated_ne by done. eauto.
Qed.

Lemma reaped_app e1 e2 : reaped (e1 ++ e2) = reaped e1 ++ reaped e2.
Proof. unfold reaped. by rewrite notifications_app, flat_map_app. Qed.

Lemma reaped_terminate t r c s :
  deref s r = Some c →
  reaped (terminateConnection t r (idle_text c) idle_timeout s).2 = [Conn.id c].
Proof.
  intros Hd. rewrite (terminateConnection_eq _ _ _ _ _ _ Hd). cbn [snd].
  unfold reaped. rewrite !notifications_app, notifications_closes by done.
  unfold shell_release.
  destruct (Conn.shell c); cbn; rewrite notifications_sse_frames; done.
Qed.

Lemma sweep_loop t l :
  ∀ cur,
    consistent cur → List.NoDup (map fst l) →
    (∀ kv, In kv l → In kv (connections cur)) →
    let out := forEach l (sweepOne t) cur in
    consistent out.1.2
    ∧ (∀ w, socket_open out.1.2 w = socket_open cur w)
    ∧ (∀ r, (∀ id, ¬ In (id, r) l) → deref out.1.2 r = deref cur r)
    ∧ (∀ id, ¬ In id (map fst l) →
         map_get id (connections out.1.2) = map_get id (connections cur))
    ∧ (∀ id, In id (reaped out.2) → In id (map fst l))
    ∧ (∀ id r c, In (id, r) l → deref cur r = Some c →
         (eligible cur t c = true →
            map_get id (connections out.1.2) = None
            ∧ deref out.1.2 r = Some (Conn.set_clients [] (Conn.set_state Closed c))
            ∧ In id (reaped out.2))
         ∧ (eligible cur t c = false →
            map_get id (connections out.1.2) = Some r
            ∧ deref out.1.2 r = Some c
            ∧ ¬ In id (reaped out.2))).
Proof.
  induction l as [|[id0 r0] l IH]; intros cur Hcons Hnd Hin; cbn zeta.
  { cbn. split; [done |]. repeat split; try done. }
  cbn [map fst] in Hnd. apply NoDup_cons_iff in Hnd as [Hfresh Hnd].
  assert (In (id0, r0) (connections cur)) as Hin0 by (apply Hin; by left).
  destruct (proj2 Hcons _ _ Hin0) as (c0 & Hd0 & Hid0).
  assert (∀ id, ¬ In (id, r0) l) as Hr0.
  { intros id Hl. apply Hfresh.
    rewrite (consistent_ref cur id0 id r0 Hcons Hin0) by (apply Hin; by right).
    by apply (in_map fst _ (id, r0)). }
  cbn [forEach]. rewrite bind_unfold, (sweepOne_eq _ _ _ _ _ Hcons Hin0 Hd0).
  destruct (eligible cur t c0) eqn:He0.
  - (* the head is reaped *)
    pose proof (terminateConnection_eq t r0 (idle_text c0) idle_timeout cur c0 Hd0) as Ht.
    pose proof (reaped_terminate t r0 c0 cur Hd0) as Hreap.
    destruct (terminateConnection t r0 (idle_text c0) idle_timeout cur)
      as [[[] cur1] e1] eqn:Eterm.
    injection Ht as -> _. cbn [snd] in Hreap. cbn [fst snd].
    assert (consistent (terminated r0 c0 cur)) as Hcons1
      by by apply consistent_terminated.
    assert (∀ kv, In kv l → In kv (connections (terminated r0 c0 cur))) as Hin1.
    { intros [id r] Hl. cbn. apply in_map_delete. split; [apply Hin; by right |].
      rewrite Hid0. intros ->. apply Hfresh. by apply (in_map fst _ (id0, r)). }
    destruct (IH _ Hcons1 Hnd Hin1) as (Ic & Iopen & Iref & Iget & Ireap & Ipt).
    unfold prepend. cbn [fst snd].
    destruct (forEach l (sweepOne t) (terminated r0 c0 cur)) as [[[] out] e2].
    cbn [fst snd] in *.
    split; [done |]. split.
    { intros w. rewrite Iopen. by eapply socket_open_terminated. }
    split.
    { intros r Hr. rewrite Iref by (intros id ?; apply (Hr id); by right).
      apply deref_terminated_ne. intros ->. apply (Hr id0). by left. }
    split.
    { intros id Hid. rewrite Iget by (intros ?; apply Hid; by right).
      cbn. apply map_get_delete_ne. rewrite Hid0. intros ->. apply Hid. by left. }
    split.
    { intros id. rewrite reaped_app, Hreap, Hid0. cbn.
      intros [-> | H]; [by left | right; by apply Ireap]. }
    intros id r c [[= -> ->] | Hl] Hd.
    + assert (c = c0) as -> by congruence. split; [| congruence]. intros _.
      split; [| split].
      * rewrite Iget by done. cbn. rewrite Hid0. apply map_get_delete.
      * rewrite Iref by done. by apply deref_terminated.
      * rewrite reaped_app, Hreap, Hid0. by left.
    + assert (r0 ≠ r) as Hr by (intros ->; by apply (Hr0 id)).
      assert (id ≠ id0) as Hne
        by (intros ->; apply Hfresh; by apply (in_map fst _ (id0, r))).
      assert (deref (terminated r0 c0 cur) r = Some c) as Hd1
        by by rewrite deref_terminated_ne.
      destruct (Ipt id r c Hl Hd1) as [Igone Ikept].
      rewrite (eligible_ext cur (terminated r0 c0 cur)) in Igone, Ikept
        by (intros w; by eapply socket_open_terminated).
      split; intros He.
      * destruct (Igone He) as (? & ? & ?). repeat split; try done.
        rewrite reaped_app. apply in_or_app. by right.
      * destruct (Ikept He) as (? & ? & ?). repeat split; try done.
        rewrite reaped_app, Hreap, Hid0. cbn. intros [? | ?]; congruence.
  - (* the head is kept *)
    cbn [fst snd].
    assert (∀ kv, In kv l → In kv (connections cur)) as Hin1
      by (intros kv ?; apply Hin; by right).
    destruct (IH _ Hcons Hnd Hin1) as (Ic & Iopen & Iref & Iget & Ireap & Ipt).
    unfold prepend. cbn [fst snd app].
    destruct (forEach l (sweepOne t) cur) as [[[] out] e2].
    cbn [fst snd] in *.
    split; [done |]. split; [done |]. split.
    { intros r Hr. apply Iref. intros id ?. apply (Hr id). by right. }
    split.
    { intros id Hid. apply Iget. intros ?. apply Hid. by right. }
    split.
    { intros id H. right. by apply Ireap. }
    intros id r c [[= -> ->] | Hl] Hd.
    + assert (c = c0) as -> by congruence. split; [congruence |]. intros _.
      split; [| split].
      * rewrite Iget by done. destruct Hcons as [Hk _]. by apply map_get_in.
      * by rewrite Iref.
      * intros H. by apply Hfresh, Ireap.
    + by apply Ipt.
Qed.

Lemma distinct_NoDup l : distinct l = true → List.NoDup l.
Proof.
  induction l as [|x l IH]; [constructor |]. cbn.
  intros [Hx Hl]%andb_true_iff. constructor; [| by apply IH].
  intros Hin. apply negb_true_iff in Hx.
  assert (existsb (String.eqb x) l = true); [| congruence].
  apply existsb_exists. exists x. split; [done | apply String.eqb_refl].
Qed.

Lemma consistentb_sound s : consistentb s = true → consistent s.
Proof.
  unfold consistentb. intros [Hd Hall]%andb_true_iff. split.
  - by apply distinct_NoDup.
  - intros id r Hin. rewrite forallb_forall in Hall. specialize (Hall _ Hin).
    cbn in Hall. destruct (deref s r) as [c|]; [| done].
    exists c. split; [done |]. by apply String.eqb_eq.
Qed.


(** ** The registry stays consistent *)

Lemma in_keys_map_set x k v m :
  In x (map fst (map_set k v m)) → x = k ∨ In x (map fst m).
Proof.
  induction m as [|[k0 v0] m IH]; cbn.
  - intros [<- | []]. by left.
  - destruct (String.eqb_spec k0 k) as [-> | Hne]; cbn; [tauto |].
    intros [<- | H]; [tauto |]. destruct (IH H); tauto.
Qed.

Lemma NoDup_map_set k v m :
  List.NoDup (map fst m) → List.NoDup (map fst (map_set k v m)).
Proof.
  induction m as [|[k0 v0] m IH]; cbn.
  - intros _. repeat constructor. by intros [].
  - intros [Hk Hnd]%NoDup_cons_iff.
    destruct (String.eqb_spec k0 k) as [-> | Hne]; cbn.
    + by apply NoDup_cons_iff.
    + apply NoDup_cons_iff. split; [| by apply IH].
      intros [-> | H]%in_keys_map_set; done.
Qed.

Lemma in_map_set k v k' v' m :
  List.NoDup (map fst m) → In (k, v) (map_set k' v' m) →
  (k = k' ∧ v = v') ∨ (In (k, v) m ∧ k ≠ k').
Proof.
  induction m as [|[k0 v0] m IH]; cbn.
  - intros _ [[= -> ->] | []]. by left.
  - intros [Hk Hnd]%NoDup_cons_iff.
    destruct (String.eqb_spec k0 k') as [-> | Hne]; cbn.
    + intros [[= -> ->] | Hin]; [by left |]. right. split; [by right |].
      intros ->. apply Hk. by apply (in_map fst _ (k', v)).
    + intros [[= -> ->] | Hin]; [right; split; [by left | done] |].
      destruct (IH Hnd Hin) as [? | [? ?]]; [by left | right; tauto].
Qed.

Lemma consistent_admitted cfg t req uuid p s :
  consistent s → consistent (admitted cfg t req uuid p s).
Proof.
  intros [Hnd Hc]. split.
  - cbn. by apply NoDup_map_set.
  - intros id r Hin. cbn in Hin. apply in_map_set in Hin; [| done].
    unfold deref, admitted. cbn [heap bumped set_sseSeq set_connectionsVersion
      set_connections set_heap].
    rewrite lookup_alloc. destruct Hin as [[-> ->] | [Hin Hne]].
    + rewrite decide_True by done. eauto.
    + destruct (Hc _ _ Hin) as (c & Hd & Hid).
      rewrite decide_False; [eauto |]. intros ->.
      unfold deref in Hd. by rewrite lookup_ge_None_2 in Hd.
Qed.

(** Updates that keep [consistent]. *)
Ltac consistent_update :=
  let s := fresh "s" in let H := fresh "H" in
  let Hnd := fresh "Hnd" in let Hc := fresh "Hc" in
  let id := fresh "id" in let r := fresh "r" in let Hin := fresh "Hin" in
  let c := fresh "c" in let Hd := fresh "Hd" in let Hid := fresh "Hid" in
  intros s H;
  first
    [ exact H
    | destruct H as [Hnd Hc]; split;
      [ first [exact Hnd | by apply NoDup_map_delete] |];
      intros id r Hin;
      first
        [ apply in_map_delete in Hin as [Hin _]; by apply (Hc id r)
        | destruct (Hc id r Hin) as (c & Hd & Hid);
          first
            [ rewrite deref_pending; by eauto
            | rewrite deref_alter, Hd; case_decide; by eauto ] ] ].

Lemma pres_consistent_step cfg parse t ev :
  preserves consistent (step cfg parse t ev).
Proof.
  destruct ev; cbn [step].
  all: try (pres_go; consistent_update; fail).
  (* POST /connections *)
  intros s H. unfold run_state.
  destruct (String.eqb_spec (Params.host body) EmptyString) as [Hh | Hh];
    [by rewrite postConnections_missing by (by left) |].
  destruct (String.eqb_spec (Params.username body) EmptyString) as [Hu | Hu];
    [by rewrite postConnections_missing by (by right) |].
  destruct (String.eqb_spec (Params.password body) EmptyString) as [Hp | Hp].
  { unfold postConnections. rewrite Hp. cbn [String.eqb]. by rewrite !orb_true_r. }
  destruct (Z.lt_ge_cases (Z.of_nat (length (connections s))) (MAX_CONNECTIONS cfg)).
  - rewrite postConnections_admitted by done. by apply consistent_admitted.
  - by rewrite postConnections_full by done.
Qed.

Lemma reachable_consistent cfg parse s : reachable cfg parse s → consistent s.
Proof.
  induction 1 as [| s t ev _ IH].
  - split; [constructor | by intros ? ? []].
  - by apply pres_consistent_step.
Qed.

(** ** The properties on the sample session *)

Lemma reachable_run cfg parse evs s :
  reachable cfg parse s → reachable cfg parse (run_state (run cfg parse evs) s).
Proof.
  revert s. induction evs as [|[t ev] evs IH]; intros s Hs; [done |].
  cbn [run]. rewrite run_state_bind. apply IH. by constructor.
Qed.

Lemma reachable_after cfg evs : reachable cfg demo_parse (after cfg evs).
Proof. apply reachable_run. constructor. Qed.



(** C2, on the sample: the SSH client of [X] fails before it is ready,
    then closes. *)
Lemma connect_failure_answers_500_witness :
  Conn.state <$> deref ex_connecting 0 = Some Connecting
  ∧ pending_of ex_connecting 0 = AwaitSsh 0
  ∧ In (HttpResponse 0 500 (internal_error "refused"))
       (step demo_cfg demo_parse 1001 (SshError 0 "refused") ex_connecting).2
  ∧ connections
      (step demo_cfg demo_parse 1002 (SshClose 0)
         (step demo_cfg demo_parse 1001 (SshError 0 "refused") ex_connecting).1.2).1.2
    = connections ex_connecting.
Proof.
  destruct (connect_failure_answers_500 demo_cfg demo_parse ex_connecting 1001 0 _
              "refused" eq_refl eq_refl) as [Hssh _].
  destruct (Hssh 0%nat eq_refl) as (Hresp & _ & _ & Hclose).
  split; [reflexivity |]. split; [reflexivity |]. split.
  - apply Hresp. split; [reflexivity |]. split; reflexivity.
  - exact (proj1 (Hclose 1002)).
Defined.

(** C2 fails as stated: the SSH client of session [X] fails before it is
    ready.  After the [error] event the session is not in state [error]
    and is still registered; after the [close] event that follows it is
    [closed], not [error], and still registered.  After a refused shell
    the session is not in state [error] and still registered. *)
Lemma connect_failure_never_reaches_error :
  let failed :=
    run_state (run demo_cfg demo_parse [(1001, SshError 0%nat "refused")]) ex_connecting in
  let closed :=
    run_state (run demo_cfg demo_parse
                 [(1001, SshError 0%nat "refused"); (1002, SshClose 0%nat)])
      ex_connecting in
  let refused :=
    run_state (step demo_cfg demo_parse 1002 (ShellRefused 0 "refused")) ex_opening in
  Conn.state <$> deref ex_connecting 0 = Some Connecting
  ∧ Conn.state <$> deref failed 0 ≠ Some Error
  ∧ map_get "X" (connections failed) = Some 0%nat
  ∧ Conn.state <$> deref closed 0 = Some Closed
  ∧ map_get "X" (connections closed) = Some 0%nat
  ∧ Conn.state <$> deref ex_opening 0 = Some Connecting
  ∧ Conn.state <$> deref refused 0 ≠ Some Error
  ∧ map_get "X" (connections refused) = Some 0%nat.
Proof. vm_compute. repeat split; discriminate. Qed.

(** C3, on the sample: a [ping] from the read-only peer of [X]. *)
Lemma read_only_frames_only_touch_witness :
  (∃ so, sockets ex_read_only !! 0%nat = Some so ∧ listeners so = Some (0%nat, true))
  ∧ step demo_cfg demo_parse 1005 (WsMessage 0 ping_frame) ex_read_only
    = (tt, run_state (touch 1005 0) ex_read_only, []).
Proof.
  split; [eexists; split; reflexivity |].
  exact (proj1 (read_only_frames_only_touch demo_cfg demo_parse ex_read_only 1005 0 _ 0
                  ping_frame eq_refl eq_refl)).
Defined.

(** C3 fails as stated: the read-only peer of [X] sends the frames
    [{"type":"ping"}] and [{"type":"detach"}].  Whether the listener gets
    them as a [Buffer] or as the string the parser looks for, the peer
    gets no [pong] and is not closed. *)
Lemma read_only_ping_unanswered :
  let ping := step demo_cfg demo_parse 1005 (WsMessage 0 ping_frame) ex_read_only in
  let detach := step demo_cfg demo_parse 1005 (WsMessage 0 detach_frame) ex_read_only in
  let ping' := step demo_cfg demo_parse 1005 (WsMessage 0 (Text ping_text)) ex_read_only in
  let detach' :=
    step demo_cfg demo_parse 1005 (WsMessage 0 (Text detach_text)) ex_read_only in
  (listeners <$> sockets ex_read_only !! 0%nat) = Some (Some (0%nat, true))
  ∧ type_of <$> tryParseControlMessage demo_parse (Text ping_text) = Some "ping"
  ∧ type_of <$> tryParseControlMessage demo_parse (Text detach_text) = Some "detach"
  ∧ ¬ In (WsSend 0 (FrameJson (JObj [("type", JStr "pong")]))) ping.2
  ∧ ¬ In (WsClose 0 1000 "Detached") detach.2
  ∧ socket_open detach.1.2 0 = true
  ∧ ¬ In (WsSend 0 (FrameJson (JObj [("type", JStr "pong")]))) ping'.2
  ∧ ¬ In (WsClose 0 1000 "Detached") detach'.2
  ∧ socket_open detach'.1.2 0 = true.
Proof. vm_compute. repeat split; intros []. Qed.

(** C4, on the sample: resize of [X] while it is connecting, and when
    ready. *)
Lemma resize_needs_a_shell_witness :
  reachable demo_cfg demo_parse ex_connecting
  ∧ step demo_cfg demo_parse 1001 (PostResize 5 "X" (Finite 200) (Finite 50)) ex_connecting
    = (tt, ex_connecting, [HttpResponse 5 404 not_found]).
Proof.
  split; [apply reachable_after |].
  destruct (resize_needs_a_shell demo_cfg demo_parse ex_connecting
              (reachable_after demo_cfg to_connecting)
              1001 5%nat "X" (Finite 200) (Finite 50)) as [_ H].
  destruct (H 0%nat _ eq_refl eq_refl) as [Hno _].
  apply Hno. by left.
Defined.

(** C4 fails as stated: session [X] is [closed] after its shell stream
    closed, and a resize is applied all the same: 200, new size, window
    change and one summary. *)
Lemma closed_session_is_resized :
  let out := step demo_cfg demo_parse 1005 (PostResize 5 "X" (Finite 200) (Finite 50))
               ex_shell_closed in
  Conn.state <$> deref ex_shell_closed 0 = Some Closed
  ∧ out.2 =
    [ShellSetWindow 0 (Finite 50) (Finite 200);
     Notify {| Summary.version := 5; Summary.ts := 1005; Summary.reason := resize;
               Summary.changedIds := Some ["X"];
               Summary.counts :=
                 {| Counts.total := 1; Counts.ready := 0; Counts.connecting := 0;
                    Counts.error := 0; Counts.closed := 1 |} |};
     HttpResponse 5 200 (ok_resized 200 50)]
  ∧ Conn.cols <$> deref out.1.2 0 = Some (Finite 200)
  ∧ Conn.rows <$> deref out.1.2 0 = Some (Finite 50).
Proof. vm_compute. repeat split. Qed.

(** C5, on the sample: a second session where one is allowed. *)
Lemma capacity_exceeded_answers_500_witness :
  MAX_CONNECTIONS single_cfg ≤ Z.of_nat (length (connections ex_full))
  ∧ step single_cfg demo_parse 1005 (PostConnections 1 "Y" demo_body) ex_full
    = (tt, ex_full,
       [HttpResponse 1 500
          (JObj [("error", JStr "Internal Server Error");
                 ("detail", JStr "MAX_CONNECTIONS exceeded")])]).
Proof.
  assert (MAX_CONNECTIONS single_cfg ≤ Z.of_nat (length (connections ex_full))) as Hfull
    by (vm_compute; discriminate).
  split; [exact Hfull |].
  apply (capacity_exceeded_answers_500 single_cfg demo_parse ex_full 1005 1 "Y" demo_body);
    [discriminate | discriminate | discriminate | exact Hfull].
Defined.

(** C5 fails as stated: the answer at capacity has status 500, not 503. *)
Lemma capacity_answer_is_not_503 :
  let out := step single_cfg demo_parse 1005 (PostConnections 1 "Y" demo_body) ex_full in
  Z.of_nat (length (connections ex_full)) = MAX_CONNECTIONS single_cfg
  ∧ out.2 = [HttpResponse 1 500 (internal_error "MAX_CONNECTIONS exceeded")]
  ∧ ∀ body, ¬ In (HttpResponse 1 503 body) out.2.
Proof.
  vm_compute. repeat split. intros body [H | []]. discriminate H.
Qed.

(** C6, on the sample: resize of the ready session [X]. *)
Lemma resize_stored_not_in_snapshot_witness :
  map_get "X" (connections ex_ready) = Some 0%nat
  ∧ Conn.cols
      <$> deref (step demo_cfg demo_parse 1005
                   (PostResize 5 "X" (Finite 200) (Finite 50)) ex_ready).1.2 0
    = Some (Finite 200).
Proof.
  split; [reflexivity |].
  exact (proj1 (resize_stored_not_in_snapshot demo_cfg demo_parse ex_ready 1005 5 "X" 0 _
                  200 50 eq_refl eq_refl eq_refl)).
Defined.

(** C6 fails as stated: after the resize of [X] to 200x50 is answered
    200, the view of [X] in the snapshot has neither [cols] nor [rows]. *)
Lemma snapshot_has_no_size :
  let s := run_state (step demo_cfg demo_parse 1005
                        (PostResize 5 "X" (Finite 200) (Finite 50))) ex_ready in
  In (HttpResponse 5 200 (ok_resized 200 50))
     (run_effects (step demo_cfg demo_parse 1005
                     (PostResize 5 "X" (Finite 200) (Finite 50))) ex_ready)
  ∧ ∃ v, run_effects (step demo_cfg demo_parse 1006 (GetConnections 6)) s
         = [HttpResponse 6 200
              (JObj [("version", jint 3); ("ts", jint 1006); ("connections", JArr [v])])]
       ∧ get "id" v = Some (JStr "X")
       ∧ get "cols" v = None
       ∧ get "rows" v = None.
Proof.
  vm_compute. split; [right; right; by left |]. eexists. repeat split.
Qed.

(** C7, on the sample: bytes from the shell of [X]. *)
Lemma activity_triggers_witness :
  (∃ c, deref ex_attached 0 = Some c ∧ present (Conn.shell c) = true)
  ∧ active_at 1005 0
      (run_state (step demo_cfg demo_parse 1005 (StreamData 0 [Byte.x68; Byte.x69]))
         ex_attached).
Proof.
  split; [eexists; split; reflexivity |].
  exact (proj1 (activity_triggers demo_cfg demo_parse ex_attached 1005 0 _ eq_refl)
           eq_refl [Byte.x68; Byte.x69]).
Defined.

(** C7 fails as stated: a resize of [X] through the HTTP route at time
    5000 is answered 200 and leaves [lastActivityAt] at 1002. *)
Lemma http_resize_does_not_touch :
  let out := step demo_cfg demo_parse 5000 (PostResize 5 "X" (Finite 200) (Finite 50))
               ex_ready in
  In (HttpResponse 5 200 (ok_resized 200 50)) out.2
  ∧ Conn.lastActivityAt <$> deref ex_ready 0 = Some 1002
  ∧ Conn.lastActivityAt <$> deref out.1.2 0 = Some 1002
  ∧ ¬ active_at 5000 0 out.1.2.
Proof.
  vm_compute. split; [right; right; by left |]. repeat split. discriminate.
Qed.


(** C9, on the sample: the same run with the passwords [p] and [q]. *)
Lemma password_not_observable_witness :
  let evs pw :=
    [(1000, PostConnections 0 "X" (with_password pw demo_body));
     (1001, SshReady 0); (1002, ShellOpened 0); (1003, GetConnections 1)] in
  Forall2 (λ x y, x.1 = y.1 ∧ password_variant x.2 y.2) (evs "p") (evs "q")
  ∧ map redact (run_effects (run demo_cfg demo_parse (evs "p")) initial)
    = map redact (run_effects (run demo_cfg demo_parse (evs "q")) initial).
Proof.
  cbn zeta.
  assert (Forall2 (λ x y : Z * Event, x.1 = y.1 ∧ password_variant x.2 y.2)
            [(1000, PostConnections 0 "X" (with_password "p" demo_body));
             (1001, SshReady 0); (1002, ShellOpened 0); (1003, GetConnections 1)]
            [(1000, PostConnections 0 "X" (with_password "q" demo_body));
             (1001, SshReady 0); (1002, ShellOpened 0); (1003, GetConnections 1)]) as Hv.
  { repeat constructor; discriminate. }
  split; [exact Hv |].
  exact (proj2 (proj1 password_not_observable demo_cfg demo_parse _ _ initial Hv)).
Defined.

(** C10, on the sample: [X] closed and still registered, [Y] connecting. *)
Lemma counts_partition_witness :
  consistent ex_two
  ∧ Counts.total (computeCounts ex_two) = Z.of_nat (length (connections ex_two))
  ∧ computeCounts ex_two
    = {| Counts.total := 2; Counts.ready := 0; Counts.connecting := 1;
         Counts.error := 0; Counts.closed := 1 |}.
Proof.
  assert (consistent ex_two) as Hc by (apply consistentb_sound; reflexivity).
  split; [exact Hc |]. split; [| reflexivity].
  destruct counts_partition as (_ & _ & Htotal & _).
  exact (proj1 (Htotal ex_two Hc)).
Defined.

(** * Further properties *)

(** ** Invariants of every run *)

Lemma every_alter P s r f :
  every P s → (∀ c, P c → P (f c)) →
  every P (set_heap (alter (on_conn f) r (heap s)) s).
Proof.
  intros H Hf r' c' Hd. rewrite deref_alter in Hd. case_decide; [| by apply (H r')].
  destruct (deref s r') as [c|] eqn:E; [| done]. injection Hd as <-.
  apply Hf. by apply (H r').
Qed.

Lemma every_alter_at P s r f c :
  every P s → deref s r = Some c → P (f c) →
  every P (set_heap (alter (on_conn f) r (heap s)) s).
Proof.
  intros H Hc Hf r' c' Hd. rewrite deref_alter in Hd. case_decide; [| by apply (H r')].
  subst r'. rewrite Hc in Hd. by injection Hd as <-.
Qed.

Lemma every_pending P s r p :
  every P s →
  every P (set_heap (alter (λ x, {| conn := conn x; pending := p |}) r (heap s)) s).
Proof. intros H r' c' Hd. rewrite deref_pending in Hd. by apply (H r'). Qed.

Lemma every_alloc P s x :
  every P s → P (conn x) → every P (set_heap (heap s ++ [x]) s).
Proof.
  intros H Hx r c Hd. rewrite deref_alloc in Hd. case_decide.
  - by injection Hd as <-.
  - by apply (H r).
Qed.

Lemma every_heap P s s' : heap s = heap s' → every P s' → every P s.
Proof. intros Hh H r c Hd. apply (H r). unfold deref in *. by rewrite <- Hh. Qed.

Lemma set_delete_nil w l : l = [] → set_delete w l = [].
Proof. by intros ->. Qed.

(** Updates that keep [every shaped]. *)
Ltac shaped_setter :=
  let c := fresh "c" in let H1 := fresh "H" in let H2 := fresh "H" in
  let Hst := fresh "Hst" in
  intros c [H1 H2]; split; cbn; intros Hst; try discriminate;
  first
    [ by apply H2
    | destruct (H1 Hst) as [? ?]; split; first [done | by apply set_delete_nil] ].

Ltac shaped_update :=
  let s := fresh "s" in let H := fresh "H" in
  intros s H;
  first
    [ exact H
    | apply every_pending; exact H
    | apply every_alter; [exact H | shaped_setter]
    | apply every_alloc; [exact H | by split] ].

Lemma pres_shaped_step cfg parse t ev :
  preserves (every shaped) (step cfg parse t ev).
Proof.
  destruct ev; cbn [step].
  all: try (pres_go; shaped_update; fail).
  - (* the shell opens *)
    intros s H. unfold onShellOpened. rewrite run_state_bind. cbn [read fst snd run_state].
    destruct (pending_of s c) as [? | req |]; try done.
    do 3 rewrite run_state_bind.
    match goal with
    | |- every shaped (run_state ?m ?s1) =>
        assert (preserves (every shaped) m) as Hrest by (pres_go; shaped_update);
        apply Hrest
    end.
    intros r c' Hd. unfold run_state, deref in Hd. cbn in Hd.
    rewrite !lookup_on_conn in Hd. case_decide; [| by apply (H r c')].
    destruct (heap s !! r) as [old|]; [| done]. cbn in Hd. by injection Hd as <-.
  - (* a peer attaches: only to a ready record *)
    intros s H. unfold run_state.
    destruct (map_get id (connections s)) as [r|] eqn:Hget;
      [| by rewrite onUpgrade_unknown].
    rewrite (onUpgrade_known _ _ _ _ _ Hget).
    destruct (deref s r) as [c|] eqn:Hc;
      [| unfold attachWebSocket; by rewrite withConn_none].
    assert (Conn.state c = Ready ∨ Conn.state c ≠ Ready) as [Hst | Hst]
      by (destruct (Conn.state c); (by left) || (by right)).
    + destruct (Conn.shell c) as [sh|] eqn:Hsh.
      * rewrite (attachWebSocket_eq _ _ _ _ _ c) by (done || by rewrite Hsh).
        cbn [fst snd].
        apply (every_heap _ _
          (set_heap
            (alter (on_conn (Conn.set_lastActivityAt t)) r
              (heap (set_heap
                (alter (on_conn (λ c, Conn.set_clients
                   (set_add (length (sockets s)) (Conn.clients c)) c)) r (heap s)) s)))
            (set_heap
              (alter (on_conn (λ c, Conn.set_clients
                 (set_add (length (sockets s)) (Conn.clients c)) c)) r (heap s)) s)));
          [reflexivity |].
        apply every_alter; [| shaped_setter].
        apply every_alter_at with c; [exact H | exact Hc |].
        split; cbn; intros ?; [congruence | by rewrite Hsh].
      * by rewrite (attachWebSocket_refused _ _ _ _ _ c) by (done || by right).
    + by rewrite (attachWebSocket_refused _ _ _ _ _ c) by (done || by left).
Qed.

Lemma map_set_length k v m : (length (map_set k v m) ≤ S (length m))%nat.
Proof.
  induction m as [|[k0 v0] m IH]; [done |]. cbn.
  destruct (String.eqb k0 k); cbn; lia.
Qed.

Ltac capacity_update :=
  let s := fresh "s" in let H := fresh "H" in
  intros s H;
  first
    [ exact H
    | unfold within_capacity in *; cbn;
      match goal with
      | |- context [map_delete ?k ?m] => pose proof (map_delete_length k m); lia
      end ].

Lemma pres_capacity_step cfg parse t ev :
  preserves (within_capacity cfg) (step cfg parse t ev).
Proof.
  destruct ev; cbn [step].
  all: try (pres_go; capacity_update; fail).
  intros s H. unfold run_state.
  destruct (String.eqb_spec (Params.host body) EmptyString) as [Hh | Hh];
    [by rewrite postConnections_missing by (by left) |].
  destruct (String.eqb_spec (Params.username body) EmptyString) as [Hu | Hu];
    [by rewrite postConnections_missing by (by right) |].
  destruct (String.eqb_spec (Params.password body) EmptyString) as [Hp | Hp].
  { unfold postConnections. rewrite Hp. cbn [String.eqb]. by rewrite !orb_true_r. }
  destruct (Z.lt_ge_cases (Z.of_nat (length (connections s))) (MAX_CONNECTIONS cfg)).
  - rewrite postConnections_admitted by done. unfold within_capacity in *. cbn.
    pose proof (map_set_length uuid (length (heap s)) (connections s)). lia.
  - by rewrite postConnections_full by done.
Qed.

(** X1.  The registry never holds more than [MAX_CONNECTIONS] sessions:
    [createConnection] is the only place that adds an entry, and it
    throws first when the registry is full. *)
Theorem registry_within_capacity :
  ∀ (cfg : Config) (parse : string → option json) (s : Engine),
    reachable cfg parse s →
    Z.of_nat (length (connections s)) ≤ Z.max 0 (MAX_CONNECTIONS cfg).
Proof.
  intros cfg parse s. induction 1 as [| s t ev _ IH].
  - cbn. lia.
  - by apply pres_capacity_step.
Qed.

Lemma registry_within_capacity_witness :
  reachable single_cfg demo_parse
    (after single_cfg (to_connecting ++ [(1001, PostConnections 1 "Y" demo_body)]))
  ∧ Z.of_nat (length (connections
        (after single_cfg (to_connecting ++ [(1001, PostConnections 1 "Y" demo_body)]))))
    ≤ 1.
Proof.
  split; [apply reachable_after |].
  exact (registry_within_capacity single_cfg demo_parse _ (reachable_after single_cfg _)).
Defined.

(** X2.  In every state the server reaches, the keys of the registry are
    distinct, each entry points to a record whose [id] is its key (so
    [connections.delete(conn.id)] removes that very entry), a
    [connecting] record has neither shell stream nor peers, and a [ready]
    record has a shell stream. *)
Theorem registry_and_records_well_formed :
  ∀ (cfg : Config) (parse : string → option json) (s : Engine),
    reachable cfg parse s →
    List.NoDup (map fst (connections s))
    ∧ (∀ id r, In (id, r) (connections s) →
         ∃ c, deref s r = Some c ∧ Conn.id c = id)
    ∧ (∀ r c, deref s r = Some c →
         (Conn.state c = Connecting → Conn.shell c = None ∧ Conn.clients c = [])
         ∧ (Conn.state c = Ready → present (Conn.shell c) = true)).
Proof.
  intros cfg parse s Hs. split; [| split].
  - apply (reachable_consistent cfg parse s Hs).
  - apply (reachable_consistent cfg parse s Hs).
  - induction Hs as [| s t ev _ IH].
    + intros r c Hd. unfold deref in Hd. cbn in Hd. by rewrite lookup_nil in Hd.
    + by apply pres_shaped_step.
Qed.

Lemma registry_and_records_well_formed_witness :
  reachable demo_cfg demo_parse ex_attached
  ∧ ∀ r c, deref ex_attached r = Some c →
      Conn.state c = Ready → present (Conn.shell c) = true.
Proof.
  split; [apply reachable_after |].
  intros r c Hd.
  exact (proj2 (proj2 (proj2 (registry_and_records_well_formed demo_cfg demo_parse
           ex_attached (reachable_after demo_cfg _))) r c Hd)).
Defined.

(** ** Versions and sequence numbers *)

Lemma consecutive_app v l1 l2 :
  consecutive v l1 → consecutive (v + Z.of_nat (length l1)) l2 →
  consecutive v (l1 ++ l2).
Proof.
  revert v. induction l1 as [|x l1 IH]; intros v H1 H2; cbn in *.
  - by rewrite Z.add_0_r in H2.
  - destruct H1 as [-> H1]. split; [done |]. apply IH; [done |].
    by replace (v + 1 + Z.of_nat (length l1)) with (v + Z.pos (Pos.of_succ_nat (length l1)))
      by lia.
Qed.

Lemma consecutive_lt v l x : consecutive v l → In x l → v < x.
Proof.
  revert v. induction l as [|y l IH]; intros v H Hin; [done |].
  destruct H as [-> H]. destruct Hin as [<- | Hin]; [lia |].
  specialize (IH _ H Hin). lia.
Qed.

Section Counting.
Context (counter : Engine → Z) (tick : Effect → option Z).
Hypothesis counter_heap : ∀ v s, counter (set_heap v s) = counter s.
Hypothesis counter_sockets : ∀ v s, counter (set_sockets v s) = counter s.
Hypothesis counter_connections : ∀ v s, counter (set_connections v s) = counter s.
Hypothesis counter_sseClients : ∀ v s, counter (set_sseClients v s) = counter s.
Hypothesis counting_bump :
  ∀ t reason ids, counting counter tick (bumpAndNotify t reason ids).
Hypothesis counting_sseSend :
  ∀ res ev sm, counting counter tick (sseSend res ev sm).
Hypothesis tick_silent :
  ∀ e, match e with Notify _ | SseFrame _ _ _ _ => True | _ => tick e = None end.

Lemma counting_ret {A : Type} (a : A) : counting counter tick (mret a).
Proof. intros s. cbn. split; [done | lia]. Qed.

Lemma counting_read : counting counter tick read.
Proof. intros s. cbn. split; [done | lia]. Qed.

Lemma counting_update f :
  (∀ s, counter (f s) = counter s) → counting counter tick (update f).
Proof. intros H s. cbn. rewrite H. split; [done | lia]. Qed.

Lemma counting_emit e : tick e = None → counting counter tick (emit e).
Proof. intros H s. unfold run_effects, run_state. cbn. rewrite H. cbn. split; [done | lia]. Qed.

Lemma counting_bind {A B : Type} (m : M A) (k : A → M B) :
  counting counter tick m → (∀ a, counting counter tick (k a)) →
  counting counter tick (m ≫= k).
Proof.
  intros Hm Hk s. rewrite run_state_bind, run_effects_bind, omap_app, length_app.
  destruct (Hm s) as [Hm1 Hm2]. destruct (Hk (m s).1.1 (run_state m s)) as [Hk1 Hk2].
  split.
  - apply consecutive_app; [done |]. by rewrite <- Hm2.
  - rewrite Hk2, Hm2. lia.
Qed.

Lemma counting_forEach {A : Type} (l : list A) (body : A → M unit) :
  (∀ x, counting counter tick (body x)) → counting counter tick (forEach l body).
Proof.
  intros H. induction l as [|x l IH]; cbn [forEach].
  - apply (counting_ret tt).
  - apply counting_bind; [apply H | intros _; apply IH].
Qed.

Lemma counting_withConn r body :
  (∀ c, counting counter tick (body c)) → counting counter tick (withConn r body).
Proof.
  intros H. unfold withConn. apply counting_bind; [apply counting_read |].
  intros s. destruct (deref s r); [apply H | apply (counting_ret tt)].
Qed.

Ltac counting_go :=
  repeat lazymatch goal with
  | |- counting _ _ (bumpAndNotify _ _ _) => apply counting_bump
  | |- counting _ _ (sseSend _ _ _) => apply counting_sseSend
  | |- counting _ _ (_ ≫= _) => apply counting_bind; [| intros ?]
  | |- counting _ _ (mret _) => apply counting_ret
  | |- counting _ _ skip => apply (counting_ret tt)
  | |- counting _ _ read => apply counting_read
  | |- counting _ _ (emit ?e) => apply counting_emit; exact (tick_silent e)
  | |- counting _ _ (update _) =>
      apply counting_update; intros ?;
      first [apply counter_heap | apply counter_sockets
            | apply counter_connections | apply counter_sseClients]
  | |- counting _ _ (forEach _ _) => apply counting_forEach; intros ?
  | |- counting _ _ (withConn _ _) => apply counting_withConn; intros ?
  | |- counting _ _ (match ?x with _ => _ end) => destruct x
  | |- counting _ _ ?m => let h := head_of m in unfold h
  end.

Lemma counting_step cfg parse t ev : counting counter tick (step cfg parse t ev).
Proof. destruct ev; cbn [step]; counting_go. Qed.

Lemma counting_run cfg parse evs : counting counter tick (run cfg parse evs).
Proof.
  induction evs as [|[t ev] evs IH]; cbn [run].
  - apply (counting_ret tt).
  - apply counting_bind; [apply counting_step | intros _; apply IH].
Qed.

End Counting.

Lemma omap_sse_frames_version seq l ev sm : omap version_tick (sse_frames seq l ev sm) = [].
Proof. revert seq. induction l as [|x l IH]; intros seq; [done |]. cbn. apply IH. Qed.

Lemma omap_sse_frames_tick seq l ev sm :
  consecutive seq (omap frame_tick (sse_frames seq l ev sm))
  ∧ length (omap frame_tick (sse_frames seq l ev sm)) = length l.
Proof.
  revert seq. induction l as [|x l IH]; intros seq; [done |]. cbn.
  destruct (IH (seq + 1)) as [IH1 IH2]. split; [by split | by rewrite IH2].
Qed.

Lemma omap_sse_frames_target seq l ev sm :
  omap frame_target (sse_frames seq l ev sm) = l.
Proof. revert seq. induction l as [|x l IH]; intros seq; [done |]. cbn. by rewrite IH. Qed.

Lemma version_tick_notifications effs :
  omap version_tick effs = map Summary.version (notifications effs).
Proof.
  induction effs as [|e effs IH]; [done |].
  destruct e; cbn -[notifications]; try done.
  unfold notifications in *. cbn. by f_equal.
Qed.

Lemma counting_versions cfg parse evs :
  counting connectionsVersion version_tick (run cfg parse evs).
Proof.
  apply counting_run; [done | done | done | done | | |].
  - intros t reason ids s. unfold run_effects, run_state. rewrite bump_eq. cbn.
    rewrite omap_sse_frames_version. cbn. split; [done | lia].
  - intros res ev sm s. unfold run_effects, run_state. rewrite sseSend_eq. cbn.
    split; [done | lia].
  - by intros [].
Qed.

Lemma counting_frames cfg parse evs :
  counting sseSeq frame_tick (run cfg parse evs).
Proof.
  apply counting_run; [done | done | done | done | | |].
  - intros t reason ids s. unfold run_effects, run_state. rewrite bump_eq. cbn.
    destruct (omap_sse_frames_tick (sseSeq s) (sseClients s) "connections"
                (summary_of t reason ids s)) as [H1 H2].
    split; [done | by rewrite H2].
  - intros res ev sm s. unfold run_effects, run_state. rewrite sseSend_eq. cbn.
    split; [done | lia].
  - by intros [].
Qed.

(** X3.  Over any run, the summaries published by [bumpAndNotify] carry
    the versions [v+1, v+2, ...] in order, where [v] is the version at
    the start: never a gap, never a repeat.  The version a snapshot
    reports afterwards is that of the last summary published. *)
Theorem versions_count_up :
  ∀ (cfg : Config) (parse : string → option json) (evs : list (Z * Event))
    (s : Engine),
    let published := notifications (run_effects (run cfg parse evs) s) in
    let s' := run_state (run cfg parse evs) s in
    consecutive (connectionsVersion s) (map Summary.version published)
    ∧ (∀ sm, In sm published → connectionsVersion s < Summary.version sm)
    ∧ connectionsVersion s' = connectionsVersion s + Z.of_nat (length published)
    ∧ ∀ t, get "version" (connectionsSnapshot t s')
           = Some (jint (connectionsVersion s + Z.of_nat (length published))).
Proof.
  intros cfg parse evs s. cbn zeta.
  destruct (counting_versions cfg parse evs s) as [H1 H2].
  rewrite version_tick_notifications in H1, H2. rewrite length_map in H2.
  split; [done |]. split; [| split; [done |]].
  - intros sm Hin. eapply consecutive_lt; [exact H1 |]. by apply in_map.
  - intros t. cbn. by rewrite H2.
Qed.

(** X4.  A publication writes exactly one frame to every subscriber of
    the event stream, in subscription order, each carrying the published
    summary under the event name [connections]; and over any run the
    [id:] numbers of the frames written, to whichever subscriber, count
    up by one. *)
Theorem frames_reach_every_subscriber :
  (∀ (t : Z) (reason : Reason) (ids : option (list string)) (s : Engine),
     let effs := run_effects (bumpAndNotify t reason ids) s in
     ∃ sm, notifications effs = [sm]
       ∧ omap frame_target effs = sseClients s
       ∧ ∀ e, In e effs → e = Notify sm ∨ ∃ res n, e = SseFrame res n "connections" sm)
  ∧ (∀ (cfg : Config) (parse : string → option json) (evs : list (Z * Event))
       (s : Engine),
       consecutive (sseSeq s) (omap frame_tick (run_effects (run cfg parse evs) s))
       ∧ sseSeq (run_state (run cfg parse evs) s)
         = sseSeq s
           + Z.of_nat (length (omap frame_tick (run_effects (run cfg parse evs) s)))).
Proof.
  split.
  - intros t reason ids s. cbn zeta. unfold run_effects. rewrite bump_eq. cbn [snd].
    eexists. split; [| split].
    + cbn. by rewrite notifications_sse_frames.
    + cbn. apply omap_sse_frames_target.
    + intros e [<- | Hin]; [by left | right]. by apply In_sse_frames in Hin.
  - intros cfg parse evs s. apply (counting_frames cfg parse evs s).
Qed.

(** ** Shell output, attach and detach *)

(** X5.  A chunk of shell output is sent, as one binary frame each, to
    exactly the peers of the session whose socket is open, in the order
    they attached; peers that are not open are skipped but stay in the
    peer set, and nothing else changes but [lastActivityAt]. *)
Theorem shell_output_reaches_open_peers :
  ∀ (cfg : Config) (parse : string → option json) (s : Engine) (t : Z)
    (r : nat) (c : Conn.t) (chunk : list Byte.byte),
    deref s r = Some c → present (Conn.shell c) = true →
    let out := step cfg parse t (StreamData r chunk) s in
    out.2 = map (λ w, WsSend w (FrameBuffer chunk))
              (List.filter (socket_open s) (Conn.clients c))
    ∧ (∀ w, In (WsSend w (FrameBuffer chunk)) out.2
            ↔ In w (Conn.clients c) ∧ socket_open s w = true)
    ∧ deref out.1.2 r = Some (Conn.set_lastActivityAt t c)
    ∧ sockets out.1.2 = sockets s
    ∧ connections out.1.2 = connections s
    ∧ connectionsVersion out.1.2 = connectionsVersion s.
Proof.
  intros cfg parse s t r c chunk Hc Hsh. cbn zeta. cbn [step].
  rewrite (onShellData_eq _ _ _ _ _ Hc Hsh). cbn [fst snd].
  split; [done |]. split; [| split; [| done]].
  - intros w. rewrite in_map_iff. split.
    + intros (w' & [= ->] & Hin). by apply filter_In in Hin.
    + intros Hin. exists w. split; [done |]. by apply filter_In.
  - by rewrite deref_alter, decide_True, Hc by done.
Qed.

Lemma shell_output_reaches_open_peers_witness :
  (∃ c, deref ex_attached 0 = Some c ∧ present (Conn.shell c) = true)
  ∧ (step demo_cfg demo_parse 1005 (StreamData 0 [Byte.x68; Byte.x69]) ex_attached).2
    = [WsSend 0 (FrameBuffer [Byte.x68; Byte.x69])].
Proof.
  split; [eexists; split; reflexivity |].
  exact (proj1 (shell_output_reaches_open_peers demo_cfg demo_parse ex_attached 1005 0 _
                  [Byte.x68; Byte.x69] eq_refl eq_refl)).
Defined.

(** X6.  DELETE of a registered session answers 200; a second DELETE of
    the same id answers 404 and does nothing else: no state change, no
    summary.  So does DELETE of an id that was never registered. *)
Theorem delete_then_not_found :
  ∀ (cfg : Config) (parse : string → option json) (s : Engine) (t t' : Z)
    (req req' : nat) (id : string),
    (∀ r c, map_get id (connections s) = Some r → deref s r = Some c →
       Conn.id c = id →
       let once := step cfg parse t (DeleteConnection req id) s in
       In (HttpResponse req 200 ok_true) once.2
       ∧ step cfg parse t' (DeleteConnection req' id) once.1.2
         = (tt, once.1.2, [HttpResponse req' 404 not_found]))
    ∧ (map_get id (connections s) = None →
       step cfg parse t (DeleteConnection req id) s
       = (tt, s, [HttpResponse req 404 not_found])).
Proof.
  intros cfg parse s t t' req req' id. split.
  - intros r c Hget Hc Hid. cbn zeta.
    rewrite (step_delete _ _ _ _ _ _ _ _ Hget Hc). cbn [fst snd]. split.
    + apply in_or_app. right. by left.
    + apply step_delete_unknown. cbn. rewrite Hid. apply map_get_delete.
  - apply step_delete_unknown.
Qed.

Lemma delete_then_not_found_witness :
  map_get "X" (connections ex_attached) = Some 0%nat
  ∧ step demo_cfg demo_parse 2001 (DeleteConnection 8 "X")
      (step demo_cfg demo_parse 2000 (DeleteConnection 7 "X") ex_attached).1.2
    = (tt, (step demo_cfg demo_parse 2000 (DeleteConnection 7 "X") ex_attached).1.2,
       [HttpResponse 8 404 not_found]).
Proof.
  split; [reflexivity |].
  exact (proj2 (proj1 (delete_then_not_found demo_cfg demo_parse ex_attached 2000 2001
                         7 8 "X") 0%nat _ eq_refl eq_refl eq_refl)).
Defined.

(** X7.  An upgrade for an id that is not registered destroys the raw
    socket and changes nothing.  An upgrade for a registered session that
    is not [ready], or has no shell stream, closes the new WebSocket with
    1011 "Connection not ready": the peer is not added to the session,
    no listener is installed on it and nothing is published. *)
Theorem upgrade_refused :
  ∀ (cfg : Config) (parse : string → option json) (s : Engine) (t : Z)
    (id : string) (readOnly : bool),
    let out := step cfg parse t (Upgrade id readOnly) s in
    (map_get id (connections s) = None → out = (tt, s, [SocketDestroy]))
    ∧ (∀ r c, map_get id (connections s) = Some r → deref s r = Some c →
         Conn.state c ≠ Ready ∨ Conn.shell c = None →
         out.2 = [WsClose (length (sockets s)) 1011 "Connection not ready"]
         ∧ heap out.1.2 = heap s
         ∧ connections out.1.2 = connections s
         ∧ connectionsVersion out.1.2 = connectionsVersion s
         ∧ sockets out.1.2 !! length (sockets s)
           = Some {| readyState := WS_CLOSING; listeners := None |}).
Proof.
  intros cfg parse s t id readOnly. cbn zeta. cbn [step]. split.
  - apply onUpgrade_unknown.
  - intros r c Hget Hc Hno. rewrite (onUpgrade_known _ _ _ _ _ Hget).
    rewrite (attachWebSocket_refused _ _ _ _ _ c) by done. cbn [fst snd].
    repeat split. cbn. rewrite list_lookup_alter_eq, list_lookup_middle by done.
    reflexivity.
Qed.

Lemma upgrade_refused_witness :
  map_get "X" (connections ex_connecting) = Some 0%nat
  ∧ (step demo_cfg demo_parse 1001 (Upgrade "X" false) ex_connecting).2
    = [WsClose 0 1011 "Connection not ready"].
Proof.
  split; [reflexivity |].
  destruct (upgrade_refused demo_cfg demo_parse ex_connecting 1001 "X" false) as [_ H].
  destruct (H 0%nat _ eq_refl eq_refl) as [Heff _]; [by left | exact Heff].
Defined.

Lemma set_add_In w l : In w (set_add w l).
Proof.
  unfold set_add. destruct (set_has w l) eqn:E.
  - induction l as [|x l IH]; [done |]. cbn in E.
    destruct (Nat.eqb_spec x w) as [-> | ?]; [by left | right; by apply IH].
  - apply in_or_app. right. by left.
Qed.

Lemma set_add_keeps w w' l : In w' l → In w' (set_add w l).
Proof.
  unfold set_add. destruct (set_has w l); [done |]. intros ?. apply in_or_app. by left.
Qed.

(** X8.  An upgrade for a [ready] session with a shell stream attaches
    the new WebSocket: it joins the peer set (the peers already there
    stay), [lastActivityAt] is set, one [ws-attached] summary is
    published, the banner is sent to the new peer and to no other, and
    the listeners of the socket are bound to this session with the
    requested [readOnly] flag. *)
Theorem upgrade_attaches :
  ∀ (cfg : Config) (parse : string → option json) (s : Engine) (t : Z)
    (id : string) (readOnly : bool) (r : nat) (c : Conn.t),
    map_get id (connections s) = Some r → deref s r = Some c →
    Conn.state c = Ready → present (Conn.shell c) = true →
    let out := step cfg parse t (Upgrade id readOnly) s in
    let w := length (sockets s) in
    deref out.1.2 r
    = Some (Conn.set_lastActivityAt t (Conn.set_clients (set_add w (Conn.clients c)) c))
    ∧ In w (set_add w (Conn.clients c))
    ∧ (∀ w', In w' (Conn.clients c) → In w' (set_add w (Conn.clients c)))
    ∧ sockets out.1.2 !! w
      = Some {| readyState := WS_OPEN; listeners := Some (r, readOnly) |}
    ∧ (∃ sm, notifications out.2 = [sm]
         ∧ Summary.reason sm = ws_attached
         ∧ Summary.changedIds sm = Some [Conn.id c])
    ∧ (∀ w' f, In (WsSend w' f) out.2 ↔ w' = w ∧ f = banner_frame).
Proof.
  intros cfg parse s t id readOnly r c Hget Hc Hst Hsh. cbn zeta. cbn [step].
  rewrite (onUpgrade_known _ _ _ _ _ Hget).
  rewrite (attachWebSocket_eq _ _ _ _ _ c) by done. cbn [fst snd].
  split; [by rewrite (deref_attached _ _ _ _ (accepted s) c) |].
  split; [apply set_add_In |]. split; [intros w'; apply set_add_keeps |].
  split; [| split].
  - cbn. rewrite list_lookup_alter_eq, list_lookup_middle by done. reflexivity.
  - eexists. cbn. rewrite notifications_app, notifications_sse_frames. done.
  - intros w' f. split.
    + intros [[=] | [(? & ? & [=])%In_sse_frames | [[= <- <-] | []]]%in_app_or]. done.
    + intros [-> ->]. right. apply in_or_app. right. by left.
Qed.

Lemma upgrade_attaches_witness :
  map_get "X" (connections ex_ready) = Some 0%nat
  ∧ sockets (step demo_cfg demo_parse 1003 (Upgrade "X" true) ex_ready).1.2 !! 0%nat
    = Some {| readyState := WS_OPEN; listeners := Some (0%nat, true) |}.
Proof.
  split; [reflexivity |].
  destruct (upgrade_attaches demo_cfg demo_parse ex_ready 1003 "X" true 0 _
              eq_refl eq_refl eq_refl eq_refl) as (_ & _ & _ & Hsock & _).
  exact Hsock.
Defined.

(** ** Frames of a read-write peer *)

Lemma onMessage_raw parse t w r data s :
  (tryParseControlMessage parse data = None
   ∨ ∃ ctrl, tryParseControlMessage parse data = Some ctrl
             ∧ ¬ In (type_of ctrl) control_types) →
  onMessage parse t w r false data s =
  (tt, run_state (touch t r) s, [ShellWrite r (Raw data)]).
Proof.
  intros H. unfold onMessage. rewrite bind_unfold. cbn [touch mutate update fst snd].
  destruct H as [-> | (ctrl & -> & Hty)]; [reflexivity |].
  unfold control_types in Hty. cbn in Hty.
  destruct (String.eqb_spec (type_of ctrl) "resize") as [E | _];
    [exfalso; apply Hty; rewrite E; intuition |].
  destruct (String.eqb_spec (type_of ctrl) "stdin") as [E | _];
    [exfalso; apply Hty; rewrite E; intuition |].
  destruct (String.eqb_spec (type_of ctrl) "ping") as [E | _];
    [exfalso; apply Hty; rewrite E; intuition |].
  destruct (String.eqb_spec (type_of ctrl) "detach") as [E | _];
    [exfalso; apply Hty; rewrite E; intuition |].
  reflexivity.
Qed.

(** X9.  From a peer that is not read-only, every frame that is not one
    of the four control messages goes to the shell as it came: binary
    frames, text that is not wrapped in braces after trimming (for these
    [JSON.parse] is not even called), text [JSON.parse] rejects, JSON
    without a string [type], and tagged objects of an unknown type. *)
Theorem other_frames_pass_through :
  ∀ (cfg : Config) (parse : string → option json) (s : Engine) (t : Z)
    (w : nat) (so : Socket) (r : nat) (data : RawData),
    sockets s !! w = Some so → listeners so = Some (r, false) →
    (∀ b, tryParseControlMessage parse (Binary b) = None)
    ∧ (∀ d, startsWith "{" (trim d) && endsWith "}" (trim d) = false →
         tryParseControlMessage parse (Text d) = None)
    ∧ (∀ d, parse (trim d) = None → tryParseControlMessage parse (Text d) = None)
    ∧ (∀ d kvs, parse (trim d) = Some (JObj kvs) →
         (∀ ty, field "type" kvs ≠ Some (JStr ty)) →
         tryParseControlMessage parse (Text d) = None)
    ∧ ((tryParseControlMessage parse data = None
        ∨ ∃ ctrl, tryParseControlMessage parse data = Some ctrl
                  ∧ ¬ In (type_of ctrl) control_types) →
       step cfg parse t (WsMessage w data) s
       = (tt, run_state (touch t r) s, [ShellWrite r (Raw data)])).
Proof.
  intros cfg parse s t w so r data Hw Hl. split; [done |]. split; [| split; [| split]].
  - intros d H. cbn. by rewrite H.
  - intros d H. cbn. rewrite H. by destruct (_ && _).
  - intros d kvs H Hty. cbn. rewrite H. destruct (_ && _); [| done].
    destruct (field "type" kvs) as [[]|] eqn:E; try done. by destruct (Hty s0).
  - intros H. cbn [step]. rewrite (withListeners_some _ _ _ _ _ _ Hw Hl).
    by apply onMessage_raw.
Qed.

Lemma other_frames_pass_through_witness :
  (listeners <$> sockets ex_attached !! 0%nat) = Some (Some (0%nat, false))
  ∧ step demo_cfg demo_parse 1005 (WsMessage 0 (Binary [Byte.x6c; Byte.x73])) ex_attached
    = (tt, run_state (touch 1005 0) ex_attached,
       [ShellWrite 0 (Raw (Binary [Byte.x6c; Byte.x73]))]).
Proof.
  split; [reflexivity |].
  destruct (other_frames_pass_through demo_cfg demo_parse ex_attached 1005 0 _ 0
              (Binary [Byte.x6c; Byte.x73]) eq_refl eq_refl) as (_ & _ & _ & _ & H).
  apply H. by left.
Defined.

Lemma emits_bump_quiet t reason ids :
  is_resize reason = false →
  emits (λ e, control_effect e = false) (bumpAndNotify t reason ids).
Proof.
  intros Hr s. unfold run_effects. rewrite bump_eq. cbn [snd]. constructor; [exact Hr |].
  apply List.Forall_forall. intros e (res & n & ->)%In_sse_frames. exact Hr.
Qed.

Ltac control_go :=
  repeat lazymatch goal with
  | |- emits _ (bumpAndNotify _ _ _) => apply emits_bump_quiet; reflexivity
  | |- emits _ (_ ≫= _) => apply emits_bind; [| intros ?]
  | |- emits _ (mret _) => apply emits_ret
  | |- emits _ skip => apply emits_skip
  | |- emits _ read => apply emits_read
  | |- emits _ (update _) => apply emits_update
  | |- emits _ (forEach _ _) => apply emits_forEach; intros ?
  | |- emits _ (withConn _ _) => apply emits_withConn; intros ?
  | |- emits _ (emit _) => apply emits_emit; reflexivity
  | |- emits _ (match ?x with _ => _ end) => destruct x
  | |- emits _ ?m => let h := head_of m in unfold h
  end.

Lemma emits_step_quiet cfg parse t ev :
  delivered ev = true → http_resize ev = false →
  emits (λ e, control_effect e = false) (step cfg parse t ev).
Proof.
  intros Hd Hr. destruct ev; try discriminate Hr; cbn [step].
  15: { destruct data as [d | b]; [discriminate Hd |].
        unfold withListeners, onMessage. cbn [tryParseControlMessage]. control_go. }
  all: control_go.
Qed.

Lemma emits_run_quiet cfg parse evs :
  Forall (λ x : Z * Event, delivered x.2 = true ∧ http_resize x.2 = false) evs →
  emits (λ e, control_effect e = false) (run cfg parse evs).
Proof.
  induction 1 as [|[t ev] evs [Hd Hr] _ IH]; cbn [run].
  - apply emits_skip.
  - apply emits_bind; [by apply emits_step_quiet | intros _; apply IH].
Qed.

(** X10.  A frame reaches the [message] listener as a [Buffer], for which
    [tryParseControlMessage] returns null, whatever [JSON.parse] would make
    of its text.  From a peer that is not read-only its bytes are written
    to the shell as they came, also when they spell a [stdin], [resize],
    [ping] or [detach] control message.  So over any run of such events
    without an HTTP resize the server sends no [pong], closes no peer
    with code 1000, writes no [String(data)] to a shell, requests no
    window change and publishes no summary of reason [resize]. *)
Theorem buffer_frames_are_never_control :
  ∀ (cfg : Config) (parse : string → option json),
    (∀ (s : Engine) (t : Z) (w : nat) (so : Socket) (r : nat) (b : list Byte.byte),
       sockets s !! w = Some so → listeners so = Some (r, false) →
       tryParseControlMessage parse (Binary b) = None
       ∧ step cfg parse t (WsMessage w (Binary b)) s
         = (tt, run_state (touch t r) s, [ShellWrite r (Raw (Binary b))]))
    ∧ (∀ (evs : list (Z * Event)) (s : Engine),
         Forall (λ x, delivered x.2 = true ∧ http_resize x.2 = false) evs →
         ∀ e, In e (run_effects (run cfg parse evs) s) →
           (∀ w j, e ≠ WsSend w (FrameJson j))
           ∧ (∀ w why, e ≠ WsClose w 1000 why)
           ∧ (∀ r j, e ≠ ShellWrite r (StringOf j))
           ∧ (∀ r rows cols, e ≠ ShellSetWindow r rows cols)
           ∧ (∀ sm, published e = Some sm → Summary.reason sm ≠ resize)).
Proof.
  intros cfg parse. split.
  - intros s t w so r b Hw Hl. split; [reflexivity |]. cbn [step].
    by rewrite (withListeners_some _ _ _ _ _ _ Hw Hl).
  - intros evs s Hevs e Hin.
    pose proof (proj1 (List.Forall_forall _ _) (emits_run_quiet cfg parse evs Hevs s) e Hin)
      as He.
    repeat split.
    + intros w j ->. discriminate He.
    + intros w why ->. discriminate He.
    + intros r j ->. discriminate He.
    + intros r rows cols ->. discriminate He.
    + intros sm Hp Hres. destruct e; try discriminate Hp; injection Hp as ->;
        cbn in He; by rewrite Hres in He.
Qed.

(** X10, on the sample: the read-write peer of [X] sends the frames
    [{"type":"stdin","data":"ls"}], [{"type":"ping"}] and
    [{"type":"detach"}]. *)
Lemma buffer_frames_are_never_control_witness :
  (listeners <$> sockets ex_attached !! 0%nat) = Some (Some (0%nat, false))
  ∧ demo_parse_stdin stdin_text = Some (JObj [("type", JStr "stdin"); ("data", JStr "ls")])
  ∧ step demo_cfg demo_parse_stdin 1005 (WsMessage 0 stdin_frame) ex_attached
    = (tt, run_state (touch 1005 0) ex_attached,
       [ShellWrite 0 (Raw stdin_frame)])
  ∧ ¬ In (WsSend 0 (FrameJson (JObj [("type", JStr "pong")])))
        (run_effects
           (run demo_cfg demo_parse_stdin
              [(1005, WsMessage 0 ping_frame); (1006, WsMessage 0 detach_frame)])
           ex_attached).
Proof.
  destruct (buffer_frames_are_never_control demo_cfg demo_parse_stdin) as [Hone Hrun].
  split; [reflexivity |]. split; [reflexivity |]. split.
  - exact (proj2 (Hone ex_attached 1005 0%nat _ 0%nat
                    (String.list_byte_of_string stdin_text) eq_refl eq_refl)).
  - intros Hin.
    assert (Forall (λ x : Z * Event, delivered x.2 = true ∧ http_resize x.2 = false)
              [(1005, WsMessage 0 ping_frame); (1006, WsMessage 0 detach_frame)]) as Hevs
      by (repeat constructor).
    destruct (Hrun _ ex_attached Hevs _ Hin) as [Hpong _].
    exact (Hpong _ _ eq_refl).
Defined.

Lemma cleanup_eq t w r s c :
  deref s r = Some c →
  cleanup t w r s =
  (tt, detached t w r s,
   Notify (summary_of t ws_detached (Some [Conn.id c])
     (set_heap
       (alter (on_conn (Conn.set_lastActivityAt t)) r
         (alter (on_conn (λ c, Conn.set_clients (set_delete w (Conn.clients c)) c)) r
           (heap s))) s))
   :: sse_frames (sseSeq s) (sseClients s) "connections"
        (summary_of t ws_detached (Some [Conn.id c])
          (set_heap
            (alter (on_conn (Conn.set_lastActivityAt t)) r
              (alter (on_conn (λ c, Conn.set_clients (set_delete w (Conn.clients c)) c)) r
                (heap s))) s))).
Proof.
  intros Hc. unfold cleanup. rewrite !bind_unfold. cbn [touch mutate update fst snd].
  erewrite withConn_some.
  2:{ unfold deref in *. cbn. rewrite !lookup_on_conn, !decide_True by done.
      rewrite Hc. reflexivity. }
  rewrite bump_eq. reflexivity.
Qed.

Lemma set_delete_not_in w l : ¬ In w (set_delete w l).
Proof.
  induction l as [|x l IH]; [by intros [] |]. cbn.
  destruct (Nat.eqb_spec x w) as [-> | Hne]; [done |]. intros [-> | ?]; done.
Qed.

Lemma set_delete_keeps w w' l : w' ≠ w → In w' l → In w' (set_delete w l).
Proof.
  intros Hne. induction l as [|x l IH]; [done |]. cbn.
  destruct (Nat.eqb_spec x w) as [-> | ?].
  - intros [-> | ?]; [done | by apply IH].
  - intros [-> | ?]; [by left | right; by apply IH].
Qed.

Lemma deref_detached t w r s c :
  deref s r = Some c →
  deref (detached t w r s) r =
  Some (Conn.set_lastActivityAt t (Conn.set_clients (set_delete w (Conn.clients c)) c)).
Proof.
  intros Hc. unfold deref in *. cbn. rewrite !lookup_on_conn, !decide_True by done.
  by rewrite Hc.
Qed.

Lemma run_two cfg parse t1 e1 t2 e2 s :
  run_effects (run cfg parse [(t1, e1); (t2, e2)]) s =
  (step cfg parse t1 e1 s).2 ++ (step cfg parse t2 e2 (step cfg parse t1 e1 s).1.2).2.
Proof.
  cbn [run]. rewrite !run_effects_bind. unfold run_effects, run_state, skip, ret.
  cbn [snd]. by rewrite app_nil_r.
Qed.

(** X11.  When an attached WebSocket closes, or reports an error, it is
    removed from the peer set of its session, the other peers stay,
    [lastActivityAt] is set, and one [ws-detached] summary is published.
    The same listener serves both events and does not look at the peer
    set first: an error followed by the close publishes [ws-detached]
    twice. *)
Theorem detach_on_close_and_on_error :
  ∀ (cfg : Config) (parse : string → option json) (s : Engine) (t : Z)
    (w : nat) (so : Socket) (r : nat) (readOnly : bool) (c : Conn.t),
    sockets s !! w = Some so → listeners so = Some (r, readOnly) →
    deref s r = Some c →
    (∀ ev, ev = WsClosed w ∨ ev = WsError w →
       let out := step cfg parse t ev s in
       deref out.1.2 r
       = Some (Conn.set_lastActivityAt t
                 (Conn.set_clients (set_delete w (Conn.clients c)) c))
       ∧ ¬ In w (set_delete w (Conn.clients c))
       ∧ (∀ w', w' ≠ w → In w' (Conn.clients c) → In w' (set_delete w (Conn.clients c)))
       ∧ (∃ sm, notifications out.2 = [sm]
            ∧ Summary.reason sm = ws_detached
            ∧ Summary.changedIds sm = Some [Conn.id c]))
    ∧ (∀ t',
         map Summary.reason
           (notifications
              (run_effects (run cfg parse [(t, WsError w); (t', WsClosed w)]) s))
         = [ws_detached; ws_detached]).
Proof.
  intros cfg parse s t w so r readOnly c Hw Hl Hc.
  assert (∀ t0 s0 c0, sockets s0 !! w = Some so → deref s0 r = Some c0 →
            step cfg parse t0 (WsError w) s0 = cleanup t0 w r s0) as Herr.
  { intros t0 s0 c0 Hw0 Hc0. cbn [step]. by rewrite (withListeners_some _ _ _ _ _ _ Hw0 Hl). }
  assert (∀ t0 s0 c0, sockets s0 !! w = Some so → deref s0 r = Some c0 →
            step cfg parse t0 (WsClosed w) s0 =
            cleanup t0 w r (run_state (set_readyState w WS_CLOSED) s0)) as Hclose.
  { intros t0 s0 c0 Hw0 Hc0. cbn [step]. rewrite bind_unfold. unfold run_state.
    cbn [set_readyState update fst snd]. unfold prepend. cbn [app].
    erewrite (withListeners_some _ _ _ _ r readOnly).
    - by destruct (cleanup _ _ _ _) as [[[] ?] ?].
    - cbn. rewrite list_lookup_alter_eq, Hw0. reflexivity.
    - exact Hl. }
  split.
  - intros ev Hev. cbn zeta.
    assert (∃ s0, step cfg parse t ev s = cleanup t w r s0 ∧ deref s0 r = Some c)
      as (s0 & -> & Hc0).
    { destruct Hev as [-> | ->]; eexists; split;
        [by eapply Hclose | done | by eapply Herr | done]. }
    rewrite (cleanup_eq _ _ _ _ _ Hc0). cbn [fst snd].
    split; [by apply deref_detached |].
    split; [apply set_delete_not_in |]. split; [intros w'; apply set_delete_keeps |].
    eexists. cbn. rewrite notifications_sse_frames. done.
  - intros t'. rewrite run_two.
    rewrite (Herr _ _ _ Hw Hc), (cleanup_eq _ _ _ _ _ Hc). cbn [fst snd].
    rewrite (Hclose t' (detached t w r s) _ Hw (deref_detached _ _ _ _ _ Hc)).
    erewrite cleanup_eq.
    2:{ change (deref (run_state (set_readyState w WS_CLOSED) (detached t w r s)) r)
          with (deref (detached t w r s) r). by apply deref_detached. }
    cbn [snd]. rewrite !notifications_app. cbn. rewrite !notifications_sse_frames. done.
Qed.

Lemma detach_on_close_and_on_error_witness :
  (listeners <$> sockets ex_attached !! 0%nat) = Some (Some (0%nat, false))
  ∧ Conn.clients <$> deref (step demo_cfg demo_parse 1005 (WsClosed 0) ex_attached).1.2 0
    = Some [].
Proof.
  split; [reflexivity |].
  destruct (detach_on_close_and_on_error demo_cfg demo_parse ex_attached 1005 0 _ 0 false _
              eq_refl eq_refl eq_refl) as [H _].
  destruct (H (WsClosed 0) (or_introl eq_refl)) as [Hd _].
  cbn zeta in Hd. by rewrite Hd.
Defined.

(** ** The two awaits of [createConnection] *)

Lemma pending_of_alter_conn s r f r' :
  pending_of (set_heap (alter (on_conn f) r (heap s)) s) r' = pending_of s r'.
Proof.
  unfold pending_of. cbn. destruct (decide (r = r')) as [-> | ?].
  - rewrite list_lookup_alter_eq. by destruct (heap s !! r').
  - by rewrite list_lookup_alter_ne.
Qed.

Lemma lookup_pending (h : list Cell) r p r' :
  conn <$> alter (λ x, {| conn := conn x; pending := p |}) r h !! r' = conn <$> h !! r'.
Proof.
  destruct (decide (r = r')) as [-> | E].
  - rewrite list_lookup_alter_eq. by destruct (h !! r').
  - by rewrite list_lookup_alter_ne.
Qed.

Lemma onSshReady_eq r s req c :
  pending_of s r = AwaitSsh req → deref s r = Some c →
  onSshReady r s =
  (tt, set_heap (alter (λ x, {| conn := conn x; pending := AwaitShell req |}) r (heap s)) s,
   [SshShell r "xterm-256color" (Conn.cols c) (Conn.rows c)]).
Proof.
  intros Hp Hc. unfold onSshReady. rewrite bind_unfold. cbn [read fst snd]. rewrite Hp.
  rewrite bind_unfold. cbn [set_pending update fst snd].
  erewrite withConn_some by (rewrite deref_pending; exact Hc). reflexivity.
Qed.

Lemma pending_of_set s r c p :
  deref s r = Some c →
  pending_of (set_heap (alter (λ x, {| conn := conn x; pending := p |}) r (heap s)) s) r = p.
Proof.
  unfold deref, pending_of. cbn. rewrite list_lookup_alter_eq.
  by destruct (heap s !! r).
Qed.

(** X12.  When the SSH client becomes ready for a pending create, the
    shell is requested with terminal [xterm-256color] and the size stored
    in the record, and nothing else happens.  Once that first wait is
    over, the [ready] and [error] events of the SSH client have no effect
    at all: an SSH error after the handshake changes no state, closes no
    peer, publishes nothing and answers no request. *)
Theorem ssh_events_around_the_handshake :
  ∀ (cfg : Config) (parse : string → option json) (s : Engine) (t : Z) (r : nat),
    (∀ req c, pending_of s r = AwaitSsh req → deref s r = Some c →
       let out := step cfg parse t (SshReady r) s in
       out.2 = [SshShell r "xterm-256color" (Conn.cols c) (Conn.rows c)]
       ∧ pending_of out.1.2 r = AwaitShell req
       ∧ (∀ r', deref out.1.2 r' = deref s r')
       ∧ connections out.1.2 = connections s)
    ∧ ((∀ req, pending_of s r ≠ AwaitSsh req) →
       step cfg parse t (SshReady r) s = (tt, s, [])
       ∧ ∀ message, step cfg parse t (SshError r message) s = (tt, s, [])).
Proof.
  intros cfg parse s t r. split.
  - intros req c Hp Hc. cbn zeta. cbn [step].
    rewrite (onSshReady_eq _ _ _ _ Hp Hc). cbn [fst snd].
    split; [done |]. split; [by eapply pending_of_set |].
    split; [intros r'; apply deref_pending | done].
  - intros Hp. cbn [step]. unfold onSshReady, onSshError.
    split; [| intros message]; rewrite bind_unfold; cbn [read fst snd];
      (destruct (pending_of s r) as [req | req |]; [by destruct (Hp req) | done | done]).
Qed.

Lemma ssh_events_around_the_handshake_witness :
  pending_of ex_ready 0 = Settled
  ∧ step demo_cfg demo_parse 1005 (SshError 0 "Keepalive timeout") ex_ready
    = (tt, ex_ready, []).
Proof.
  split; [reflexivity |].
  destruct (ssh_events_around_the_handshake demo_cfg demo_parse ex_ready 1005 0) as [_ H].
  destruct H as [_ H]; [intros req; discriminate | exact (H "Keepalive timeout")].
Defined.

Lemma onShellOpened_eq cfg t r s req c :
  pending_of s r = AwaitShell req → deref s r = Some c →
  (onShellOpened cfg t r s).2 =
    Notify (summary_of t state_changed (Some [Conn.id c])
      (set_heap
        (alter (on_conn (Conn.set_lastActivityAt t)) r
          (alter (on_conn (Conn.set_state Ready)) r
            (alter (on_conn (Conn.set_shell (Some r))) r (heap s)))) s))
    :: sse_frames (sseSeq s) (sseClients s) "connections"
         (summary_of t state_changed (Some [Conn.id c])
           (set_heap
             (alter (on_conn (Conn.set_lastActivityAt t)) r
               (alter (on_conn (Conn.set_state Ready)) r
                 (alter (on_conn (Conn.set_shell (Some r))) r (heap s)))) s))
    ++ [HttpResponse req 201 (created_json cfg (opened t r c))]
  ∧ (onShellOpened cfg t r s).1.2 =
    set_heap
      (alter (λ x, {| conn := conn x; pending := Settled |}) r
        (alter (on_conn (Conn.set_lastActivityAt t)) r
          (alter (on_conn (Conn.set_state Ready)) r
            (alter (on_conn (Conn.set_shell (Some r))) r (heap s)))))
      (bumped s).
Proof.
  intros Hp Hc. unfold onShellOpened. rewrite bind_unfold. cbn [read fst snd]. rewrite Hp.
  rewrite !bind_unfold. cbn [mutate touch update fst snd].
  assert (∀ s0, heap s0 = alter (on_conn (Conn.set_lastActivityAt t)) r
            (alter (on_conn (Conn.set_state Ready)) r
              (alter (on_conn (Conn.set_shell (Some r))) r (heap s))) →
          deref s0 r = Some (opened t r c)) as Hd.
  { intros s0 Hh. unfold deref in *. rewrite Hh, !lookup_on_conn, !decide_True by done.
    by rewrite Hc. }
  erewrite (withConn_some r _ _ (opened t r c)) by (by apply Hd).
  rewrite bump_eq. cbn [set_pending update fst snd].
  erewrite (withConn_some r _ _ (opened t r c)).
  2:{ rewrite deref_pending. by apply Hd. }
  unfold prepend. cbn [fst snd app sendJson emit]. split; reflexivity.
Qed.

(** X13.  When the shell opens for a pending create, the record gets its
    stream and becomes [ready] with [lastActivityAt] set, one summary of
    reason [state] is published, and the waiting request is answered 201
    with the record as in a snapshot but [wsPath], which is
    [BASE_PATH/ws/id], in place of [attachedClients]. *)
Theorem shell_open_completes_create :
  ∀ (cfg : Config) (parse : string → option json) (s : Engine) (t : Z)
    (r req : nat) (c : Conn.t),
    pending_of s r = AwaitShell req → deref s r = Some c →
    let out := step cfg parse t (ShellOpened r) s in
    let c' := opened t r c in
    deref out.1.2 r = Some c'
    ∧ Conn.state c' = Ready ∧ present (Conn.shell c') = true
    ∧ Conn.lastActivityAt c' = t
    ∧ pending_of out.1.2 r = Settled
    ∧ connections out.1.2 = connections s
    ∧ (∃ sm, notifications out.2 = [sm]
         ∧ Summary.reason sm = state_changed
         ∧ Summary.changedIds sm = Some [Conn.id c])
    ∧ (∀ req' status body,
         In (HttpResponse req' status body) out.2 ↔
         req' = req ∧ status = 201 ∧ body = created_json cfg c')
    ∧ get "state" (created_json cfg c') = Some (JStr "ready")
    ∧ get "wsPath" (created_json cfg c')
      = Some (JStr (BASE_PATH cfg +:+ "/ws/" +:+ Conn.id c)).
Proof.
  intros cfg parse s t r req c Hp Hc. cbn zeta. cbn [step].
  destruct (onShellOpened_eq cfg t r s req c Hp Hc) as [-> ->].
  split; [| split; [done | split; [done | split; [done | split; [| split; [done |]]]]]].
  - unfold deref in *. cbn. rewrite lookup_pending, !lookup_on_conn, !decide_True by done.
    by rewrite Hc.
  - unfold pending_of, deref in *. cbn. rewrite !list_lookup_alter_eq.
    by destruct (heap s !! r).
  - split; [| split; [| done]].
    + eexists. cbn. rewrite notifications_app, notifications_sse_frames. done.
    + intros req' status body. split.
      * intros [[=] | [(? & ? & [=])%In_sse_frames | [[= <- <- <-] | []]]%in_app_or]. done.
      * intros (-> & -> & ->). right. apply in_or_app. right. by left.
Qed.

Lemma shell_open_completes_create_witness :
  pending_of ex_opening 0 = AwaitShell 0
  ∧ Conn.state <$> deref (step demo_cfg demo_parse 1002 (ShellOpened 0) ex_opening).1.2 0
    = Some Ready.
Proof.
  split; [reflexivity |].
  destruct (shell_open_completes_create demo_cfg demo_parse ex_opening 1002 0 0 _
              eq_refl eq_refl) as [Hd _].
  cbn zeta in Hd. by rewrite Hd.
Defined.

(** ** The sweeper, again *)

Lemma sweepOne_sub t kv s x :
  In x (connections (sweepOne t kv s).1.2) → In x (connections s).
Proof.
  unfold sweepOne. rewrite bind_unfold. cbn [read fst snd prepend].
  destruct (map_get kv.1 (connections s)) as [r|]; [| done].
  destruct (deref s r) as [c|] eqn:Hc; [| by rewrite withConn_none].
  rewrite (withConn_some _ _ _ _ Hc). destruct (eligible s t c); [| done].
  rewrite (terminateConnection_eq _ _ _ _ _ _ Hc). cbn. destruct x as [k v].
  by intros [? _]%in_map_delete.
Qed.

Lemma sweep_loop_sub t l s x :
  In x (connections (forEach l (sweepOne t) s).1.2) → In x (connections s).
Proof.
  revert s. induction l as [|kv l IH]; intros s; [done |].
  cbn [forEach]. rewrite bind_unfold. cbn [fst snd prepend].
  intros H. by apply (sweepOne_sub t kv), IH.
Qed.

Lemma sweep_idle t l :
  ∀ cur,
    consistent cur → (∀ kv, In kv l → In kv (connections cur)) →
    (∀ id r c, In (id, r) l → deref cur r = Some c → eligible cur t c = false) →
    forEach l (sweepOne t) cur = (tt, cur, []).
Proof.
  induction l as [|[id r] l IH]; intros cur Hcons Hin Hidle; [done |].
  cbn [forEach]. rewrite bind_unfold.
  assert (In (id, r) (connections cur)) as Hin0 by (apply Hin; by left).
  destruct (proj2 Hcons _ _ Hin0) as (c & Hc & _).
  rewrite (sweepOne_eq _ _ _ _ _ Hcons Hin0 Hc), (Hidle id r c) by (done || by left).
  cbn [fst snd]. rewrite IH; [done | done | |].
  - intros kv ?. apply Hin. by right.
  - intros id' r' c' ?. apply (Hidle id'). by right.
Qed.

Lemma sweep_forEach t s : sweep t s = forEach (connections s) (sweepOne t) s.
Proof.
  unfold sweep. rewrite bind_unfold. cbn [read fst snd]. unfold prepend. cbn [app].
  by destruct (forEach _ _ _) as [[[] ?] ?].
Qed.

(** X14.  A sweeper tick leaves nothing for a second tick at the same
    time: run again on the state it produced, the sweep terminates no
    session, publishes nothing and changes nothing.  And a tick on a
    state where no session is both idle and without open peer is a
    no-op. *)
Theorem sweep_is_idempotent :
  ∀ (s : Engine) (t : Z),
    consistent s →
    sweep t (run_state (sweep t) s) = (tt, run_state (sweep t) s, [])
    ∧ ((∀ id r c, In (id, r) (connections s) → deref s r = Some c →
          eligible s t c = false) →
       sweep t s = (tt, s, [])).
Proof.
  intros s t Hcons. split.
  - destruct (sweep_loop t (connections s) s Hcons (proj1 Hcons) (λ _ H, H))
      as (Hcons1 & Hopen & _ & _ & _ & Hpt).
    cbn zeta in *. unfold run_state. rewrite (sweep_forEach t s).
    set (s1 := (forEach (connections s) (sweepOne t) s).1.2) in *.
    rewrite sweep_forEach. apply sweep_idle; [done | done |].
    intros id r c1 Hin1 Hc1.
    assert (In (id, r) (connections s)) as Hin
      by by apply (sweep_loop_sub t (connections s) s).
    destruct (proj2 Hcons _ _ Hin) as (c & Hc & _).
    destruct (Hpt id r c Hin Hc) as [Hgone Hkept].
    destruct (eligible s t c) eqn:He.
    + destruct (Hgone eq_refl) as (Hnone & _).
      rewrite (map_get_in _ _ _ (proj1 Hcons1) Hin1) in Hnone. done.
    + destruct (Hkept eq_refl) as (_ & Hsame & _).
      assert (c1 = c) as -> by congruence.
      by rewrite (eligible_ext s s1).
  - intros Hidle. rewrite sweep_forEach. by apply sweep_idle.
Qed.

Lemma sweep_is_idempotent_witness :
  consistent ex_shell_closed
  ∧ sweep 900000 (run_state (sweep 900000) ex_shell_closed)
    = (tt, run_state (sweep 900000) ex_shell_closed, []).
Proof.
  assert (consistent ex_shell_closed) as Hc by (apply consistentb_sound; reflexivity).
  split; [exact Hc |].
  exact (proj1 (sweep_is_idempotent ex_shell_closed 900000 Hc)).
Defined.

(** ** Strings *)

Lemma string_app_cons x (a b : string) : String x a +:+ b = String x (a +:+ b).
Proof. reflexivity. Qed.

Lemma string_app_assoc (a b c : string) : (a +:+ b) +:+ c = a +:+ (b +:+ c).
Proof. induction a as [|x a IH]; [done |]. rewrite !string_app_cons. by f_equal. Qed.

Lemma string_length_app (a b : string) :
  String.length (a +:+ b) = (String.length a + String.length b)%nat.
Proof.
  induction a as [|x a IH]; [done |]. rewrite string_app_cons. cbn [String.length Nat.add].
  by f_equal.
Qed.

Lemma prefix_app (a b : string) : String.prefix a (a +:+ b) = true.
Proof.
  induction a as [|x a IH]; [by destruct b |]. rewrite string_app_cons. cbn [String.prefix].
  by destruct (ascii_dec x x).
Qed.

Lemma slice_app (a b : string) : slice (String.length a) (a +:+ b) = b.
Proof. induction a as [|x a IH]; [done |]. exact IH. Qed.

Lemma endsWithString_app (a b : string) : endsWithString b (a +:+ b) = true.
Proof.
  unfold endsWithString. rewrite string_length_app.
  replace (String.length a + String.length b - String.length b)%nat
    with (String.length a) by lia.
  rewrite slice_app, String.eqb_refl. cbn. apply Nat.leb_le. lia.
Qed.

Lemma split_cons sep a s :
  split sep (String a s) =
  if Ascii.eqb a sep then EmptyString :: split sep s
  else match split sep s with
       | x :: xs => String a x :: xs
       | [] => [String a EmptyString]
       end.
Proof. reflexivity. Qed.

Lemma split_not_nil sep s : split sep s ≠ [].
Proof.
  induction s as [|a s IH]; [done |]. rewrite split_cons.
  destruct (Ascii.eqb a sep); [done |]. by destruct (split sep s).
Qed.

Lemma split_plain sep s : contains sep s = false → split sep s = [s].
Proof.
  induction s as [|a s IH]; [done |]. cbn [contains]. rewrite split_cons.
  intros [Ha Hs]%orb_false_iff. rewrite Ha, (IH Hs). done.
Qed.

Lemma split_app_sep sep x y :
  split sep (x +:+ String sep y) = split sep x ++ split sep y.
Proof.
  induction x as [|a x IH].
  - change (EmptyString +:+ String sep y) with (String sep y).
    rewrite split_cons, Ascii.eqb_refl. done.
  - rewrite string_app_cons, !split_cons, IH.
    destruct (Ascii.eqb a sep); [done |].
    pose proof (split_not_nil sep x). by destruct (split sep x).
Qed.

Lemma split_no_sep sep s : Forall (λ l, contains sep l = false) (split sep s).
Proof.
  induction s as [|a s IH]; [by repeat constructor |]. rewrite split_cons.
  destruct (Ascii.eqb a sep) eqn:E; [by constructor |].
  destruct (split sep s) as [|x xs]; [by repeat constructor; cbn; rewrite E |].
  inversion IH as [|? ? Hx Hxs]; subst. constructor; [| done]. cbn. by rewrite E.
Qed.

Lemma endsWith_cons a b s : s ≠ EmptyString → endsWith a (String b s) = endsWith a s.
Proof. by destruct s. Qed.

Lemma dropLast_cons b s : s ≠ EmptyString → dropLast (String b s) = String b (dropLast s).
Proof. by destruct s. Qed.

Lemma endsWith_contains a s : endsWith a s = true → contains a s = true.
Proof.
  induction s as [|b s IH]; [done |]. destruct s as [|c s].
  - cbn. intros ->%Ascii.eqb_eq. by rewrite Ascii.eqb_refl.
  - rewrite endsWith_cons by done. intros H.
    change (contains a (String b (String c s)))
      with (Ascii.eqb b a || contains a (String c s)).
    rewrite (IH H). apply orb_true_r.
Qed.

Lemma contains_dropLast a s : contains a s = false → contains a (dropLast s) = false.
Proof.
  induction s as [|b s IH]; [done |]. destruct s as [|c s]; [done |].
  rewrite dropLast_cons by done.
  change (contains a (String b (String c s)))
    with (Ascii.eqb b a || contains a (String c s)).
  intros [Hb Hs]%orb_false_iff.
  change (contains a (String b (dropLast (String c s))))
    with (Ascii.eqb b a || contains a (dropLast (String c s))).
  by rewrite Hb, (IH Hs).
Qed.

Lemma endsWith_snoc a s : endsWith a (s +:+ String a EmptyString) = true.
Proof.
  induction s as [|b s IH]; [cbn; apply Ascii.eqb_refl |].
  rewrite string_app_cons, endsWith_cons; [exact IH | by destruct s].
Qed.

Lemma dropLast_snoc a s : dropLast (s +:+ String a EmptyString) = s.
Proof.
  induction s as [|b s IH]; [reflexivity |].
  rewrite string_app_cons, dropLast_cons; [by rewrite IH | by destruct s].
Qed.

(** X15.  [normalizeBasePath] returns the empty string or a path that
    begins with a slash.  It removes one trailing slash and no more:
    [p + "/"] becomes [p] itself when it begins with a slash, whatever
    [p] ends with, and ["/" + p] otherwise; a path without a trailing
    slash only gets its leading slash.  So the result has no trailing
    slash whenever the input has at most one, and such a result is left
    unchanged when normalised again. *)
Theorem base_path_is_normal :
  ∀ p : string,
    (normalizeBasePath p = EmptyString ∨ startsWith "/" (normalizeBasePath p) = true)
    ∧ (endsWith "/" (dropLast p) = false → endsWith "/" (normalizeBasePath p) = false)
    ∧ (endsWith "/" (normalizeBasePath p) = false →
       normalizeBasePath (normalizeBasePath p) = normalizeBasePath p)
    ∧ normalizeBasePath (p +:+ "/")
      = (if startsWith "/" (p +:+ "/") then p else "/" +:+ p)
    ∧ (p ≠ EmptyString → endsWith "/" p = false →
       normalizeBasePath p = if startsWith "/" p then p else "/" +:+ p)
    ∧ normalizeBasePath EmptyString = EmptyString.
Proof.
  intros p.
  assert (normalizeBasePath p = EmptyString ∨ startsWith "/" (normalizeBasePath p) = true)
    as Hhead.
  { unfold normalizeBasePath. destruct (String.eqb_spec p EmptyString) as [-> | Hp]; [by left |].
    cbn zeta. destruct (startsWith "/" p) eqn:Hs.
    - destruct (endsWith "/" p); [| by right].
      destruct p as [|a [|b p]]; [done | by left | right]. exact Hs.
    - change ("/" +:+ p) with (String "/" p). rewrite endsWith_cons by done.
      destruct (endsWith "/" p); [| by right]. right. by rewrite dropLast_cons. }
  split; [exact Hhead |]. split; [| split; [| split; [| split; [| reflexivity]]]].
  - intros Hone. unfold normalizeBasePath.
    destruct (String.eqb_spec p EmptyString) as [-> | Hp]; [done |].
    cbn zeta. destruct (startsWith "/" p) eqn:Hs.
    + by destruct (endsWith "/" p) eqn:He.
    + change ("/" +:+ p) with (String "/" p). rewrite endsWith_cons by done.
      destruct (endsWith "/" p) eqn:He; [| by rewrite endsWith_cons].
      rewrite dropLast_cons by done.
      destruct p as [|a [|b p]]; [done | |].
      * cbn in He, Hs. congruence.
      * by rewrite endsWith_cons.
  - intros Hend. destruct Hhead as [-> | Hs]; [done |].
    set (q := normalizeBasePath p) in *. unfold normalizeBasePath at 1.
    destruct (String.eqb_spec q EmptyString) as [-> | _]; [done |].
    cbn zeta. by rewrite Hs, Hend.
  - unfold normalizeBasePath.
    destruct (String.eqb_spec (p +:+ "/") EmptyString) as [E | _]; [by destruct p |].
    cbn zeta. destruct (startsWith "/" (p +:+ "/")).
    + by rewrite endsWith_snoc, dropLast_snoc.
    + change ("/" +:+ (p +:+ "/")) with (String "/" p +:+ "/").
      by rewrite endsWith_snoc, dropLast_snoc.
  - intros Hp Hend. unfold normalizeBasePath.
    destruct (String.eqb_spec p EmptyString) as [E | _]; [done |].
    cbn zeta. destruct (startsWith "/" p); [by rewrite Hend |].
    change ("/" +:+ p) with (String "/" p). by rewrite endsWith_cons, Hend.
Qed.

(** X15, on samples: a relative path with one trailing slash, and a path
    with two. *)
Lemma base_path_is_normal_witness :
  endsWith "/" (dropLast "v1/ssh/") = false
  ∧ endsWith "/" (normalizeBasePath "v1/ssh/") = false
  ∧ normalizeBasePath "v1/ssh/" = "/v1/ssh"
  ∧ normalizeBasePath "/v1/ssh//" = "/v1/ssh/".
Proof.
  split; [reflexivity |]. split; [| split].
  - exact (proj1 (proj2 (base_path_is_normal "v1/ssh/")) eq_refl).
  - exact (proj1 (proj2 (proj2 (proj2 (base_path_is_normal "v1/ssh"))))).
  - exact (proj1 (proj2 (proj2 (proj2 (base_path_is_normal "/v1/ssh/"))))).
Defined.

Lemma target_under (id rest : string) :
  contains "/" id = false →
  at_index (split "/" id) 0 = Some id
  ∧ at_index (split "/" (id +:+ String "/" rest)) 0 = Some id.
Proof.
  intros Hid. rewrite split_app_sep, (split_plain _ _ Hid). done.
Qed.

Lemma upgradeTarget_under cfg tail :
  upgradeTarget cfg (withBase cfg ("/ws/" +:+ tail)) = at_index (split "/" tail) 0.
Proof.
  unfold upgradeTarget, withBase. rewrite <- !string_app_assoc.
  by rewrite prefix_app, slice_app.
Qed.

Lemma deleteTarget_under cfg tail :
  deleteTarget cfg (withBase cfg ("/connections/" +:+ tail)) = at_index (split "/" tail) 0.
Proof.
  unfold deleteTarget, withBase. rewrite <- !string_app_assoc.
  by rewrite prefix_app, slice_app.
Qed.

Lemma nth_error_two (l : list string) x y :
  at_index (l ++ [x; y]) (Z.of_nat (length (l ++ [x; y])) - 2) = Some x.
Proof.
  unfold at_index. rewrite length_app. cbn [length].
  destruct (Z.ltb_spec (Z.of_nat (length l + 2) - 2) 0); [lia |].
  replace (Z.to_nat (Z.of_nat (length l + 2) - 2)) with (length l + 0)%nat by lia.
  by rewrite nth_error_app2, Nat.add_comm, Nat.add_sub by lia.
Qed.

(** X16.  The paths the server gives out lead back to the session.  For
    an id without a slash, the upgrade path [BASE_PATH/ws/id] (which is
    the [wsPath] of the create response) names [id], whatever follows a
    further slash; [DELETE BASE_PATH/connections/id] names [id], and so
    does DELETE on anything below it, the resize path included; and the
    resize route on [BASE_PATH/connections/id/resize] names [id].  A path
    outside [BASE_PATH/ws/] is no upgrade target: the socket is
    destroyed and nothing changes. *)
Theorem paths_name_the_session :
  ∀ (cfg : Config) (id : string),
    contains "/" id = false →
    upgradeTarget cfg (withBase cfg ("/ws/" +:+ id)) = Some id
    ∧ (∀ rest, upgradeTarget cfg (withBase cfg ("/ws/" +:+ id +:+ "/" +:+ rest)) = Some id)
    ∧ (∀ c, Conn.id c = id →
         get "wsPath" (created_json cfg c) = Some (JStr (withBase cfg ("/ws/" +:+ id))))
    ∧ deleteTarget cfg (withBase cfg ("/connections/" +:+ id)) = Some id
    ∧ (∀ rest,
         deleteTarget cfg (withBase cfg ("/connections/" +:+ id +:+ "/" +:+ rest)) = Some id)
    ∧ resizeTarget cfg (withBase cfg ("/connections/" +:+ id +:+ "/resize")) = Some id
    ∧ (∀ t pathname readOnlyParam s,
         String.prefix (withBase cfg "/ws/") pathname = false →
         onUpgradeRequest cfg t pathname readOnlyParam s = (tt, s, [SocketDestroy]))
    ∧ (∀ t readOnlyParam s,
         onUpgradeRequest cfg t (withBase cfg ("/ws/" +:+ id)) readOnlyParam s
         = onUpgrade t id match readOnlyParam with
                          | Some v => String.eqb v "1"
                          | None => false
                          end s).
Proof.
  intros cfg id Hid.
  destruct (target_under id EmptyString Hid) as [H0 _].
  assert (upgradeTarget cfg (withBase cfg ("/ws/" +:+ id)) = Some id) as Hup
    by by rewrite upgradeTarget_under.
  split; [exact Hup |]. split; [| split; [| split; [| split; [| split; [| split]]]]].
  - intros rest. rewrite upgradeTarget_under.
    by destruct (target_under id rest Hid).
  - by intros c <-.
  - by rewrite deleteTarget_under.
  - intros rest. rewrite deleteTarget_under.
    by destruct (target_under id rest Hid).
  - unfold resizeTarget, withBase.
    replace (BASE_PATH cfg +:+ "/connections/" +:+ id +:+ "/resize")
      with ((BASE_PATH cfg +:+ "/connections/") +:+ (id +:+ "/resize"))
      by by rewrite !string_app_assoc.
    rewrite prefix_app. cbn [andb].
    replace ((BASE_PATH cfg +:+ "/connections/") +:+ (id +:+ "/resize"))
      with ((BASE_PATH cfg +:+ "/connections/" +:+ id) +:+ "/resize")
      by by rewrite !string_app_assoc.
    rewrite endsWithString_app.
    replace ((BASE_PATH cfg +:+ "/connections/" +:+ id) +:+ "/resize")
      with ((BASE_PATH cfg +:+ "/connections") +:+ String "/" (id +:+ String "/" "resize"))
      by by rewrite !string_app_assoc.
    rewrite !split_app_sep, (split_plain _ _ Hid).
    change (split "/" "resize") with ["resize"].
    apply nth_error_two.
  - intros t pathname readOnlyParam s Hout. unfold onUpgradeRequest, upgradeTarget.
    by rewrite Hout.
  - intros t readOnlyParam s. unfold onUpgradeRequest. by rewrite Hup.
Qed.

Lemma paths_name_the_session_witness :
  contains "/" "X" = false
  ∧ resizeTarget demo_cfg (withBase demo_cfg ("/connections/" +:+ "X" +:+ "/resize"))
    = Some "X".
Proof.
  split; [reflexivity |].
  destruct (paths_name_the_session demo_cfg "X" eq_refl) as (_ & _ & _ & _ & _ & H & _).
  exact H.
Defined.

Lemma stripCR_plain l : contains CR l = false → stripCR l = l.
Proof.
  intros H. unfold stripCR. destruct (endsWith CR l) eqn:E; [| done].
  apply endsWith_contains in E. congruence.
Qed.

Lemma stripCR_no_LF l : contains LF l = false → contains LF (stripCR l) = false.
Proof.
  intros H. unfold stripCR. destruct (endsWith CR l); [| done]. by apply contains_dropLast.
Qed.

Lemma split_length sep s : length (split sep s) = S (occurrences sep s).
Proof.
  induction s as [|a s IH]; [reflexivity |]. rewrite split_cons. cbn [occurrences].
  destruct (Ascii.eqb a sep); [cbn [length]; by rewrite IH |].
  destruct (split sep s); [done |]. exact IH.
Qed.

Lemma dataLine_line l : dataLine (line ("data: " +:+ l)) = Some l.
Proof.
  unfold dataLine, line. rewrite endsWith_snoc.
  change (("data: " +:+ l) +:+ String LF EmptyString)
    with ("data: " +:+ (l +:+ String LF EmptyString)).
  rewrite prefix_app. cbn [andb].
  change 6%nat with (String.length "data: "). by rewrite slice_app, dropLast_snoc.
Qed.

Lemma dataLines_chunks seq event payload :
  dataLines (sseChunks seq event payload) = map stripCR (split LF payload).
Proof.
  unfold dataLines, sseChunks. rewrite !omap_app.
  change (omap dataLine [line ("id: " +:+ show_Z seq); line ("event: " +:+ event)])
    with (@nil string).
  change (omap dataLine [String LF EmptyString]) with (@nil string).
  rewrite app_nil_r. cbn [app].
  induction (split LF payload) as [|l ls IH]; [reflexivity |].
  cbn [map]. rewrite <- IH. cbn. by rewrite dataLine_line.
Qed.

Lemma stripCR_cons a x : x ≠ EmptyString → stripCR (String a x) = String a (stripCR x).
Proof.
  intros H. unfold stripCR. rewrite endsWith_cons by done.
  destruct (endsWith CR x); [by rewrite dropLast_cons | done].
Qed.

Lemma join_String sep a x ys :
  join sep (String a x :: ys) = String a (join sep (x :: ys)).
Proof. by destruct ys. Qed.

Lemma stripCR_one a :
  stripCR (String a EmptyString)
  = if Ascii.eqb a CR then EmptyString else String a EmptyString.
Proof.
  unfold stripCR. cbn [endsWith dropLast]. rewrite (Ascii.eqb_sym CR a).
  by destruct (Ascii.eqb a CR).
Qed.

Lemma join_lines p : join LF (map stripCR (split LF p)) = unCR p.
Proof.
  induction p as [|a rest IH]; [reflexivity |].
  rewrite split_cons. destruct (Ascii.eqb_spec a LF) as [-> | Ha].
  - pose proof (split_not_nil LF rest) as Hne.
    destruct (split LF rest) as [|x ys]; [done |].
    change (unCR (String LF rest)) with (String LF (unCR rest)). rewrite <- IH. reflexivity.
  - destruct rest as [|b rest'].
    + cbn [split map join unCR]. rewrite stripCR_one. by destruct (Ascii.eqb a CR).
    + rewrite split_cons in IH |- *. destruct (Ascii.eqb_spec b LF) as [-> | Hb].
      * pose proof (split_not_nil LF rest') as Hne.
        destruct (split LF rest') as [|z zs]; [done |].
        change (unCR (String a (String LF rest')))
          with (if Ascii.eqb a CR then unCR (String LF rest')
                else String a (unCR (String LF rest'))).
        rewrite <- IH. cbn [map]. rewrite stripCR_one.
        by destruct (Ascii.eqb a CR).
      * pose proof (split_not_nil LF rest') as Hne.
        destruct (split LF rest') as [|x' ys']; [done |].
        cbn [map] in IH |- *. rewrite stripCR_cons by done. rewrite join_String, IH.
        change (unCR (String a (String b rest')))
          with (if Ascii.eqb a CR
                then (if Ascii.eqb b LF then unCR (String b rest')
                      else String a (unCR (String b rest')))
                else String a (unCR (String b rest'))).
        destruct (Ascii.eqb_spec b LF); [done |]. by destruct (Ascii.eqb a CR).
Qed.

Lemma unCR_plain p : contains CR p = false → unCR p = p.
Proof.
  induction p as [|a rest IH]; [reflexivity |]. cbn [contains].
  intros [Ha Hrest]%orb_false_iff. cbn [unCR]. rewrite Ha. by rewrite (IH Hrest).
Qed.

(** X17.  What [sseSend] writes for a frame: the [id:] line, the [event:]
    line, the [data:] lines and an empty line.  There is one [data:] line
    per line of the payload, one more than the payload has line feeds,
    and none has a line feed inside.  Read back and joined with line
    feeds, the [data:] lines are the payload without the carriage returns
    that stood before a line feed or at the end: the payload itself when
    it has no carriage return.  A payload of a single line without
    carriage return is written as it is, in one [data:] line. *)
Theorem sse_frame_is_line_safe :
  ∀ (seq : Z) (event payload : string),
    let chunks := sseChunks seq event payload in
    chunks =
      [line ("id: " +:+ show_Z seq); line ("event: " +:+ event)]
      ++ map (λ l, line ("data: " +:+ l)) (dataLines chunks)
      ++ [String LF EmptyString]
    ∧ length (dataLines chunks) = S (occurrences LF payload)
    ∧ Forall (λ l, contains LF l = false) (dataLines chunks)
    ∧ join LF (dataLines chunks) = unCR payload
    ∧ (contains CR payload = false → join LF (dataLines chunks) = payload)
    ∧ (contains LF payload = false → contains CR payload = false →
       chunks =
         [line ("id: " +:+ show_Z seq); line ("event: " +:+ event);
          line ("data: " +:+ payload); String LF EmptyString]).
Proof.
  intros seq event payload. cbn zeta. rewrite dataLines_chunks.
  split; [| split; [| split; [| split; [| split]]]].
  - unfold sseChunks. by rewrite map_map.
  - by rewrite length_map, split_length.
  - apply Forall_map. eapply Forall_impl; [apply split_no_sep |].
    intros l. apply stripCR_no_LF.
  - apply join_lines.
  - intros Hcr. by rewrite join_lines, unCR_plain.
  - intros Hlf Hcr. unfold sseChunks. rewrite (split_plain _ _ Hlf). cbn [map app].
    by rewrite (stripCR_plain _ Hcr).
Qed.

(** X17, on samples: a summary in one line, and the data lines of a
    payload of two lines. *)
Lemma sse_frame_is_line_safe_witness :
  contains LF "{}" = false
  ∧ sseChunks 1 "connections" "{}" =
    [line ("id: " +:+ show_Z 1); line ("event: " +:+ "connections");
     line ("data: " +:+ "{}"); String LF EmptyString]
  ∧ dataLines (sseChunks 1 "connections" ("a" +:+ String LF "b")) = ["a"; "b"]
  ∧ join LF (dataLines (sseChunks 1 "connections" ("a" +:+ String LF "b")))
    = "a" +:+ String LF "b".
Proof.
  split; [reflexivity |]. split; [| split; [reflexivity |]].
  - exact (proj2 (proj2 (proj2 (proj2 (proj2
             (sse_frame_is_line_safe 1 "connections" "{}"))))) eq_refl eq_refl).
  - exact (proj1 (proj2 (proj2 (proj2 (proj2
             (sse_frame_is_line_safe 1 "connections" ("a" +:+ String LF "b"))))))
             eq_refl).
Defined.

Lemma includes_In x l : includes x l = true ↔ In x l.
Proof.
  unfold includes. rewrite existsb_exists. split.
  - intros (y & Hin & ->%String.eqb_eq). done.
  - intros H. exists x. split; [done | apply String.eqb_refl].
Qed.

(** X18.  CORS headers are granted only to a request that has an
    [Origin]: exactly when the allow-list has [*] or that origin, and
    then they echo that very origin and allow credentials.  The
    allow-list is the comma-separated environment value, each entry
    trimmed and empty entries dropped, no more and no less, and [*] when
    the variable is not set: with the default every origin is echoed. *)
Theorem cors_echoes_the_origin :
  (∀ allowed, corsHeaders allowed None = [])
  ∧ (∀ allowed o,
       corsHeaders allowed (Some o) = []
       ∨ (o ≠ EmptyString
          ∧ (In "*" allowed ∨ In o allowed)
          ∧ corsHeaders allowed (Some o) =
            [("access-control-allow-origin", o);
             ("access-control-allow-credentials", "true");
             ("access-control-allow-headers", "content-type, authorization");
             ("access-control-allow-methods", "GET,POST,DELETE,OPTIONS")]))
  ∧ (∀ allowed o, ¬ In "*" allowed → ¬ In o allowed → corsHeaders allowed (Some o) = [])
  ∧ allowedOrigins None = ["*"]
  ∧ (∀ o, o ≠ EmptyString → corsHeaders (allowedOrigins None) (Some o) ≠ [])
  ∧ (∀ env x, In x (allowedOrigins env) ↔
       x ≠ EmptyString ∧ ∃ entry, In entry (split "," (or_else env "*")) ∧ x = trim entry)
  ∧ (∀ allowed, corsHeaders allowed (Some EmptyString) = [])
  ∧ (∀ allowed o,
       o ≠ EmptyString → In "*" allowed ∨ In o allowed →
       corsHeaders allowed (Some o) =
         [("access-control-allow-origin", o);
          ("access-control-allow-credentials", "true");
          ("access-control-allow-headers", "content-type, authorization");
          ("access-control-allow-methods", "GET,POST,DELETE,OPTIONS")]).
Proof.
  split; [done |]. split; [| split; [| split; [done | split; [| split; [| split; [done |]]]]]].
  - intros allowed o. unfold corsHeaders.
    destruct (String.eqb_spec o EmptyString) as [-> | Ho]; [by left |].
    destruct (includes "*" allowed || includes o allowed) eqn:E; [right | by left].
    split; [done |]. split; [| done].
    apply orb_true_iff in E as [E | E]; apply includes_In in E; tauto.
  - intros allowed o Hstar Ho. unfold corsHeaders.
    destruct (String.eqb o EmptyString); [done |].
    assert (includes "*" allowed = false) as ->.
    { destruct (includes "*" allowed) eqn:E; [| done]. by apply includes_In in E. }
    assert (includes o allowed = false) as ->; [| done].
    destruct (includes o allowed) eqn:E; [| done]. by apply includes_In in E.
  - intros o Ho. unfold corsHeaders. cbn.
    by destruct (String.eqb_spec o EmptyString).
  - intros env x. unfold allowedOrigins. rewrite filter_In, in_map_iff. split.
    + intros [(entry & <- & Hin) Hne]. split; [| by eauto].
      intros E. by rewrite E in Hne.
    + intros [Hne (entry & Hin & ->)]. split; [by eauto |].
      by destruct (String.eqb_spec (trim entry) EmptyString).
  - intros allowed o Ho Hin. unfold corsHeaders.
    destruct (String.eqb_spec o EmptyString) as [E | _]; [done |].
    assert (includes "*" allowed || includes o allowed = true) as ->; [| done].
    apply orb_true_iff. destruct Hin as [H | H]; [left | right]; by apply includes_In.
Qed.

(** ** Snapshots and subscribers *)

Lemma values_ids s :
  consistent s → map Conn.id (values s) = map fst (connections s).
Proof.
  intros [_ Hc]. unfold values.
  induction (connections s) as [|[id r] l IH]; [done |]. cbn.
  destruct (Hc id r) as (c & -> & <-); [by left |]. cbn. f_equal.
  apply IH. intros id' r' ?. apply Hc. by right.
Qed.

Lemma filter_length_le {A : Type} (f : A → bool) l :
  (length (List.filter f l) ≤ length l)%nat.
Proof. induction l as [|x l IH]; [done |]. cbn. destruct (f x); cbn; lia. Qed.

(** X19.  GET /connections changes nothing and answers 200 with the
    current version and one view per registered session, in the order
    the sessions were registered; sessions an upstream event made
    [closed] or [error] are listed as long as they are registered.  In a
    view, [attachedClients] counts the peers whose socket is open, which
    can be fewer than the peers in the set. *)
Theorem snapshot_lists_the_registry :
  ∀ (cfg : Config) (parse : string → option json) (s : Engine) (t : Z) (req : nat),
    consistent s →
    step cfg parse t (GetConnections req) s
    = (tt, s, [HttpResponse req 200 (connectionsSnapshot t s)])
    ∧ get "connections" (connectionsSnapshot t s) = Some (JArr (map (view s) (values s)))
    ∧ map Conn.id (values s) = map fst (connections s)
    ∧ ∀ c, get "id" (view s c) = Some (JStr (Conn.id c))
           ∧ get "state" (view s c) = Some (JStr (state_name (Conn.state c)))
           ∧ get "attachedClients" (view s c)
             = Some (jint (Z.of_nat (length (List.filter (socket_open s) (Conn.clients c)))))
           ∧ 0 ≤ attachedClients s c ≤ Z.of_nat (length (Conn.clients c)).
Proof.
  intros cfg parse s t req Hcons. split; [done |]. split; [done |].
  split; [by apply values_ids |]. intros c. repeat split; try done.
  - unfold attachedClients. lia.
  - unfold attachedClients.
    pose proof (filter_length_le (socket_open s) (Conn.clients c)). lia.
Qed.

Lemma snapshot_lists_the_registry_witness :
  consistent ex_shell_closed
  ∧ map Conn.id (values ex_shell_closed) = ["X"]
  ∧ map (λ c, get "state" (view ex_shell_closed c)) (values ex_shell_closed)
    = [Some (JStr "closed")].
Proof.
  assert (consistent ex_shell_closed) as Hc by (apply consistentb_sound; reflexivity).
  split; [exact Hc |].
  destruct (snapshot_lists_the_registry demo_cfg demo_parse ex_shell_closed 1005 0 Hc)
    as (_ & _ & Hids & _).
  split; [exact Hids | reflexivity].
Defined.

Section Quiet.
Context (res : nat).

Lemma quiet_ret {A : Type} (a : A) : quiet res (mret a).
Proof. intros s Hs. split; [done | by intros e []]. Qed.

Lemma quiet_read : quiet res read.
Proof. intros s Hs. split; [done | by intros e []]. Qed.

Lemma quiet_update f :
  (∀ s, ¬ In res (sseClients s) → ¬ In res (sseClients (f s))) → quiet res (update f).
Proof. intros H s Hs. split; [by apply H | by intros e []]. Qed.

Lemma quiet_emit e : frame_target e ≠ Some res → quiet res (emit e).
Proof. intros H s Hs. split; [done |]. by intros e' [<- | []]. Qed.

Lemma quiet_bind {A B : Type} (m : M A) (k : A → M B) :
  quiet res m → (∀ a, quiet res (k a)) → quiet res (m ≫= k).
Proof.
  intros Hm Hk s Hs. rewrite run_state_bind, run_effects_bind.
  destruct (Hm s Hs) as [Hm1 Hm2].
  destruct (Hk (m s).1.1 (run_state m s) Hm1) as [Hk1 Hk2].
  split; [done |]. intros e [? | ?]%in_app_or; [by apply Hm2 | by apply Hk2].
Qed.

Lemma quiet_forEach {A : Type} (l : list A) (body : A → M unit) :
  (∀ x, quiet res (body x)) → quiet res (forEach l body).
Proof.
  intros H. induction l as [|x l IH]; cbn [forEach].
  - apply (quiet_ret tt).
  - apply quiet_bind; [apply H | intros _; apply IH].
Qed.

Lemma quiet_withConn r body : (∀ c, quiet res (body c)) → quiet res (withConn r body).
Proof.
  intros H. unfold withConn. apply quiet_bind; [apply quiet_read |].
  intros s. destruct (deref s r); [apply H | apply (quiet_ret tt)].
Qed.

Lemma quiet_bump t reason ids : quiet res (bumpAndNotify t reason ids).
Proof.
  intros s Hs. unfold run_state, run_effects. rewrite bump_eq. cbn [fst snd].
  split; [done |]. intros e [<- | Hin]; [done |].
  intros He. apply Hs. rewrite <- (omap_sse_frames_target (sseSeq s) (sseClients s)
    "connections" (summary_of t reason ids s)).
  apply list_elem_of_In, list_elem_of_omap. exists e. split; [| done].
  by apply list_elem_of_In.
Qed.

Lemma set_delete_sub x y l : In x (set_delete y l) → In x l.
Proof.
  induction l as [|z l IH]; [done |]. cbn. destruct (Nat.eqb z y).
  - intros ?. right. by apply IH.
  - intros [-> | ?]; [by left | right; by apply IH].
Qed.

Lemma set_add_other x y l : x ≠ y → In x (set_add y l) → In x l.
Proof.
  intros Hne. unfold set_add. destruct (set_has y l); [done |].
  intros [? | [-> | []]]%in_app_or; done.
Qed.

Ltac quiet_go :=
  repeat lazymatch goal with
  | |- quiet _ (bumpAndNotify _ _ _) => apply quiet_bump
  | |- quiet _ (_ ≫= _) => apply quiet_bind; [| intros ?]
  | |- quiet _ (mret _) => apply quiet_ret
  | |- quiet _ skip => apply (quiet_ret tt)
  | |- quiet _ read => apply quiet_read
  | |- quiet _ (emit _) => apply quiet_emit; discriminate
  | |- quiet _ (update _) => apply quiet_update; intros ? ?; assumption
  | |- quiet _ (forEach _ _) => apply quiet_forEach; intros ?
  | |- quiet _ (withConn _ _) => apply quiet_withConn; intros ?
  | |- quiet _ (match ?x with _ => _ end) => destruct x
  | |- quiet _ ?m => let h := head_of m in unfold h
  end.

Lemma quiet_step cfg parse t ev :
  not_subscribing res ev → quiet res (step cfg parse t ev).
Proof.
  intros Hev. destruct ev; cbn [step]; quiet_go.
  - (* another subscriber arrives *)
    apply quiet_update. intros s Hs Hin. apply Hs.
    apply (set_add_other res res0); [cbn in Hev; congruence | exact Hin].
  - apply quiet_emit. cbn in *. congruence.
  - (* a subscriber leaves *)
    apply quiet_update. intros s Hs Hin. apply Hs.
    apply (set_delete_sub res res0). exact Hin.
Qed.

Lemma quiet_run cfg parse evs :
  Forall (λ x, not_subscribing res x.2) evs → quiet res (run cfg parse evs).
Proof.
  induction 1 as [| [t ev] evs Hev _ IH]; cbn [run].
  - apply (quiet_ret tt).
  - apply quiet_bind; [by apply quiet_step | intros _; apply IH].
Qed.

End Quiet.

(** X20.  Once the stream of a subscriber has closed, nothing more is
    written to it: whatever events follow, as long as it does not
    subscribe again, no frame of any publication goes to it, and it
    stays out of the subscriber set. *)
Theorem closed_stream_gets_nothing :
  ∀ (cfg : Config) (parse : string → option json) (s : Engine) (t : Z)
    (res : nat) (evs : list (Z * Event)),
    Forall (λ x, not_subscribing res x.2) evs →
    let s0 := run_state (step cfg parse t (StreamClosed res)) s in
    ¬ In res (sseClients s0)
    ∧ ¬ In res (sseClients (run_state (run cfg parse evs) s0))
    ∧ ∀ e, In e (run_effects (run cfg parse evs) s0) → frame_target e ≠ Some res.
Proof.
  intros cfg parse s t res evs Hevs. cbn zeta.
  assert (¬ In res (sseClients (run_state (step cfg parse t (StreamClosed res)) s))) as H0
    by apply set_delete_not_in.
  split; [exact H0 |]. by apply (quiet_run res cfg parse evs Hevs).
Qed.

Lemma closed_stream_gets_nothing_witness :
  Forall (λ x : Z * Event, not_subscribing 4 x.2) [(1006, DeleteConnection 9 "X")]
  ∧ ∀ e,
      In e (run_effects (run demo_cfg demo_parse [(1006, DeleteConnection 9 "X")])
              (run_state (step demo_cfg demo_parse 1005 (StreamClosed 4))
                 (run_state (step demo_cfg demo_parse 1004 (GetStream 4)) ex_attached))) →
      frame_target e ≠ Some 4%nat.
Proof.
  assert (Forall (λ x : Z * Event, not_subscribing 4 x.2) [(1006, DeleteConnection 9 "X")])
    as Hevs by (repeat constructor).
  split; [exact Hevs |].
  exact (proj2 (proj2 (closed_stream_gets_nothing demo_cfg demo_parse
           (run_state (step demo_cfg demo_parse 1004 (GetStream 4)) ex_attached)
           1005 4 _ Hevs))).
Defined.

(** X21.  A terminal state is not final while the create request is
    still waiting for the shell.  If the session is terminated in that
    window (DELETE removes it from the registry and makes it [closed]),
    the shell callback that arrives afterwards makes the record [ready]
    again and answers the create request 201 with state [ready]; the
    session stays out of the registry, so its [wsPath] leads nowhere. *)
Theorem late_shell_revives_a_deleted_session :
  ∀ (cfg : Config) (parse : string → option json) (s : Engine) (t : Z)
    (r req : nat) (c : Conn.t),
    pending_of s r = AwaitShell req → deref s r = Some c →
    Conn.state c = Closed → map_get (Conn.id c) (connections s) = None →
    let out := step cfg parse t (ShellOpened r) s in
    Conn.state <$> deref out.1.2 r = Some Ready
    ∧ map_get (Conn.id c) (connections out.1.2) = None
    ∧ In (HttpResponse req 201 (created_json cfg (opened t r c))) out.2
    ∧ get "state" (created_json cfg (opened t r c)) = Some (JStr "ready")
    ∧ ∀ t' readOnly,
        step cfg parse t' (Upgrade (Conn.id c) readOnly) out.1.2
        = (tt, out.1.2, [SocketDestroy]).
Proof.
  intros cfg parse s t r req c Hp Hc Hst Hgone. cbn zeta. cbn [step].
  destruct (onShellOpened_eq cfg t r s req c Hp Hc) as [-> ->].
  split; [| split; [done | split; [| split; [done |]]]].
  - unfold deref in *. cbn. rewrite lookup_pending, !lookup_on_conn, !decide_True by done.
    by rewrite Hc.
  - right. apply in_or_app. right. by left.
  - intros t' readOnly. by apply onUpgrade_unknown.
Qed.

Lemma late_shell_revives_a_deleted_session_witness :
  reachable demo_cfg demo_parse ex_deleted_opening
  ∧ pending_of ex_deleted_opening 0 = AwaitShell 0
  ∧ Conn.state <$> deref ex_deleted_opening 0 = Some Closed
  ∧ Conn.state
      <$> deref (step demo_cfg demo_parse 1003 (ShellOpened 0) ex_deleted_opening).1.2 0
    = Some Ready.
Proof.
  split; [apply reachable_after |]. split; [reflexivity |]. split; [reflexivity |].
  exact (proj1 (late_shell_revives_a_deleted_session demo_cfg demo_parse
                  ex_deleted_opening 1003 0 0 _ eq_refl eq_refl eq_refl eq_refl)).
Defined.

(** ** The further properties on the sample session *)

Lemma versions_count_up_witness :
  connectionsVersion ex_ready = 2
  ∧ ∀ t, get "version" (connectionsSnapshot t ex_ready) = Some (jint 2).
Proof.
  destruct (versions_count_up demo_cfg demo_parse to_ready initial) as (_ & _ & H3 & H4).
  split; [exact H3 | exact H4].
Defined.

Lemma frames_reach_every_subscriber_witness :
  omap frame_target
    (run_effects (bumpAndNotify 1005 resize None)
       (run_state (step demo_cfg demo_parse 1004 (GetStream 4)) ex_ready))
  = [4%nat].
Proof.
  destruct (proj1 frames_reach_every_subscriber 1005 resize None
              (run_state (step demo_cfg demo_parse 1004 (GetStream 4)) ex_ready))
    as (sm & _ & H & _).
  exact H.
Defined.

Lemma cors_echoes_the_origin_witness :
  "https://term.example" ≠ EmptyString
  ∧ corsHeaders (allowedOrigins None) (Some "https://term.example") ≠ []
  ∧ allowedOrigins (Some " https://term.example ,,https://b.example")
    = ["https://term.example"; "https://b.example"]
  ∧ corsHeaders (allowedOrigins (Some " https://term.example ,,https://b.example"))
      (Some "https://b.example")
    = [("access-control-allow-origin", "https://b.example");
       ("access-control-allow-credentials", "true");
       ("access-control-allow-headers", "content-type, authorization");
       ("access-control-allow-methods", "GET,POST,DELETE,OPTIONS")].
Proof.
  assert ("https://term.example" ≠ EmptyString) as Ho by discriminate.
  assert ("https://b.example" ≠ EmptyString) as Hb by discriminate.
  split; [exact Ho |]. split; [| split; [reflexivity |]].
  - exact (proj1 (proj2 (proj2 (proj2 (proj2 cors_echoes_the_origin))))
             "https://term.example" Ho).
  - apply (proj2 (proj2 (proj2 (proj2 (proj2 (proj2 (proj2 cors_echoes_the_origin)))))));
      [exact Hb |].
    right. right. left. reflexivity.
Defined.
